(** * KQLEngine: a shallow embedding of [kql_engine.py]

    The engine runs a pipe-delimited query against a pandas [DataFrame].
    This file embeds the engine's own code (lexer, argument parser, literal
    parser, the stage operators and the pipeline executor) and states the
    properties of the specification against it.

    Conventions of the embedding.
    - A Python [str] is a Rocq [string]; a character is a code point below
      256 (the Latin-1 range), which is what [Ascii.ascii] holds.  Texts
      with characters above 255 are outside the embedding.
    - A cell is a [Value]: a boolean, an integer, a float (a rational, or
      [VNull] for NaN), a text, a list, or [VNone] for [None].  Cells that
      are timestamps are outside the embedding.
    - A Python exception is a value of [Exn], its class and its text; a
      computation that may raise returns a [Result].
    - The engine object and the frames it handles live in a store
      ([World]); a stage receives and returns references into it.
    - [int] and [str] are those of Python 3.11, with its limit of 4300
      digits on the conversion between integers and texts.
    - What pandas and numpy do inside the calls the engine makes is
      embedded as far as the properties look into it: comparison of a
      column with a scalar, the cast of cells to texts, the hashing of
      group keys and of compared columns, grouping, the stable sort on
      several columns, the removal of duplicates, boolean indexing.  The
      rest is taken from an interface, [Host]: regular expressions that
      hold a special character other than the dot, the texts of floats,
      the reductions of [agg], comparison with a list literal, numpy's
      [argsort] on one key column (with its contract, a permutation that
      sorts), random sampling, [nlargest].  [example_host] is an instance
      that computes; its [argsort] runs numpy's quicksort. *)

From Stdlib Require Import ZArith QArith Strings.String Strings.Ascii List Bool Lia.
From Stdlib Require Import Sorting.Permutation Sorting.Sorted DecimalString.
From Stdlib Require DecimalPos.
From stdpp Require Import base option list gmap strings.

Local Set Warnings "-register-all".

#[local] Arguments String.append !_ _ / : simpl nomatch.

Local Open Scope string_scope.
Local Open Scope Z_scope.
Local Open Scope list_scope.

(** ** Python string primitives *)

Module Py.

(** [c.isspace()] on the Latin-1 range: TAB..CR, FS..US, space, NEL, NBSP. *)
Definition isspace (c : ascii) : bool :=
  let n := nat_of_ascii c in
  ((9 <=? n) && (n <=? 13) || (28 <=? n) && (n <=? 32)
   || (n =? 133) || (n =? 160))%nat.

(** The class [\w] of [re] on [str] patterns: alphanumerics and [_]. *)
Definition isword (c : ascii) : bool :=
  let n := nat_of_ascii c in
  ((48 <=? n) && (n <=? 57) || (65 <=? n) && (n <=? 90) || (n =? 95)
   || (97 <=? n) && (n <=? 122)
   || (n =? 170) || (n =? 178) || (n =? 179) || (n =? 181)
   || (185 <=? n) && (n <=? 186) || (188 <=? n) && (n <=? 190)
   || (192 <=? n) && (n <=? 214) || (216 <=? n) && (n <=? 246)
   || (248 <=? n))%nat.

Definition isdigit (c : ascii) : bool :=
  let n := nat_of_ascii c in ((48 <=? n) && (n <=? 57))%nat.

(** [c.lower()]: A-Z and the Latin-1 capitals (not the multiplication
    sign) move down by 32. *)
Definition lower_char (c : ascii) : ascii :=
  let n := nat_of_ascii c in
  if ((65 <=? n) && (n <=? 90)
      || (192 <=? n) && (n <=? 222) && negb (n =? 215))%nat
  then ascii_of_nat (n + 32) else c.

Definition upper_char (c : ascii) : ascii :=
  let n := nat_of_ascii c in
  if ((97 <=? n) && (n <=? 122)
      || (224 <=? n) && (n <=? 254) && negb (n =? 247))%nat
  then ascii_of_nat (n - 32) else c.

Fixpoint smap (f : ascii -> ascii) (s : string) : string :=
  match s with
  | EmptyString => EmptyString
  | String c r => String (f c) (smap f r)
  end.

Definition lower : string -> string := smap lower_char.

(** [c.upper()].  The capital of the sharp s is [SS]; those of the micro
    sign and of the y with diaeresis lie above 255, outside what a
    character of this file holds, and the two are left as they are. *)
Definition upper_text (c : ascii) : string :=
  if (nat_of_ascii c =? 223)%nat then "SS" else String (upper_char c) EmptyString.

Fixpoint upper (s : string) : string :=
  match s with
  | EmptyString => EmptyString
  | String c r => upper_text c +:+ upper r
  end.

Fixpoint lstrip (s : string) : string :=
  match s with
  | String c r => if isspace c then lstrip r else s
  | EmptyString => EmptyString
  end.

Definition rstrip (s : string) : string :=
  String.rev (lstrip (String.rev s)).

Definition strip (s : string) : string := rstrip (lstrip s).

(** The white space [int] skips around a literal: TAB..CR and the space
    and, in a text that is not ASCII, NEL and NBSP (FS..US are not
    skipped). *)
Definition isspace_int (c : ascii) : bool :=
  let n := nat_of_ascii c in
  ((9 <=? n) && (n <=? 13) || (n =? 32) || (n =? 133) || (n =? 160))%nat.

(** [c.isprintable()] *)
Definition isprintable (c : ascii) : bool :=
  let n := nat_of_ascii c in
  ((32 <=? n) && (n <=? 126) || (161 <=? n) && negb (n =? 173))%nat.

Fixpoint lstrip_by (p : ascii -> bool) (s : string) : string :=
  match s with
  | String c r => if p c then lstrip_by p r else s
  | EmptyString => EmptyString
  end.

(** [s[:n]] *)
Fixpoint first_chars (n : nat) (s : string) : string :=
  match n, s with
  | S k, String c r => String c (first_chars k r)
  | _, _ => EmptyString
  end.

(** [s[n:]] *)
Fixpoint drop (n : nat) (s : string) : string :=
  match n, s with
  | O, _ => s
  | S k, String _ r => drop k r
  | S _, EmptyString => EmptyString
  end.

(** [s[:-1]] *)
Fixpoint drop_last (s : string) : string :=
  match s with
  | EmptyString => EmptyString
  | String _ EmptyString => EmptyString
  | String c r => String c (drop_last r)
  end.

(** [s[n:-1]] *)
Definition slice_to_last (n : nat) (s : string) : string :=
  drop_last (drop n s).

Definition startswith (p s : string) : bool := String.prefix p s.

Definition endswith (p s : string) : bool :=
  String.prefix (String.rev p) (String.rev s).

(** [s.partition(sep)] for a non-empty [sep]: the text before and after the
    leftmost occurrence, [None] when there is none. *)
Fixpoint partition (sep s : string) {struct s} : option (string * string) :=
  if String.prefix sep s then Some (EmptyString, drop (String.length sep) s)
  else match s with
       | EmptyString => None
       | String c r =>
           match partition sep r with
           | Some (a, b) => Some (String c a, b)
           | None => None
           end
       end.

(** [sub in s] *)
Definition contains (sub s : string) : bool :=
  match partition sub s with Some _ => true | None => false end.

(** [s.split(sep, 1)] *)
Definition split1 (sep s : string) : string * option string :=
  match partition sep s with
  | Some (a, b) => (a, Some b)
  | None => (s, None)
  end.

(** [s.split(sep)]: cut at the leftmost occurrence and go on in the rest.
    The rest is shorter than [s], so [String.length s] rounds suffice. *)
Fixpoint split_fuel (fuel : nat) (sep s : string) : list string :=
  match fuel with
  | O => [s]
  | S k =>
      match partition sep s with
      | Some (a, b) => a :: split_fuel k sep b
      | None => [s]
      end
  end.

Definition split (sep s : string) : list string :=
  split_fuel (String.length s) sep s.

(** [sep.join(parts)] *)
Definition join (sep : string) (parts : list string) : string :=
  String.concat sep parts.

Definition dquote : string := String "034"%char EmptyString.

Definition backslash : ascii := "092"%char.

Definition hex_digit (n : nat) : ascii :=
  ascii_of_nat (if (n <? 10)%nat then 48 + n else 87 + n).

(** A character inside [repr(s)], the text being quoted with [quote]. *)
Definition repr_char (quote c : ascii) : string :=
  let n := nat_of_ascii c in
  let escaped (x : ascii) := String backslash (String x EmptyString) in
  if (c =? backslash)%char then escaped backslash
  else if (c =? quote)%char then escaped c
  else if (n =? 9)%nat then escaped "t"%char
  else if (n =? 10)%nat then escaped "n"%char
  else if (n =? 13)%nat then escaped "r"%char
  else if isprintable c then String c EmptyString
  else String backslash (String "x" (String (hex_digit (n / 16))
                                       (String (hex_digit (n mod 16)) EmptyString))).

Fixpoint repr_chars (quote : ascii) (s : string) : string :=
  match s with
  | EmptyString => EmptyString
  | String c r => repr_char quote c +:+ repr_chars quote r
  end.

(** [repr(s)] of a [str]: between single quotes, or between double quotes
    when the text holds a single quote and no double one. *)
Definition repr (s : string) : string :=
  let quote : ascii :=
    if contains "'" s && negb (contains dquote s) then "034"%char
    else "'"%char in
  String quote (repr_chars quote s +:+ String quote EmptyString).

(** [s.replace(old, new)] for a non-empty [old]: the occurrences found,
    left to right and without overlap, are those [split] cuts at. *)
Definition replace (old new s : string) : string :=
  join new (split old s).

End Py.

(** ** Values, exceptions and results *)

(** A cell of a table or a parsed literal.  [VNull] is the float NaN and
    [VNone] is [None], the two missing values of pandas; a float that is a
    number is modelled by the rational it denotes. *)
Inductive Value : Type :=
| VNull
| VNone
| VBool (b : bool)
| VInt (z : Z)
| VFloat (q : Q)
| VStr (s : string)
| VList (items : list Value).

Inductive ExnClass : Type :=
| KeyError | TypeError | ValueError | AttributeError | IndexingError | ReError.

(** An exception: its class and [str(e)]. *)
Record Exn : Type := mkExn { exn_class : ExnClass; exn_str : string }.

Inductive Result (A : Type) : Type :=
| Ok (a : A)
| Raise (e : Exn).
Arguments Ok {A} a.
Arguments Raise {A} e.

Definition rbind {A B} (r : Result A) (k : A -> Result B) : Result B :=
  match r with Ok a => k a | Raise e => Raise e end.

Notation "x <-r e ;; k" := (rbind e (fun x => k))
  (at level 100, e at next level, right associativity).

(** [[f(x) for x in l]] where [f] may raise. *)
Fixpoint rmap {A B} (f : A -> Result B) (l : list A) : Result (list B) :=
  match l with
  | [] => Ok []
  | x :: r => y <-r f x ;; ys <-r rmap f r ;; Ok (y :: ys)
  end.

Definition is_ok {A} (r : Result A) : bool :=
  match r with Ok _ => true | Raise _ => false end.

(** [KeyError(name)]: [str] of a [KeyError] is the [repr] of its key. *)
Definition key_error (name : string) : Exn :=
  mkExn KeyError (Py.repr name).

(** ** Tables *)

Inductive dtype : Type := Int64 | Float64 | BoolT | ObjectT.

(** A row: its index label and one cell per column, in column order. *)
Record Row : Type := mkRow { label : Z; cells : list Value }.

Record DataFrame : Type := mkFrame {
  columns : list (string * dtype);
  rows : list Row
}.

Definition column_names (df : DataFrame) : list string := (columns df).*1.

Definition len (df : DataFrame) : nat := length (rows df).

Definition index (df : DataFrame) : list Z := label <$> rows df.

(** Every row has one cell per column. *)
Definition well_formed (df : DataFrame) : Prop :=
  Forall (fun r => length (cells r) = length (columns df)) (rows df).

(** [pd.RangeIndex(n)] *)
Definition range_index (n : nat) : list Z := Z.of_nat <$> seq 0 n.

(** Position of the first column called [name]. *)
Fixpoint column_position (name : string) (cols : list (string * dtype)) : option nat :=
  match cols with
  | [] => None
  | (c, _) :: r =>
      if String.eqb c name then Some O else S <$> column_position name r
  end.

(** [name in df.columns] *)
Definition has_column (df : DataFrame) (name : string) : bool :=
  match column_position name (columns df) with Some _ => true | None => false end.

Definition cell (p : nat) (r : Row) : Value := nth p (cells r) VNull.

(** A [Series]: labelled values. *)
Definition Series (A : Type) : Type := list (Z * A).

(** [df[name]] *)
Definition getitem (df : DataFrame) (name : string) : Result (Series Value) :=
  match column_position name (columns df) with
  | Some p => Ok ((fun r => (label r, cell p r)) <$> rows df)
  | None => Raise (key_error name)
  end.

(** ** Python conversions and comparisons on values *)

Definition dquote : string := Py.dquote.

(** The digits of a literal as [int(text)] scans them: decimal digits with
    single underscores between them.  [prev] says that the character
    before was an underscore, or that the scan starts here.  The result is
    the number read so far, the count of its digits and the text that is
    left; [None] when an underscore is at the start, at the end or next to
    another, or when there is no digit. *)
Fixpoint scan_digits (prev : bool) (acc count : Z) (s : string)
  : option (Z * Z * string) :=
  match s with
  | String c r =>
      if Py.isdigit c
      then scan_digits false (acc * 10 + Z.of_nat (nat_of_ascii c - 48)) (count + 1) r
      else if (c =? "_")%char
      then if prev then None else scan_digits true acc count r
      else if prev then None else Some (acc, count, s)
  | EmptyString => if prev then None else Some (acc, count, s)
  end.

(** [sys.get_int_max_str_digits()], the default of Python 3.11. *)
Definition max_str_digits : Z := 4300.

(** What [int(text)] makes of a text: an integer, or a [ValueError], which
    is either that of a text that is no literal or that of a literal with
    more digits than the limit. *)
Inductive IntText : Type :=
| IntValue (z : Z)
| IntInvalid
| IntTooLong (count : Z).

(** [int(text)]: white space, an optional sign, the digits, white space.
    The count of the digits is checked as soon as they are scanned, before
    the text after them is looked at. *)
Definition read_int (text : string) : IntText :=
  let s := Py.lstrip_by Py.isspace_int text in
  let '(negative, s) :=
    match s with
    | String "+" r => (false, r)
    | String "-" r => (true, r)
    | _ => (false, s)
    end in
  match scan_digits true 0 0 s with
  | Some (z, count, rest) =>
      if max_str_digits <? count then IntTooLong count
      else if String.eqb (Py.lstrip_by Py.isspace_int rest) ""
      then IntValue (if negative then - z else z)
      else IntInvalid
  | None => IntInvalid
  end.

(** [int(text)]; [None] is a [ValueError]. *)
Definition int_of_str (text : string) : option Z :=
  match read_int text with
  | IntValue z => Some z
  | _ => None
  end.

Definition str_of_int (z : Z) : string :=
  DecimalString.NilZero.string_of_int (Z.to_int z).

(** The number of decimal digits of an integer. *)
Definition count_digits (z : Z) : Z :=
  Z.of_nat (String.length (str_of_int (Z.abs z))).

(** The [ValueError] of [int(text)].  The message of a text that is no
    literal shows at most 200 characters of [repr(text)]. *)
Definition int_error (text : string) : Exn :=
  match read_int text with
  | IntTooLong count =>
      mkExn ValueError
        ("Exceeds the limit (4300 digits) for integer string conversion: value has "
         +:+ str_of_int count
         +:+ " digits; use sys.set_int_max_str_digits() to increase the limit")
  | _ =>
      mkExn ValueError
        ("invalid literal for int() with base 10: "
         +:+ Py.first_chars 200 (Py.repr text))
  end.

(** [pd.isna(v)] *)
Definition isna (v : Value) : bool :=
  match v with VNull | VNone => true | _ => false end.

Definition is_list (v : Value) : bool :=
  match v with VList _ => true | _ => false end.

(** [type(v).__name__] *)
Definition type_name (v : Value) : string :=
  match v with
  | VNull => "float"
  | VNone => "NoneType"
  | VBool _ => "bool"
  | VInt _ => "int"
  | VFloat _ => "float"
  | VStr _ => "str"
  | VList _ => "list"
  end.

(** A bool, an int or a float as the number it is. *)
Definition as_number (v : Value) : option Q :=
  match v with
  | VBool b => Some (if b then 1%Q else 0%Q)
  | VInt z => Some (inject_Z z)
  | VFloat q => Some q
  | _ => None
  end.

Inductive CmpOp : Type := EQ | NEQ | GE | LE | GT | LT.

Definition holds_on (op : CmpOp) (c : comparison) : bool :=
  match op, c with
  | EQ, Eq | NEQ, Lt | NEQ, Gt | GE, Eq | GE, Gt | LE, Eq | LE, Lt
  | GT, Gt | LT, Lt => true
  | _, _ => false
  end.

Definition op_symbol (op : CmpOp) : string :=
  match op with
  | EQ => "==" | NEQ => "!=" | GE => ">=" | LE => "<=" | GT => ">" | LT => "<"
  end.

(** [x op v] on one cell of an object column, as pandas evaluates a
    comparison with a scalar: a missing value satisfies only [!=]; numbers
    compare by value and strings by code points; unlike operands are
    unequal and cannot be ordered ([TypeError]). *)
Definition compare_cell (op : CmpOp) (x v : Value) : Result bool :=
  if isna x || isna v then Ok (match op with NEQ => true | _ => false end)
  else match as_number x, as_number v, x, v with
       | Some a, Some b, _, _ => Ok (holds_on op (a ?= b)%Q)
       | _, _, VStr a, VStr b => Ok (holds_on op (String.compare a b))
       | _, _, _, _ =>
           match op with
           | EQ => Ok false
           | NEQ => Ok true
           | _ => Raise (mkExn TypeError
                           ("'" +:+ op_symbol op
                            +:+ "' not supported between instances of '"
                            +:+ type_name x +:+ "' and '" +:+ type_name v +:+ "'"))
           end
       end.

Definition dtype_name (t : dtype) : string :=
  match t with
  | Int64 => "int64" | Float64 => "float64" | BoolT => "bool" | ObjectT => "object"
  end.

(** [series op v] for a scalar [v], on the cells of a column of dtype [t].
    A column of numbers is not compared with a text cell by cell: it is
    unequal to it as a whole and cannot be ordered with it. *)
Definition compare_scalar (t : dtype) (op : CmpOp) (xs : list Value) (v : Value)
  : Result (list bool) :=
  match t, v with
  | (Int64 | Float64 | BoolT), VStr _ =>
      match op with
      | EQ => Ok (replicate (length xs) false)
      | NEQ => Ok (replicate (length xs) true)
      | _ => Raise (mkExn TypeError
                      ("Invalid comparison between dtype=" +:+ dtype_name t
                       +:+ " and str"))
      end
  | _, _ => rmap (fun x => compare_cell op x v) xs
  end.

(** The order pandas sorts keys by: numbers by value, then strings by code
    points; the other values (lists, missing) are left unordered among
    themselves. *)
Definition value_compare (a b : Value) : comparison :=
  match as_number a, as_number b with
  | Some p, Some q => (p ?= q)%Q
  | Some _, None => Lt
  | None, Some _ => Gt
  | None, None =>
      match a, b with
      | VStr s, VStr t => String.compare s t
      | VStr _, _ => Lt
      | _, VStr _ => Gt
      | _, _ => Eq
      end
  end.

Definition value_leb (a b : Value) : bool :=
  match value_compare a b with Gt => false | _ => true end.

(** Keys of several columns compare lexicographically. *)
Fixpoint key_compare (k1 k2 : list Value) : comparison :=
  match k1, k2 with
  | [], [] => Eq
  | [], _ :: _ => Lt
  | _ :: _, [] => Gt
  | a :: r1, b :: r2 =>
      match value_compare a b with
      | Eq => key_compare r1 r2
      | c => c
      end
  end.

Definition key_leb (k1 k2 : list Value) : bool :=
  match key_compare k1 k2 with Gt => false | _ => true end.

Definition key_eqb (k1 k2 : list Value) : bool :=
  match key_compare k1 k2 with Eq => true | _ => false end.

(** ** The host: pandas, numpy and [re] behind the calls the engine makes *)

(** [pd.NamedAgg(column, aggfunc)] *)
Record NamedAgg : Type := mkNamedAgg { column : string; aggfunc : string }.

Class Host : Type := {
  (** [float(text)]; [None] is a [ValueError]. *)
  float_of_str : string -> option Q;
  (** [str(x)] of a float. *)
  str_of_float : Q -> string;
  (** [re.compile(pat, re.IGNORECASE)] for a pattern with a special
      character other than the dot, as [Series.str.contains(pat,
      case=False)] compiles it before it looks at a cell: the test
      [search(s) is not None] of the compiled pattern, or [re.error]. *)
  re_compile_nocase : string -> Result (string -> bool);
  (** [series op [v1, ..., vn]]: a comparison with a list literal, which
      numpy first turns into an array. *)
  compare_with_list : CmpOp -> list Value -> list Value -> Result (list bool);
  compare_with_list_length : forall op xs items bs,
    compare_with_list op xs items = Ok bs -> length bs = length xs;
  (** The reductions [sum, mean, min, max, std, median] of one group's
      cells of a column of the given dtype: the result's dtype and value. *)
  reduce : string -> dtype -> list Value -> Result Value;
  reduce_dtype : string -> dtype -> dtype;
  (** What [groupby(...).agg(...)] computes when a result column carries
      the name of one of its own parameters ([func], [engine],
      [engine_kwargs]): the aggregated columns, one cell per group. *)
  agg_reserved : list (string * dtype) -> list (list Row) ->
                 list (string * NamedAgg) ->
                 Result (list (string * dtype) * list (list Value));
  (** [df.agg({key: [f1, f2], ...}).reset_index()] once every key is a
      column of [df]. *)
  frame_agg : DataFrame -> list (string * list string) -> Result DataFrame;
  (** [keys.argsort(kind="quicksort")] on keys none of which is missing:
      the positions of the keys in nondecreasing order.  numpy's
      quicksort promises no order among equal keys. *)
  argsort : list Value -> Result (list nat);
  argsort_perm : forall keys p,
    argsort keys = Ok p -> Permutation p (seq 0 (length keys));
  argsort_sorted : forall keys p i a b x y,
    argsort keys = Ok p ->
    p !! i = Some a -> p !! S i = Some b ->
    keys !! a = Some x -> keys !! b = Some y ->
    value_leb x y = true;
  (** [df.sample(n=n)] ([Some n]) and [df.sample(frac=0.1)] ([None]) with
      the generator in the given state. *)
  sample : nat -> DataFrame -> option Z -> Result DataFrame;
  (** [str(KeyError(Index(diff)))], where [diff] is the set of the labels
      of a [subset] that are no column, for a set that is not one text
      (the order of a set is not fixed). *)
  index_repr : list Value -> string;
  (** [df.nlargest(n, column)] and [df.nsmallest(n, column)]. *)
  nlargest : Z -> string -> DataFrame -> Result DataFrame;
  nsmallest : Z -> string -> DataFrame -> Result DataFrame;
}.

(** ** The store *)

(** A reference to a [DataFrame] object. *)
Definition loc : Type := nat.

(** The objects allocated so far and the state of the random generator. *)
Record World : Type := mkWorld { heap : list DataFrame; rng : nat }.

(** A computation that reads and writes the store and may raise. *)
Definition M (A : Type) : Type := World -> Result A * World.

Definition mret {A} (a : A) : M A := fun w => (Ok a, w).

Definition mbind {A B} (m : M A) (k : A -> M B) : M B :=
  fun w => match m w with
           | (Ok a, w') => k a w'
           | (Raise e, w') => (Raise e, w')
           end.

Definition mraise {A} (e : Exn) : M A := fun w => (Raise e, w).

Definition lift {A} (r : Result A) : M A := fun w => (r, w).

Notation "x <- e ;; k" := (mbind e (fun x => k))
  (at level 100, e at next level, right associativity).

(** [try: body except Exception as e: handler(e)] *)
Definition try_except {A} (body : M A) (handler : Exn -> M A) : M A :=
  fun w => match body w with
           | (Ok a, w') => (Ok a, w')
           | (Raise e, w') => handler e w'
           end.

(** Reading the frame a reference points to. *)
Definition deref (l : loc) : M DataFrame :=
  fun w => match heap w !! l with
           | Some df => (Ok df, w)
           | None => (Raise (mkExn AttributeError "no such object"), w)
           end.

(** A new frame object. *)
Definition new_frame (df : DataFrame) : M loc :=
  fun w => (Ok (length (heap w)), mkWorld (heap w ++ [df]) (rng w)).

(** Overwriting the frame object at [l] in place. *)
Definition update_frame (l : loc) (f : DataFrame -> DataFrame) : M unit :=
  fun w => match heap w !! l with
           | Some df => (Ok tt, mkWorld (<[l := f df]> (heap w)) (rng w))
           | None => (Raise (mkExn AttributeError "no such object"), w)
           end.

(** [df.copy()] *)
Definition df_copy (l : loc) : M loc := df <- deref l ;; new_frame df.

(** One draw from the random generator. *)
Definition next_random : M nat :=
  fun w => (Ok (rng w), mkWorld (heap w) (S (rng w))).

(** [for x in l: body(x)] *)
Fixpoint mfor {A} (l : list A) (body : A -> M unit) : M unit :=
  match l with
  | [] => mret tt
  | x :: r => _ <- body x ;; mfor r body
  end.

(** ** Lexer and argument parser *)

Record Operation : Type := mkOperation {
  op_function : string;
  op_args : list Value;
  op_kwargs : gmap string Value
}.

(** The state of the loop of [_parse_arguments] over the characters. *)
Record Tokenizer : Type := mkTokenizer {
  tokens : list string;
  current_token : string;
  paren_depth : Z
}.

Definition tokenizer_start : Tokenizer := mkTokenizer [] "" 0.

Definition tokenizer_step (st : Tokenizer) (char : ascii) : Tokenizer :=
  let depth :=
    if (char =? "(")%char then paren_depth st + 1
    else if (char =? ")")%char then paren_depth st - 1
    else paren_depth st in
  if (char =? ",")%char && (depth =? 0)
  then mkTokenizer (tokens st ++ [Py.strip (current_token st)]) "" depth
  else mkTokenizer (tokens st) (current_token st +:+ String char "") depth.

Fixpoint tokenizer_run (st : Tokenizer) (arg_string : string) : Tokenizer :=
  match arg_string with
  | EmptyString => st
  | String char r => tokenizer_run (tokenizer_step st char) r
  end.

(** What the loop leaves once the last token is flushed. *)
Definition tokenizer_finish (st : Tokenizer) : list string :=
  if String.eqb (current_token st) "" then tokens st
  else tokens st ++ [Py.strip (current_token st)].

(** The [tokens] of [_parse_arguments]. *)
Definition tokenize (arg_string : string) : list string :=
  tokenizer_finish (tokenizer_run tokenizer_start arg_string).

Section Parser.
Context `{Host}.

(** [_parse_value].  A list literal recurses on its items, each shorter
    than the literal by two characters at least. *)
Fixpoint _parse_value_fuel (fuel : nat) (value : string) : Value :=
  if Py.startswith "'" value && Py.endswith "'" value
  then VStr (Py.slice_to_last 1 value)
  else if Py.startswith dquote value && Py.endswith dquote value
  then VStr (Py.slice_to_last 1 value)
  else
    let number :=
      if Py.contains "." value then VFloat <$> float_of_str value
      else VInt <$> int_of_str value in
    match number with
    | Some v => v
    | None =>
        if String.eqb (Py.lower value) "true" then VBool true
        else if String.eqb (Py.lower value) "false" then VBool false
        else if Py.startswith "(" value && Py.endswith ")" value
        then match fuel with
             | O => VStr value
             | S k =>
                 let items := Py.split "," (Py.slice_to_last 1 value) in
                 VList ((fun item => _parse_value_fuel k (Py.strip item)) <$> items)
             end
        else VStr value
    end.

Definition _parse_value (value : string) : Value :=
  _parse_value_fuel (String.length value) value.

(** The loop of [_parse_arguments] over the tokens. *)
Definition classify_token (acc : list Value * gmap string Value) (token : string)
  : list Value * gmap string Value :=
  let '(args, kwargs) := acc in
  match Py.split1 "=" token with
  | (key, Some value) =>
      (args, <[Py.strip key := _parse_value (Py.strip value)]> kwargs)
  | (_, None) => (args ++ [_parse_value token], kwargs)
  end.

Definition _parse_arguments (arg_string : string)
  : list Value * gmap string Value :=
  if String.eqb arg_string "" then ([], ∅)
  else foldl classify_token ([], ∅) (tokenize arg_string).

Fixpoint take_while (p : ascii -> bool) (s : string) : string :=
  match s with
  | String c r => if p c then String c (take_while p r) else EmptyString
  | EmptyString => EmptyString
  end.

Fixpoint drop_while (p : ascii -> bool) (s : string) : string :=
  match s with
  | String c r => if p c then drop_while p r else s
  | EmptyString => EmptyString
  end.

Definition newline : ascii := "010"%char.

(** The [re.match] of [_parse_query] on a part: one or more word
    characters (group 1), any white space, then any characters but a line
    feed (group 2).  Group 1 is the longest run of word characters at the
    start; [None] when the part does not start with one. *)
Definition match_stage (part : string) : option (string * string) :=
  let name := take_while Py.isword part in
  if String.eqb name "" then None
  else
    let rest := drop_while Py.isspace (drop_while Py.isword part) in
    Some (name, take_while (fun c => negb (c =? newline)%char) rest).

Definition parse_part (part : string) : list Operation :=
  let part := Py.strip part in
  if String.eqb part "" then []
  else match match_stage part with
       | Some (name, rest) =>
           let func_name := Py.lower name in
           let arg_string := Py.strip rest in
           let '(args, kwargs) := _parse_arguments arg_string in
           [mkOperation func_name args kwargs]
       | None => []
       end.

Definition _parse_query (query : string) : list Operation :=
  let query := Py.strip query in
  let parts := Py.split "|" query in
  parts ≫= parse_part.

End Parser.

(** ** pandas operations the stages call *)

Section Pandas.
Context `{Host}.

(** [repr(x)], for integers within the limit of digits. *)
Fixpoint py_repr (v : Value) : string :=
  match v with
  | VNull => "nan"
  | VNone => "None"
  | VBool true => "True"
  | VBool false => "False"
  | VInt z => str_of_int z
  | VFloat q => str_of_float q
  | VStr s => Py.repr s
  | VList items =>
      "[" +:+ Py.join ", " ((fix each (l : list Value) : list string :=
                               match l with
                               | [] => []
                               | x :: r => py_repr x :: each r
                               end) items) +:+ "]"
  end.

(** [str(x)], for integers within the limit of digits: a text is itself,
    anything else is written as [repr] writes it. *)
Definition py_str (v : Value) : string :=
  match v with
  | VStr s => s
  | _ => py_repr v
  end.

(** An integer with more digits than the limit, or a list that holds
    one: [str] and [repr] raise on it. *)
Fixpoint has_long_int (v : Value) : bool :=
  match v with
  | VInt z => max_str_digits <? count_digits z
  | VList items =>
      (fix any (l : list Value) : bool :=
         match l with
         | [] => false
         | x :: r => has_long_int x || any r
         end) items
  | _ => false
  end.

(** [int(x)] *)
Definition py_int (v : Value) : Result Z :=
  match v with
  | VInt z => Ok z
  | VBool b => Ok (if b then 1 else 0)
  | VFloat q => Ok (Z.quot (Qnum q) (Z.pos (Qden q)))
  | VStr s =>
      match int_of_str s with
      | Some z => Ok z
      | None => Raise (int_error s)
      end
  | VNull => Raise (mkExn ValueError "cannot convert float NaN to integer")
  | VNone | VList _ =>
      Raise (mkExn TypeError
               ("int() argument must be a string, a bytes-like object or a real number, not '"
                +:+ type_name v +:+ "'"))
  end.

(** [str(x)] as the engine calls it on a literal, and as [astype(str)]
    calls it on a cell: an integer with more digits than the limit is a
    [ValueError]. *)
Definition str_value (v : Value) : Result string :=
  if has_long_int v
  then Raise (mkExn ValueError
                "Exceeds the limit (4300 digits) for integer string conversion; use sys.set_int_max_str_digits() to increase the limit")
  else Ok (py_str v).

(** [series.astype(str)] *)
Definition astype_str (xs : list Value) : Result (list string) :=
  rmap str_value xs.

(** The characters that are special in a regular expression, the dot
    apart. *)
Definition regex_special (c : ascii) : bool :=
  existsb (Ascii.eqb c)
    [Py.backslash; "^"; "$"; "*"; "+"; "?"; "{"; "}"; "["; "]"; "|"; "("; ")"]%char.

Fixpoint plain_pattern (pat : string) : bool :=
  match pat with
  | EmptyString => true
  | String c r => negb (regex_special c) && plain_pattern r
  end.

(** A pattern of plain characters and dots matches at the start of [s]: a
    dot stands for any character but a line feed, any other character for
    itself in either letter case. *)
Fixpoint match_here (pat s : string) : bool :=
  match pat, s with
  | EmptyString, _ => true
  | String p pat', String c s' =>
      (if (p =? ".")%char then negb (c =? "010")%char
       else (Py.lower_char p =? Py.lower_char c)%char)
      && match_here pat' s'
  | String _ _, EmptyString => false
  end.

(** [re.search(pat, s, re.IGNORECASE) is not None] for such a pattern. *)
Fixpoint search_plain (pat s : string) : bool :=
  match_here pat s
  || match s with
     | String _ r => search_plain pat r
     | EmptyString => false
     end.

(** The test of [Series.str.contains(pat, case=False)]: the pattern is a
    regular expression, compiled once. *)
Definition str_contains (pat : string) : Result (string -> bool) :=
  if plain_pattern pat then Ok (search_plain pat) else re_compile_nocase pat.

(** [v in df.columns]: a list cannot be hashed; a number is no label of a
    string-labelled frame. *)
Definition in_columns (df : DataFrame) (v : Value) : Result bool :=
  match v with
  | VStr name => Ok (has_column df name)
  | VList _ => Raise (mkExn TypeError "unhashable type: 'list'")
  | _ => Ok false
  end.

(** The loop that flattens the positional arguments into [columns]. *)
Definition flatten_args (args : list Value) : list Value :=
  args ≫= (fun arg => match arg with VList items => items | _ => [arg] end).

(** A column label of a string-labelled frame. *)
Definition as_label (df : DataFrame) (v : Value) : Result nat :=
  match v with
  | VStr name =>
      match column_position name (columns df) with
      | Some p => Ok p
      | None => Raise (key_error name)
      end
  | VList _ => Raise (mkExn TypeError "unhashable type: 'list'")
  | _ => Raise (mkExn KeyError (py_str v))
  end.

Definition column_at (df : DataFrame) (p : nat) : string * dtype :=
  nth p (columns df) ("", ObjectT).

(** [df[[c1, ..., cn]]] for column positions. *)
Definition select_columns (df : DataFrame) (ps : list nat) : DataFrame :=
  mkFrame (column_at df <$> ps)
          ((fun r => mkRow (label r) ((fun p => cell p r) <$> ps)) <$> rows df).

(** [df.head(n)] *)
Definition head (n : Z) (df : DataFrame) : DataFrame :=
  let k := if 0 <=? n then Z.to_nat n else (len df - Z.to_nat (- n))%nat in
  mkFrame (columns df) (take k (rows df)).

(** [df.iloc[indexer]] on rows. *)
Definition take_rows (df : DataFrame) (indexer : list nat) : DataFrame :=
  mkFrame (columns df) (omap (fun i => rows df !! i) indexer).

(** *** Boolean masks *)

(** A [Series] with the default [RangeIndex], as [pd.Series([True] * n)]
    builds it: its values, and whether its dtype is [bool] (the empty one
    is born with dtype [object]). *)
Record Mask : Type := mkMask { mask_values : list bool; mask_is_bool : bool }.

(** [pd.Series([True] * n)] *)
Definition all_true (n : nat) : Mask :=
  mkMask (replicate n true) (negb (n =? 0)%nat).

Fixpoint series_get {A} (l : Z) (s : Series A) : option A :=
  match s with
  | [] => None
  | (k, v) :: r => if Z.eqb k l then Some v else series_get l r
  end.

(** [mask &= other].  The operands are aligned on their labels, a label
    that [other] lacks counting as [False], and the result is reindexed
    like [mask]; reindexing fails when [other] repeats a label. *)
Definition mask_iand (mask : Mask) (other : Series bool) : Result Mask :=
  if decide (NoDup other.*1)
  then Ok (mkMask
             (imap (fun i a => a && default false (series_get (Z.of_nat i) other))
                   (mask_values mask))
             true)
  else Raise (mkExn ValueError "cannot reindex on an axis with duplicate labels").

(** [df[mask]].  The mask is reindexed to the frame's index, which fails
    on a label the mask lacks.  A mask that is not of dtype [bool] (the
    empty one nothing was and-ed into) is taken for a list of column
    labels, an empty list. *)
Definition getitem_bool (df : DataFrame) (mask : Mask) : Result DataFrame :=
  if mask_is_bool mask
  then
    flags <-r rmap (fun r =>
                      match (if 0 <=? label r
                             then mask_values mask !! Z.to_nat (label r)
                             else None) with
                      | Some b => Ok b
                      | None => Raise (mkExn IndexingError
                                  "Unalignable boolean Series provided as indexer (index of the boolean Series and of the indexed object do not match).")
                      end) (rows df) ;;
    Ok (mkFrame (columns df) (List.filter snd (zip (rows df) flags)).*1)
  else Ok (mkFrame [] ((fun r => mkRow (label r) []) <$> rows df)).

End Pandas.

(** ** Stage operators *)

(** The operator of a sub-condition of [where]. *)
Inductive Operator : Type :=
| Cmp (op : CmpOp)
| Contains
| StartsWith
| EndsWith.

(** A classified sub-condition: column, operator, literal. *)
Record Predicate : Type := mkPredicate {
  pred_column : string;
  pred_operator : Operator;
  pred_literal : Value
}.

(** The [if]/[elif] chain of [_where]: the operator of a sub-condition and
    the marker the sub-condition is split at; [None] when no branch is
    taken. *)
Definition classify (cond : string) : option (Operator * string) :=
  if Py.contains "=" cond && negb (Py.contains "!=" cond)
     && negb (Py.contains ">=" cond) && negb (Py.contains "<=" cond)
  then Some (Cmp EQ, "=")
  else if Py.contains "!=" cond then Some (Cmp NEQ, "!=")
  else if Py.contains ">=" cond then Some (Cmp GE, ">=")
  else if Py.contains "<=" cond then Some (Cmp LE, "<=")
  else if Py.contains ">" cond then Some (Cmp GT, ">")
  else if Py.contains "<" cond then Some (Cmp LT, "<")
  else if Py.contains "contains" cond then Some (Contains, "contains")
  else if Py.contains "startswith" cond then Some (StartsWith, "startswith")
  else if Py.contains "endswith" cond then Some (EndsWith, "endswith")
  else None.

Section Where.
Context `{Host}.

(** [col, val = cond.split(marker, 1)], stripped and parsed. *)
Definition parse_predicate (cond : string) : option Predicate :=
  match classify cond with
  | Some (o, marker) =>
      match Py.split1 marker cond with
      | (col, Some val) =>
          Some (mkPredicate (Py.strip col) o (_parse_value (Py.strip val)))
      | (_, None) => None
      end
  | None => None
  end.

(** The values of the boolean [Series] a sub-condition evaluates to on
    the cells of its column, of dtype [t]. *)
Definition predicate_values (t : dtype) (o : Operator) (val : Value)
    (xs : list Value) : Result (list bool) :=
  match o with
  | Cmp op =>
      match val with
      | VList items => compare_with_list op xs items
      | _ => compare_scalar t op xs val
      end
  | Contains =>
      texts <-r astype_str xs ;;
      pat <-r str_value val ;;
      found <-r str_contains pat ;;
      Ok (found <$> texts)
  | StartsWith =>
      texts <-r astype_str xs ;;
      pat <-r str_value val ;;
      Ok (Py.startswith pat <$> texts)
  | EndsWith =>
      texts <-r astype_str xs ;;
      pat <-r str_value val ;;
      Ok (Py.endswith pat <$> texts)
  end.

(** The dtype of the first column called [name]. *)
Definition column_dtype (df : DataFrame) (name : string) : dtype :=
  match column_position name (columns df) with
  | Some p => (nth p (columns df) ("", ObjectT)).2
  | None => ObjectT
  end.

(** The boolean [Series] of a predicate on a frame. *)
Definition predicate_series (df : DataFrame) (p : Predicate)
  : Result (Series bool) :=
  s <-r getitem df (pred_column p) ;;
  bs <-r predicate_values (column_dtype df (pred_column p))
                          (pred_operator p) (pred_literal p) s.*2 ;;
  Ok (zip s.*1 bs).

(** One round of the loop over [conditions]. *)
Definition where_step (df : DataFrame) (mask : Mask) (cond : string)
  : Result Mask :=
  let cond := Py.strip cond in
  match parse_predicate cond with
  | Some p => s <-r predicate_series df p ;; mask_iand mask s
  | None => Ok mask
  end.

Fixpoint where_loop (df : DataFrame) (mask : Mask) (conditions : list string)
  : Result Mask :=
  match conditions with
  | [] => Ok mask
  | cond :: rest => mask <-r where_step df mask cond ;; where_loop df mask rest
  end.

(** The sub-conditions of a condition string. *)
Definition where_conditions (condition : string) : list string :=
  let condition := Py.replace "!=" "!=" (Py.replace "==" "=" condition) in
  Py.split "and" condition.

(** [_where] on the frame [df] points to, for a condition string. *)
Definition where_frame (df : DataFrame) (condition : string) : Result DataFrame :=
  let conditions := where_conditions condition in
  mask <-r where_loop df (all_true (len df)) conditions ;;
  getitem_bool df mask.

Definition _where (df : loc) (args : list Value) (kwargs : gmap string Value)
  : M loc :=
  match args with
  | [] => mret df
  | VStr condition :: _ =>
      d <- deref df ;;
      out <- lift (where_frame d condition) ;;
      new_frame out
  | _ :: _ => mret df
  end.

End Where.

(** [d[k] = v] on a dict kept in insertion order. *)
Definition dict_set {V} (k : string) (v : V) (d : list (string * V))
  : list (string * V) :=
  if existsb (fun kv => String.eqb kv.1 k) d
  then (fun kv => if String.eqb kv.1 k then (k, v) else kv) <$> d
  else d ++ [(k, v)].

(** A stable sort: each element goes in front of the first one of the
    sorted rest that it does not exceed. *)
Fixpoint insert_sorted {A} (leb : A -> A -> bool) (x : A) (l : list A) : list A :=
  match l with
  | [] => [x]
  | y :: r => if leb x y then x :: y :: r else y :: insert_sorted leb x r
  end.

Definition stable_sort {A} (leb : A -> A -> bool) (l : list A) : list A :=
  foldr (insert_sorted leb) [] l.

(** The distinct keys, each at its first occurrence. *)
Fixpoint unique_keys (ks : list (list Value)) : list (list Value) :=
  match ks with
  | [] => []
  | k :: r => k :: List.filter (fun k' => negb (key_eqb k' k)) (unique_keys r)
  end.

(** [repr] of a list of strings. *)
Definition repr_names (names : list string) : string :=
  "[" +:+ Py.join ", " (Py.repr <$> names) +:+ "]".

Definition missing_columns_error (names : list string) : Exn :=
  mkExn KeyError
        (Py.repr ("Column(s) " +:+ repr_names (stable_sort String.leb names)
                  +:+ " do not exist")).

Definition is_numeric (t : dtype) : bool :=
  match t with Int64 | Float64 => true | _ => false end.

Section Summarize.
Context `{Host}.

(** The key of a row: its cells in the group-by columns. *)
Definition key_of (ps : list nat) (r : Row) : list Value :=
  (fun p => cell p r) <$> ps.

(** [dropna=True]: a row with a missing key cell joins no group. *)
Definition dropna_rows (ps : list nat) (rs : list Row) : list Row :=
  List.filter (fun r => forallb (fun v => negb (isna v)) (key_of ps r)) rs.

Definition group_rows (ps : list nat) (rs : list Row) (k : list Value) : list Row :=
  List.filter (fun r => key_eqb (key_of ps r) k) rs.

(** The keys of [df.groupby(by)], ascending, once missing keys are
    dropped. *)
Definition group_keys (ps : list nat) (rs : list Row) : list (list Value) :=
  stable_sort key_leb (unique_keys (key_of ps <$> dropna_rows ps rs)).

(** [nunique]: the distinct values that are not missing. *)
Definition nunique (xs : list Value) : Z :=
  Z.of_nat (length (unique_keys ((fun x => [x]) <$> List.filter (fun x => negb (isna x)) xs))).

(** [hash(v)] raises on a list. *)
Definition unhashable : Exn := mkExn TypeError "unhashable type: 'list'".

Definition reserved_names : list string := ["func"; "engine"; "engine_kwargs"].

(** One named aggregation over the groups: the dtype and the cells of the
    result column. *)
Definition agg_column (df : DataFrame) (groups : list (list Row)) (na : NamedAgg)
  : Result (dtype * list Value) :=
  match column_position (column na) (columns df) with
  | None => Raise (missing_columns_error [column na])
  | Some p =>
      let t := (column_at df p).2 in
      if String.eqb (aggfunc na) "size"
      then Ok (Int64, (fun g => VInt (Z.of_nat (length g))) <$> groups)
      else if String.eqb (aggfunc na) "nunique"
      then
        (* the whole source column is hashed before the groups are looked at *)
        if existsb (fun r => is_list (cell p r)) (rows df) then Raise unhashable
        else Ok (Int64, (fun g => VInt (nunique (cell p <$> g))) <$> groups)
      else vs <-r rmap (fun g => reduce (aggfunc na) t (cell p <$> g)) groups ;;
           Ok (reduce_dtype (aggfunc na) t, vs)
  end.

(** [agg] on the groups with the named aggregations of [agg_dict] as its
    keyword arguments: the result columns and, per group, their cells.
    The arguments are checked first; the keys are hashed, all of them,
    when the first aggregation asks for the groups ([list_key] says that
    a key cell is a list). *)
Definition aggregate (df : DataFrame) (list_key : bool) (groups : list (list Row))
    (agg_dict : list (string * NamedAgg))
  : Result (list (string * dtype) * list (list Value)) :=
  if existsb (fun kv => existsb (String.eqb kv.1) reserved_names) agg_dict
  then
    (* whatever [agg] does of such a keyword, it gives no result before
       the keys are hashed *)
    res <-r agg_reserved (columns df) groups agg_dict ;;
    if list_key then Raise unhashable else Ok res
  else match agg_dict with
  | [] => Raise (mkExn TypeError
                   "Must provide 'func' or tuples of '(column, aggfunc).")
  | _ :: _ =>
      match List.filter (fun c => negb (has_column df c)) (column <$> agg_dict.*2) with
      | (_ :: _) as missing => Raise (missing_columns_error missing)
      | [] =>
          if list_key then Raise unhashable
          else
            cols <-r rmap (fun kv => tv <-r agg_column df groups kv.2 ;;
                                     Ok ((kv.1, tv.1), tv.2)) agg_dict ;;
            Ok (cols.*1,
                imap (fun i _ => (fun vs => nth i vs VNull) <$> cols.*2) groups)
      end
  end.

(** [df.groupby(by)], [agg] with the named aggregations as keyword
    arguments, then [reset_index()]. *)
Definition groupby_agg (df : DataFrame) (by_ : list string)
    (agg_dict : list (string * NamedAgg)) : Result DataFrame :=
  ps <-r rmap (fun name =>
                 match column_position name (columns df) with
                 | Some p => Ok p
                 | None => Raise (key_error name)
                 end) by_ ;;
  let kept := dropna_rows ps (rows df) in
  let list_key := existsb (fun r => existsb is_list (key_of ps r)) (rows df) in
  let keys := group_keys ps (rows df) in
  let groups := group_rows ps kept <$> keys in
  agg <-r aggregate df list_key groups agg_dict ;;
  if decide (NoDup (by_ ++ agg.1.*1))
  then Ok (mkFrame ((column_at df <$> ps) ++ agg.1)
                   (imap (fun i kv => mkRow (Z.of_nat i) (kv.1 ++ kv.2))
                         (zip keys agg.2)))
  else Raise (mkExn ValueError "cannot insert a group column, already exists").

(** [df.agg(agg_dict).reset_index()].  The keys of the dict are taken for
    column labels of [df], and each [NamedAgg], a tuple, for the list of
    function names [[column, aggfunc]]. *)
Definition frame_agg_dict (df : DataFrame) (agg_dict : list (string * NamedAgg))
  : Result DataFrame :=
  match List.filter (fun k => negb (has_column df k)) agg_dict.*1 with
  | (_ :: _) as missing => Raise (missing_columns_error missing)
  | [] => frame_agg df ((fun kv => (kv.1, [column kv.2; aggfunc kv.2])) <$> agg_dict)
  end.

(** One round of the loop over the expressions of [agg_expr]. *)
Definition summarize_step (acc : list (string * NamedAgg) * list string)
    (expr : string) : list (string * NamedAgg) * list string :=
  let '(agg_dict, group_by) := acc in
  let expr := Py.strip expr in
  match Py.split1 "=" expr with
  | (result_col, Some func_expr) =>
      let result_col := Py.strip result_col in
      if Py.contains "(" func_expr && Py.contains ")" func_expr
      then
        let func_name := Py.strip (nth 0 (Py.split "(" func_expr) "") in
        let source_col :=
          Py.strip (nth 0 (Py.split ")" (nth 1 (Py.split "(" func_expr) "")) "") in
        if String.eqb func_name "count"
        then (dict_set result_col (mkNamedAgg source_col "size") agg_dict, group_by)
        else if existsb (String.eqb func_name)
                        ["sum"; "mean"; "min"; "max"; "std"; "median"]
        then (dict_set result_col (mkNamedAgg source_col func_name) agg_dict, group_by)
        else if String.eqb func_name "dcount"
        then (dict_set result_col (mkNamedAgg source_col "nunique") agg_dict, group_by)
        else (agg_dict, group_by)
      else (agg_dict, group_by)
  | (_, None) => (agg_dict, group_by ++ [expr])
  end.

Definition parse_agg_expr (agg_expr : string)
  : list (string * NamedAgg) * list string :=
  foldl summarize_step ([], []) (Py.split "," agg_expr).

(** The default when no aggregation is given: the mean of every numeric
    column. *)
Definition default_agg_dict (df : DataFrame) : list (string * NamedAgg) :=
  foldl (fun d col => dict_set col (mkNamedAgg col "mean") d) []
        (List.filter (fun c => is_numeric c.2) (columns df)).*1.

(** [_summarize] on the frame [df] points to, for an expression string. *)
Definition summarize_frame (df : DataFrame) (agg_expr : string) : Result DataFrame :=
  let '(agg_dict, group_by) := parse_agg_expr agg_expr in
  let agg_dict :=
    match agg_dict with [] => default_agg_dict df | _ :: _ => agg_dict end in
  match group_by with
  | _ :: _ => groupby_agg df group_by agg_dict
  | [] => frame_agg_dict df agg_dict
  end.

Definition _summarize (df : loc) (args : list Value) (kwargs : gmap string Value)
  : M loc :=
  match args with
  | [] => mret df
  | VStr agg_expr :: _ =>
      d <- deref df ;;
      out <- lift (summarize_frame d agg_expr) ;;
      new_frame out
  | v :: _ =>
      mraise (mkExn AttributeError
                ("'" +:+ type_name v +:+ "' object has no attribute 'split'"))
  end.

End Summarize.

(** *** Sorting *)

(** The order of one sort column: missing values last, the others
    ascending or descending. *)
Definition sort_cell_compare (ascending : bool) (a b : Value) : comparison :=
  match isna a, isna b with
  | true, true => Eq
  | true, false => Gt
  | false, true => Lt
  | false, false => if ascending then value_compare a b else value_compare b a
  end.

Fixpoint sort_key_compare (ascending : bool) (k1 k2 : list Value) : comparison :=
  match k1, k2 with
  | [], [] => Eq
  | [], _ :: _ => Lt
  | _ :: _, [] => Gt
  | a :: r1, b :: r2 =>
      match sort_cell_compare ascending a b with
      | Eq => sort_key_compare ascending r1 r2
      | c => c
      end
  end.

Definition sort_key_leb (ascending : bool) (k1 k2 : list Value) : bool :=
  match sort_key_compare ascending k1 k2 with Gt => false | _ => true end.

Section Sort.
Context `{Host}.

(** [nargsort(keys, kind="quicksort", ascending, na_position="last")]:
    the missing keys are set aside, the others sorted by numpy (reversed
    before and after for a descending sort), the missing ones appended. *)
Definition nargsort (keys : list Value) (ascending : bool) : Result (list nat) :=
  let idx := seq 0 (length keys) in
  let missing := fun i => isna (nth i keys VNull) in
  let non_nan_idx := List.filter (fun i => negb (missing i)) idx in
  let nan_idx := List.filter missing idx in
  let non_nan_idx := if ascending then non_nan_idx else reverse non_nan_idx in
  let non_nans := (fun i => nth i keys VNull) <$> non_nan_idx in
  p <-r argsort non_nans ;;
  let indexer := (fun j => nth j non_nan_idx O) <$> p in
  let indexer := if ascending then indexer else reverse indexer in
  Ok (indexer ++ nan_idx).

(** [lexsort_indexer] on the rows: each key column is made a
    [Categorical], its values hashed and put in order, the numbers before
    the texts; then a stable sort on the codes of the columns. *)
Definition lexsort_rows (ps : list nat) (ascending : bool) (rs : list Row)
  : Result (list Row) :=
  if existsb (fun r => existsb is_list (key_of ps r)) rs
  then Raise unhashable
  else Ok (stable_sort
             (fun r1 r2 => sort_key_leb ascending (key_of ps r1) (key_of ps r2)) rs).

(** [df.sort_values(by=by, ascending=ascending)] *)
Definition sort_values (df : DataFrame) (by_ : list Value) (ascending : bool)
  : Result DataFrame :=
  ps <-r rmap (as_label df) by_ ;;
  match ps with
  | [] => Ok df
  | [p] =>
      indexer <-r nargsort (cell p <$> rows df) ascending ;;
      Ok (take_rows df indexer)
  | _ :: _ :: _ =>
      rs <-r lexsort_rows ps ascending (rows df) ;;
      Ok (mkFrame (columns df) rs)
  end.

Fixpoint monotonic_increasing (l : list Z) : bool :=
  match l with
  | a :: (b :: _) as r => (a <=? b) && monotonic_increasing r
  | _ => true
  end.

(** [df.sort_index()] *)
Definition sort_index (df : DataFrame) : Result DataFrame :=
  if monotonic_increasing (index df) then Ok df
  else indexer <-r nargsort (VInt <$> index df) true ;;
       Ok (take_rows df indexer).

(** [_sort] on the frame [df] points to; [args] is not empty. *)
Definition sort_frame (df : DataFrame) (args : list Value)
    (kwargs : gmap string Value) : Result DataFrame :=
  let order := default (VStr "asc") (kwargs !! "order") in
  let columns := flatten_args args in
  match order with
  | VStr order =>
      let ascending := negb (String.eqb (Py.lower order) "desc") in
      sort_values df columns ascending
  | v => Raise (mkExn AttributeError
                  ("'" +:+ type_name v +:+ "' object has no attribute 'lower'"))
  end.

Definition _sort (df : loc) (args : list Value) (kwargs : gmap string Value)
  : M loc :=
  match args with
  | [] =>
      d <- deref df ;;
      out <- lift (sort_index d) ;;
      new_frame out
  | _ :: _ =>
      d <- deref df ;;
      out <- lift (sort_frame d args kwargs) ;;
      new_frame out
  end.

End Sort.

(** *** Arithmetic of [extend] *)

(** A signed 64-bit integer, as an [int64] array holds it. *)
Definition wrap64 (z : Z) : Z := (z + 2 ^ 63) mod 2 ^ 64 - 2 ^ 63.

Definition as_int (v : Value) : option Z :=
  match v with
  | VBool b => Some (if b then 1 else 0)
  | VInt z => Some z
  | _ => None
  end.

Fixpoint repeat_str (n : nat) (s : string) : string :=
  match n with O => "" | S k => s +:+ repeat_str k s end.

(** [a + b] on Python objects; a missing operand gives a missing result. *)
Definition add_cell (a b : Value) : Result Value :=
  if isna a || isna b then Ok VNull
  else match as_int a, as_int b, as_number a, as_number b, a, b with
       | Some x, Some y, _, _, _, _ => Ok (VInt (x + y))
       | _, _, Some x, Some y, _, _ => Ok (VFloat (Qred (x + y)))
       | _, _, _, _, VStr s, VStr t => Ok (VStr (s +:+ t))
       | _, _, _, _, VList l, VList m => Ok (VList (l ++ m))
       | _, _, _, _, _, _ =>
           Raise (mkExn TypeError
                    ("unsupported operand type(s) for +: '" +:+ type_name a
                     +:+ "' and '" +:+ type_name b +:+ "'"))
       end.

(** [a * b] on Python objects: numbers multiply, a string or a list is
    repeated by an integer. *)
Definition mul_cell (a b : Value) : Result Value :=
  if isna a || isna b then Ok VNull
  else match as_int a, as_int b, as_number a, as_number b, a, b with
       | Some x, Some y, _, _, _, _ => Ok (VInt (x * y))
       | _, _, Some x, Some y, _, _ => Ok (VFloat (Qred (x * y)))
       | Some n, _, _, _, _, VStr s | _, Some n, _, _, VStr s, _ =>
           Ok (VStr (repeat_str (Z.to_nat n) s))
       | Some n, _, _, _, _, VList l | _, Some n, _, _, VList l, _ =>
           Ok (VList (mjoin (replicate (Z.to_nat n) l)))
       | _, _, _, _, _, _ =>
           Raise (mkExn TypeError
                    ("can't multiply sequence by non-int of type '"
                     +:+ type_name b +:+ "'"))
       end.

(** The dtype of the result of an arithmetic operation on two columns. *)
Definition promote (t1 t2 : dtype) : dtype :=
  match t1, t2 with
  | ObjectT, _ | _, ObjectT => ObjectT
  | Float64, _ | _, Float64 => Float64
  | _, _ => Int64
  end.

(** An [int64] result wraps around. *)
Definition fit (t : dtype) (v : Value) : Value :=
  match t, v with
  | Int64, VInt z => VInt (wrap64 z)
  | _, _ => v
  end.

(** The accumulator of [sum(...)] and of [product *= ...]: the Python
    integer it starts as, or a column. *)
Inductive Accumulator : Type :=
| AScalar (z : Z)
| AColumn (t : dtype) (xs : list Value).

Definition accumulate (f : Value -> Value -> Result Value) (acc : Accumulator)
    (col : dtype * list Value) : Result Accumulator :=
  match acc with
  | AScalar z =>
      let t := promote Int64 col.1 in
      xs <-r rmap (fun x => v <-r f (VInt z) x ;; Ok (fit t v)) col.2 ;;
      Ok (AColumn t xs)
  | AColumn t1 xs1 =>
      let t := promote t1 col.1 in
      xs <-r rmap (fun xy => v <-r f xy.1 xy.2 ;; Ok (fit t v)) (zip xs1 col.2) ;;
      Ok (AColumn t xs)
  end.

(** [result[name] = column]: an existing column is overwritten in place,
    a new one is appended. *)
Definition setitem (name : string) (col : dtype * list Value) (df : DataFrame)
  : DataFrame :=
  match column_position name (columns df) with
  | Some p =>
      mkFrame (<[p := (name, col.1)]> (columns df))
              (zip_with (fun r v => mkRow (label r) (<[p := v]> (cells r)))
                        (rows df) col.2)
  | None =>
      mkFrame (columns df ++ [(name, col.1)])
              (zip_with (fun r v => mkRow (label r) (cells r ++ [v]))
                        (rows df) col.2)
  end.

(** The column [df[name]] with its dtype. *)
Definition column_of (df : DataFrame) (name : string)
  : Result (dtype * list Value) :=
  match column_position name (columns df) with
  | Some p => Ok ((column_at df p).2, cell p <$> rows df)
  | None => Raise (key_error name)
  end.

Section Extend.
Context `{Host}.

(** The value a scalar or a column takes as a column of [df]. *)
Definition broadcast (df : DataFrame) (acc : Accumulator) : dtype * list Value :=
  match acc with
  | AScalar z => (Int64, replicate (len df) (VInt z))
  | AColumn t xs => (t, xs)
  end.

(** The operands of a sum or product: the parts that name a column. *)
Definition operands (df : DataFrame) (parts : list string) : list string :=
  List.filter (has_column df) (Py.strip <$> parts).

Fixpoint fold_columns (f : Value -> Value -> Result Value) (df : DataFrame)
    (acc : Accumulator) (names : list string) : Result Accumulator :=
  match names with
  | [] => Ok acc
  | p :: rest =>
      col <-r column_of df p ;;
      acc <-r accumulate f acc col ;;
      fold_columns f df acc rest
  end.

(** The body of the [try] of [_extend]: the column to assign, [None] when
    the expression has none of the four forms. *)
Definition eval_expression (df : DataFrame) (expression : string)
  : Result (option (dtype * list Value)) :=
  if Py.startswith "tolower(" expression
  then
    let inner := Py.slice_to_last 8 expression in
    col <-r column_of df inner ;;
    texts <-r astype_str col.2 ;;
    Ok (Some (ObjectT, (fun x => VStr (Py.lower x)) <$> texts))
  else if Py.startswith "toupper(" expression
  then
    let inner := Py.slice_to_last 8 expression in
    col <-r column_of df inner ;;
    texts <-r astype_str col.2 ;;
    Ok (Some (ObjectT, (fun x => VStr (Py.upper x)) <$> texts))
  else if Py.contains "+" expression
  then
    let parts := Py.split "+" expression in
    acc <-r fold_columns add_cell df (AScalar 0) (operands df parts) ;;
    Ok (Some (broadcast df acc))
  else if Py.contains "*" expression
  then
    let parts := Py.split "*" expression in
    acc <-r fold_columns mul_cell df (AScalar 1) (operands df parts) ;;
    Ok (Some (broadcast df acc))
  else Ok None.

(** One round of the loop of [_extend].  The expression reads [df]; the
    assignment writes the object [result] points to. *)
Definition extend_step (df result : loc) (arg : Value) : M unit :=
  match arg with
  | VStr arg =>
      match Py.split1 "=" arg with
      | (col_name, Some expression) =>
          let col_name := Py.strip col_name in
          let expression := Py.strip expression in
          try_except
            (d <- deref df ;;
             col <- lift (eval_expression d expression) ;;
             match col with
             | Some col => update_frame result (setitem col_name col)
             | None => mret tt
             end)
            (fun _ => mret tt)
      | (_, None) => mret tt
      end
  | _ => mret tt
  end.

Definition _extend (df : loc) (args : list Value) (kwargs : gmap string Value)
  : M loc :=
  result <- df_copy df ;;
  _ <- mfor args (extend_step df result) ;;
  mret result.

End Extend.

(** *** The other stages *)

(** [a == b] on Python objects: numbers by value, texts and lists item by
    item.  A NaN equals nothing, itself included (the NaN of a list is
    taken to be an object of its own). *)
Fixpoint py_eqb (a b : Value) {struct a} : bool :=
  match a, b with
  | VNone, VNone => true
  | VStr s, VStr t => String.eqb s t
  | VList l, VList m =>
      (fix items (l m : list Value) : bool :=
         match l, m with
         | [], [] => true
         | x :: l', y :: m' => py_eqb x y && items l' m'
         | _, _ => false
         end) l m
  | _, _ =>
      match as_number a, as_number b with
      | Some p, Some q => Qeq_bool p q
      | _, _ => false
      end
  end.

(** Two cells are one key of the hash table [Series.duplicated] fills:
    equal objects, or NaN both.  A list has no hash; the table takes it
    all the same and compares it with [==]. *)
Definition same_object (a b : Value) : bool :=
  match a, b with
  | VNull, VNull => true
  | _, _ => py_eqb a b
  end.

(** Two cells get one code from [factorize]: missing both, or equal
    objects. *)
Definition same_code (a b : Value) : bool :=
  if isna a || isna b then isna a && isna b else py_eqb a b.

Fixpoint same_key (same : Value -> Value -> bool) (k1 k2 : list Value) : bool :=
  match k1, k2 with
  | [], [] => true
  | a :: r1, b :: r2 => same a b && same_key same r1 r2
  | _, _ => false
  end.

(** The rows [duplicated] does not mark: a row whose key was seen is
    dropped. *)
Fixpoint drop_duplicate_rows (same : Value -> Value -> bool) (ps : list nat)
    (seen : list (list Value)) (rs : list Row) : list Row :=
  match rs with
  | [] => []
  | r :: rest =>
      if existsb (same_key same (key_of ps r)) seen
      then drop_duplicate_rows same ps seen rest
      else r :: drop_duplicate_rows same ps (seen ++ [key_of ps r]) rest
  end.

(** [label in df.columns] for a label that can be hashed. *)
Definition is_column (df : DataFrame) (v : Value) : bool :=
  match v with
  | VStr name => has_column df name
  | _ => false
  end.

(** The positions of the columns whose name is one of [subset]. *)
Definition subset_positions (df : DataFrame) (subset : list Value) : list nat :=
  List.filter (fun p => existsb (fun v => match v with
                                          | VStr name => String.eqb name (column_at df p).1
                                          | _ => false
                                          end) subset)
              (seq 0 (length (columns df))).

(** [df.explode(column)]: a list cell becomes one row per item (one row
    with a missing cell when it is empty), the label repeated. *)
Definition explode (df : DataFrame) (p : nat) : Result DataFrame :=
  if decide (NoDup (column_names df))
  then Ok (mkFrame
             (<[p := ((column_at df p).1, ObjectT)]> (columns df))
             (rows df ≫= fun r =>
                match cell p r with
                | VList [] => [mkRow (label r) (<[p := VNull]> (cells r))]
                | VList items =>
                    (fun v => mkRow (label r) (<[p := v]> (cells r))) <$> items
                | _ => [r]
                end))
  else Raise (mkExn ValueError "DataFrame columns must be unique").

Section Stages.
Context `{Host}.

Definition _project (df : loc) (args : list Value) (kwargs : gmap string Value)
  : M loc :=
  match args with
  | [] => mret df
  | _ :: _ =>
      let columns := flatten_args args in
      d <- deref df ;;
      present <- lift (rmap (fun col => b <-r in_columns d col ;; Ok (col, b)) columns) ;;
      let existing_cols := (List.filter snd present).*1 in
      match existing_cols with
      | _ :: _ =>
          ps <- lift (rmap (as_label d) existing_cols) ;;
          new_frame (select_columns d ps)
      | [] => mret df
      end
  end.

Definition _take (df : loc) (args : list Value) (kwargs : gmap string Value)
  : M loc :=
  match args with
  | a :: _ =>
      n <- lift (py_int a) ;;
      d <- deref df ;;
      new_frame (head n d)
  | [] => mret df
  end.

Definition _count (df : loc) (args : list Value) (kwargs : gmap string Value)
  : M loc :=
  d <- deref df ;;
  new_frame (mkFrame [("count", Int64)] [mkRow 0 [VInt (Z.of_nat (len d))]]).

(** [str(KeyError(Index(diff)))] for the labels of [subset] that are no
    column. *)
Definition missing_labels_repr (missing : list Value) : string :=
  match missing with
  | VStr name :: rest =>
      if forallb (fun v => match v with
                           | VStr other => String.eqb other name
                           | _ => false
                           end) rest
      then "Index([" +:+ Py.repr name +:+ "], dtype='object')"
      else index_repr missing
  | _ => index_repr missing
  end.

(** [df.drop_duplicates(subset)]; [None] is the default of [subset], all
    columns.  A frame without rows or without columns is copied before
    [subset] is looked at.  One compared column, in a frame whose column
    names are unique, goes through [Series.duplicated]; otherwise every
    compared column is hashed by [factorize] and the codes are compared. *)
Definition drop_duplicates (df : DataFrame) (subset : option (list Value))
  : Result DataFrame :=
  if (len df =? 0)%nat || (length (columns df) =? 0)%nat then Ok df
  else
    let subset := default (VStr <$> column_names df) subset in
    if existsb is_list subset then Raise unhashable
    else
      match List.filter (fun v => negb (is_column df v)) subset with
      | (_ :: _) as missing => Raise (mkExn KeyError (missing_labels_repr missing))
      | [] =>
          let ps := subset_positions df subset in
          if (length subset =? 1)%nat && bool_decide (NoDup (column_names df))
          then Ok (mkFrame (columns df)
                           (drop_duplicate_rows same_object ps [] (rows df)))
          else if (length subset =? 0)%nat
          then Raise (mkExn ValueError "not enough values to unpack (expected 2, got 0)")
          else if existsb (fun r => existsb is_list (key_of ps r)) (rows df)
          then Raise unhashable
          else Ok (mkFrame (columns df)
                           (drop_duplicate_rows same_code ps [] (rows df)))
      end.

Definition _distinct (df : loc) (args : list Value) (kwargs : gmap string Value)
  : M loc :=
  d <- deref df ;;
  match args with
  | _ :: _ =>
      let columns := flatten_args args in
      out <- lift (drop_duplicates d (Some columns)) ;;
      new_frame out
  | [] =>
      out <- lift (drop_duplicates d None) ;;
      new_frame out
  end.

Definition _sample (df : loc) (args : list Value) (kwargs : gmap string Value)
  : M loc :=
  d <- deref df ;;
  match args with
  | a :: _ =>
      n <- lift (py_int a) ;;
      seed <- next_random ;;
      out <- lift (sample seed d (Some (Z.min n (Z.of_nat (len d))))) ;;
      new_frame out
  | [] =>
      seed <- next_random ;;
      out <- lift (sample seed d None) ;;
      new_frame out
  end.

Definition _top (df : loc) (args : list Value) (kwargs : gmap string Value)
  : M loc :=
  d <- deref df ;;
  match args with
  | a :: column :: _ =>
      n <- lift (py_int a) ;;
      let by_ := default (VStr "desc") (kwargs !! "by") in
      present <- lift (in_columns d column) ;;
      match present, column with
      | true, VStr column =>
          match by_ with
          | VStr by_ =>
              let ascending := negb (String.eqb (Py.lower by_) "desc") in
              out <- lift (if ascending then nsmallest n column d
                           else nlargest n column d) ;;
              new_frame out
          | v => mraise (mkExn AttributeError
                           ("'" +:+ type_name v +:+ "' object has no attribute 'lower'"))
          end
      | _, _ => new_frame (head 10 d)
      end
  | _ => new_frame (head 10 d)
  end.

Definition _make_list (df : loc) (args : list Value) (kwargs : gmap string Value)
  : M loc :=
  match args with
  | column :: _ =>
      d <- deref df ;;
      present <- lift (in_columns d column) ;;
      match present, column with
      | true, VStr column =>
          col <- lift (column_of d column) ;;
          new_frame (mkFrame [(column +:+ "_list", ObjectT)]
                             [mkRow 0 [VList col.2]])
      | _, _ => mret df
      end
  | [] => mret df
  end.

Definition _mv_expand (df : loc) (args : list Value) (kwargs : gmap string Value)
  : M loc :=
  match args with
  | column :: _ =>
      d <- deref df ;;
      present <- lift (in_columns d column) ;;
      match present, column with
      | true, VStr column =>
          p <- lift (as_label d (VStr column)) ;;
          if existsb (fun r => is_list (cell p r)) (rows d)
          then out <- lift (explode d p) ;; new_frame out
          else mret df
      | _, _ => mret df
      end
  | [] => mret df
  end.

Definition _join (df : loc) (args : list Value) (kwargs : gmap string Value)
  : M loc := mret df.

Definition _union (df : loc) (args : list Value) (kwargs : gmap string Value)
  : M loc := mret df.

(** ** The engine *)

Definition Stage : Type := loc -> list Value -> gmap string Value -> M loc.

Record KQLEngine : Type := mkEngine { self_df : loc; table_name : string }.

(** [__init__]: the engine keeps a copy of the frame it is given. *)
Definition __init__ (df : loc) (table_name : string) : M KQLEngine :=
  copy <- df_copy df ;;
  mret (mkEngine copy table_name).

Definition _initialize_functions : list (string * Stage) :=
  [ ("where", _where); ("summarize", _summarize); ("project", _project);
    ("extend", _extend); ("sort", _sort); ("take", _take);
    ("count", _count); ("distinct", _distinct); ("join", _join);
    ("union", _union); ("sample", _sample); ("top", _top);
    ("make_list", _make_list); ("mv_expand", _mv_expand) ].

(** [self.functions[func_name]] *)
Fixpoint lookup_function (func_name : string) (functions : list (string * Stage))
  : option Stage :=
  match functions with
  | [] => None
  | (name, f) :: rest =>
      if String.eqb name func_name then Some f else lookup_function func_name rest
  end.

(** The name of a method of the engine, as Python writes it in the error
    of a call. *)
Class Method (f : Stage) : Type := method_name : string.

#[global] Instance _where_method : Method _where := "_where".
#[global] Instance _summarize_method : Method _summarize := "_summarize".
#[global] Instance _project_method : Method _project := "_project".
#[global] Instance _extend_method : Method _extend := "_extend".
#[global] Instance _sort_method : Method _sort := "_sort".
#[global] Instance _take_method : Method _take := "_take".
#[global] Instance _count_method : Method _count := "_count".
#[global] Instance _distinct_method : Method _distinct := "_distinct".
#[global] Instance _join_method : Method _join := "_join".
#[global] Instance _union_method : Method _union := "_union".
#[global] Instance _sample_method : Method _sample := "_sample".
#[global] Instance _top_method : Method _top := "_top".
#[global] Instance _make_list_method : Method _make_list := "_make_list".
#[global] Instance _mv_expand_method : Method _mv_expand := "_mv_expand".

(** The call of a stage with the positional and the named arguments
    unpacked: a named argument called like a parameter of the method is a
    [TypeError]. *)
Definition call (f : Stage) {name : Method f} (result : loc) (args : list Value)
    (kwargs : gmap string Value) : M loc :=
  let multiple (parameter : string) :=
    mkExn TypeError ("KQLEngine." +:+ name
                     +:+ "() got multiple values for argument '" +:+ parameter +:+ "'") in
  match kwargs !! "self", kwargs !! "df" with
  | Some _, _ => mraise (multiple "self")
  | None, Some _ => mraise (multiple "df")
  | None, None => f result args kwargs
  end.

(** The loop of [execute_query] over the operations. *)
Fixpoint run_operations (operations : list Operation) (result : loc) : M loc :=
  match operations with
  | [] => mret result
  | operation :: rest =>
      let func_name := op_function operation in
      match lookup_function func_name _initialize_functions with
      | Some f =>
          (* the method under the key [k] is [self._k] *)
          result <- call f (name := "_" +:+ func_name)
                         result (op_args operation) (op_kwargs operation) ;;
          run_operations rest result
      | None => mraise (mkExn ValueError ("Unknown function: " +:+ func_name))
      end
  end.

Definition execute_query (self : KQLEngine) (query : string) : M loc :=
  try_except
    (let operations := _parse_query query in
     result <- df_copy (self_df self) ;;
     run_operations operations result)
    (fun e => mraise (mkExn ValueError ("Query execution error: " +:+ exn_str e))).

End Stages.

(** An entry of [get_query_examples]. *)
Record QueryExample : Type := mkQueryExample {
  example_name : string;
  example_query : string;
  example_description : string
}.

(** [get_query_examples]: the seven sample queries, each written for the
    engine's table name. *)
Definition get_query_examples (self : KQLEngine) : list QueryExample :=
  [ mkQueryExample "Filter data"
      (table_name self +:+ " | where column_name > 100")
      "Filter rows where column_name is greater than 100";
    mkQueryExample "Summarize data"
      (table_name self
       +:+ " | summarize avg_value=avg(numeric_column) by category_column")
      "Calculate average of numeric_column grouped by category_column";
    mkQueryExample "Select columns"
      (table_name self +:+ " | project column1, column2, column3")
      "Select specific columns";
    mkQueryExample "Sort data"
      (table_name self +:+ " | sort by timestamp desc")
      "Sort by timestamp in descending order";
    mkQueryExample "Top records"
      (table_name self +:+ " | top 10 by value desc")
      "Get top 10 records by value";
    mkQueryExample "Count distinct"
      (table_name self +:+ " | distinct user_id | count")
      "Count distinct user IDs";
    mkQueryExample "Multiple operations"
      (table_name self +:+ " | where status == " +:+ dquote +:+ "success"
       +:+ dquote +:+ " | summarize count() by date")
      "Count successful events by date" ].

(** ** What the claims speak of *)

(** The net parenthesis depth of a text: openings minus closings. *)
Fixpoint net_depth (s : string) : Z :=
  match s with
  | EmptyString => 0
  | String c r =>
      (if (c =? "(")%char then 1 else if (c =? ")")%char then -1 else 0)
      + net_depth r
  end.

(** The quote a reader of literals would be inside of after [s]: a quote
    character opens a literal, the same character closes it. *)
Fixpoint quote_state (q : option ascii) (s : string) : option ascii :=
  match s with
  | EmptyString => q
  | String c r =>
      match q with
      | None =>
          if (c =? "'")%char || (c =? "034")%char then quote_state (Some c) r
          else quote_state None r
      | Some o =>
          if (c =? o)%char then quote_state None r else quote_state q r
      end
  end.

Definition in_quote (s : string) : bool :=
  match quote_state None s with Some _ => true | None => false end.

Section WhereSpec.
Context `{Host}.

(** The predicates of a condition string: its sub-conditions that
    [_where] classifies. *)
Definition where_predicates (condition : string) : list Predicate :=
  omap (fun cond => parse_predicate (Py.strip cond)) (where_conditions condition).



End WhereSpec.


(** The positions of the columns [_sort] sorts on. *)
Definition sort_positions `{Host} (df : DataFrame) (args : list Value)
  : Result (list nat) :=
  rmap (as_label df) (flatten_args args).

(** The direction of [_sort]: descending when [order] is [desc] in any
    letter case. *)
Definition sort_ascending (kwargs : gmap string Value) : bool :=
  match kwargs !! "order" with
  | Some (VStr order) => negb (String.eqb (Py.lower order) "desc")
  | _ => true
  end.

(** Two keys tie in the order of a sort. *)
Definition key_ties (ascending : bool) (k1 k2 : list Value) : bool :=
  sort_key_leb ascending k1 k2 && sort_key_leb ascending k2 k1.

(** An argument [name=expression] of [extend] whose evaluation fails on
    the frame: the expression raises, or has none of the four forms. *)
Definition extend_fails `{Host} (df : DataFrame) (arg : Value) : bool :=
  match arg with
  | VStr arg =>
      match Py.split1 "=" arg with
      | (_, Some expression) =>
          match eval_expression df (Py.strip expression) with
          | Ok (Some _) => false
          | _ => true
          end
      | (_, None) => false
      end
  | _ => false
  end.

(** The keywords of the registry. *)
Definition stage_keywords : list string :=
  ["where"; "summarize"; "project"; "extend"; "sort"; "take"; "count";
   "distinct"; "join"; "union"; "sample"; "top"; "make_list"; "mv_expand"].

(** The positions of group-by columns. *)
Definition group_positions (df : DataFrame) (group_by : list string)
  : Result (list nat) :=
  rmap (fun name =>
          match column_position name (columns df) with
          | Some p => Ok p
          | None => Raise (key_error name)
          end) group_by.

(** The table without the rows that have a missing value in a group-by
    column. *)
Definition without_null_keys (df : DataFrame) (group_by : list string) : DataFrame :=
  match group_positions df group_by with
  | Ok ps => mkFrame (columns df) (dropna_rows ps (rows df))
  | Raise _ => df
  end.


(** Replacing each [==] by [=], written by recursion on the text. *)
Fixpoint rewrite_eqeq (s : string) : string :=
  match s with
  | String "=" (String "=" r) => String "=" (rewrite_eqeq r)
  | String c r => String c (rewrite_eqeq r)
  | EmptyString => EmptyString
  end.

(** *** The predicates of [where], as the specification words them *)







Section WherePredicates.
Context `{Host}.






End WherePredicates.

(** * Definitions the proofs and the examples use *)

(** A three-way comparison that orders its type totally, up to the keys
    it calls equal. *)
Record Ordering {A} (cmp : A -> A -> comparison) : Prop := {
  cmp_antisym : forall a b, cmp b a = CompOpp (cmp a b);
  cmp_eq_cong : forall a b c, cmp a b = Eq -> cmp a c = cmp b c;
  cmp_lt_trans : forall a b c, cmp a b = Lt -> cmp b c = Lt -> cmp a c = Lt
}.

Definition leb_of {A} (cmp : A -> A -> comparison) (a b : A) : bool :=
  match cmp a b with Gt => false | _ => true end.

(** The lexicographic lift of a comparison to lists. *)
Fixpoint lex_compare {A} (cmp : A -> A -> comparison) (k1 k2 : list A) : comparison :=
  match k1, k2 with
  | [], [] => Eq
  | [], _ :: _ => Lt
  | _ :: _, [] => Gt
  | a :: r1, b :: r2 =>
      match cmp a b with
      | Eq => lex_compare cmp r1 r2
      | c => c
      end
  end.

(** The flag the and-ed series give the label [l]. *)
Definition label_flag (labels : list Z) (series : list (list bool)) (l : Z) : bool :=
  forallb (fun bs => default false (series_get l (zip labels bs))) series.

(** A computation that leaves the objects it finds as they are: the heap
    it returns starts with the heap it was given. *)
Definition frame_ok {A} (m : M A) : Prop :=
  forall w res w', m w = (res, w') -> heap w `prefix_of` heap w'.

(** [s.rstrip()] by recursion on the text: a character stays when a
    character that is no white space follows it, or when it is none
    itself. *)
Fixpoint rstrip_rec (s : string) : string :=
  match s with
  | EmptyString => EmptyString
  | String c r =>
      match rstrip_rec r with
      | EmptyString => if Py.isspace c then EmptyString else String c EmptyString
      | r' => String c r'
      end
  end.

(** [s.split(c)] for a one-character separator, by recursion on the text:
    the first part and the parts after it. *)
Fixpoint split_char (c : ascii) (s : string) : string * list string :=
  match s with
  | EmptyString => (EmptyString, [])
  | String x r =>
      let '(h, t) := split_char c r in
      if Ascii.eqb x c then (EmptyString, h :: t) else (String x h, t)
  end.

Definition split_parts (c : ascii) (s : string) : list string :=
  (split_char c s).1 :: (split_char c s).2.

(** Every character of the text satisfies [p]. *)
Fixpoint all_chars (p : ascii -> bool) (s : string) : bool :=
  match s with
  | EmptyString => true
  | String c r => p c && all_chars p r
  end.

(** No comma of the text is met at parenthesis depth 0, [d] being the
    depth before the text. *)
Fixpoint commas_nested (d : Z) (s : string) : bool :=
  match s with
  | EmptyString => true
  | String c r =>
      let d' := if (c =? "(")%char then d + 1
                else if (c =? ")")%char then d - 1 else d in
      negb ((c =? ",")%char && (d' =? 0)) && commas_nested d' r
  end.

(** A character of the decimal text of an integer. *)
Definition decimal_char (c : ascii) : bool := Py.isdigit c || (c =? "-")%char.

(** A computation that returns the reference [df] it was given, or a
    reference to an object it has made. *)
Definition returns_ref (df : loc) (m : M loc) : Prop :=
  forall w r w', m w = (Ok r, w') ->
    r = df \/ (length (heap w) <= r < length (heap w'))%nat.

(** The labels [_distinct] hands to [drop_duplicates]: those of its
    arguments, the names of all columns when it has none. *)
Definition distinct_subset (df : DataFrame) (args : list Value) : list Value :=
  match args with
  | [] => VStr <$> column_names df
  | _ :: _ => flatten_args args
  end.

(** The positions of the columns [_distinct] compares rows on. *)
Definition distinct_positions (df : DataFrame) (args : list Value) : list nat :=
  subset_positions df (distinct_subset df args).

(** When two cells are the same for [_distinct]: as [Series.duplicated]
    has it when one column is compared and the column names are unique,
    as [factorize] has it otherwise. *)
Definition distinct_same (df : DataFrame) (args : list Value)
  : Value -> Value -> bool :=
  if (length (distinct_subset df args) =? 1)%nat
     && bool_decide (NoDup (column_names df))
  then same_object else same_code.

(** ** A host and tables to run examples on *)

(** *** numpy's quicksort

    [npy_aquicksort], the indirect quicksort numpy runs on an array of
    Python objects: a median of three as pivot, the larger part put on a
    stack, parts of at most 17 entries sorted by insertion, and a heapsort
    for a part that is reached after too many partitions.  The array
    [tosort] of positions is a list; [pl] and [pr] are indices into it. *)

Section Quicksort.

(** [lt i j]: the key at position [i] is less than the key at [j]. *)
Variable lt : nat -> nat -> bool.

Definition entry (a : list nat) (i : nat) : nat := nth i a 0%nat.

Definition swap (i j : nat) (a : list nat) : list nat :=
  <[i := entry a j]> (<[j := entry a i]> a).

(** The entries at [i] and [j] are swapped when the key of the first is
    less than the key of the second. *)
Definition swap_if_less (i j : nat) (a : list nat) : list nat :=
  if lt (entry a i) (entry a j) then swap i j a else a.

(** The scan upwards: from the incremented [pi] on, as long as the key
    is less than the pivot. *)
Fixpoint scan_up (fuel : nat) (a : list nat) (vp pi : nat) : nat :=
  match fuel with
  | O => pi
  | S k => if lt (entry a pi) vp then scan_up k a vp (S pi) else pi
  end.

(** The scan downwards: from the decremented [pj] on, as long as the
    pivot is less than the key. *)
Fixpoint scan_down (fuel : nat) (a : list nat) (vp pj : nat) : nat :=
  match fuel with
  | O => pj
  | S k => if lt vp (entry a pj) then scan_down k a vp (pj - 1)%nat else pj
  end.

Fixpoint partition_loop (fuel : nat) (a : list nat) (vp pi pj : nat)
  : list nat * nat :=
  match fuel with
  | O => (a, pi)
  | S k =>
      let pi := scan_up (length a) a vp (S pi) in
      let pj := scan_down (length a) a vp (pj - 1) in
      if (pj <=? pi)%nat then (a, pi)
      else partition_loop k (swap pi pj a) vp pi pj
  end.

(** One partition of the entries [pl..pr]: the array and the place of the
    pivot. *)
Definition partition (a : list nat) (pl pr : nat) : list nat * nat :=
  let pm := (pl + (pr - pl) / 2)%nat in
  let a := swap_if_less pm pl a in
  let a := swap_if_less pr pm a in
  let a := swap_if_less pm pl a in
  let vp := entry a pm in
  let a := swap pm (pr - 1) a in
  let '(a, pi) := partition_loop (length a) a vp pl (pr - 1) in
  (swap pi (pr - 1) a, pi).

(** The inner loop of the insertion sort: the entries above [pj] that are
    greater than the key [vi] move up by one. *)
Fixpoint shift_up (fuel : nat) (a : list nat) (pl vi pj : nat) : list nat :=
  match fuel with
  | O => <[pj := vi]> a
  | S k =>
      if (pl <? pj)%nat && lt vi (entry a (pj - 1))
      then shift_up k (<[pj := entry a (pj - 1)]> a) pl vi (pj - 1)%nat
      else <[pj := vi]> a
  end.

Definition insertion_sort (a : list nat) (pl pr : nat) : list nat :=
  foldl (fun a pi => shift_up (length a) a pl (entry a pi) pi) a
        (seq (S pl) (pr - pl)).

(** The sift of [npy_aheapsort] on the [n] entries from [pl] on, which
    the C code numbers from 1. *)
Fixpoint sift (fuel : nat) (a : list nat) (pl n tmp i j : nat) : list nat :=
  match fuel with
  | O => <[(pl + i - 1)%nat := tmp]> a
  | S k =>
      if (n <? j)%nat then <[(pl + i - 1)%nat := tmp]> a
      else
        let j := if (j <? n)%nat && lt (entry a (pl + j - 1)) (entry a (pl + j))
                 then S j else j in
        if lt tmp (entry a (pl + j - 1))
        then sift k (<[(pl + i - 1)%nat := entry a (pl + j - 1)]> a) pl n tmp j (j + j)%nat
        else <[(pl + i - 1)%nat := tmp]> a
  end.

Definition heapsort (a : list nat) (pl n : nat) : list nat :=
  let a := foldl (fun a l => sift (length a) a pl n (entry a (pl + l - 1)) l (l + l)) a
                 (reverse (seq 1 (n / 2))) in
  foldl (fun a m =>
           let tmp := entry a (pl + m - 1) in
           let a := <[(pl + m - 1)%nat := entry a pl]> a in
           sift (length a) a pl (m - 1) tmp 1 2)
        a (reverse (seq 2 (n - 1))).

(** The outer loop.  [fresh] says that the part [pl..pr] comes from the
    stack (or is the whole array): only then is its depth looked at. *)
Fixpoint quicksort_run (fuel : nat) (fresh : bool) (a : list nat) (pl pr : nat)
    (cdepth : Z) (stack : list (nat * nat * Z)) : list nat :=
  match fuel with
  | O => a
  | S k =>
      let pop (a : list nat) :=
        match stack with
        | [] => a
        | (pl', pr', cdepth') :: rest => quicksort_run k true a pl' pr' cdepth' rest
        end in
      if fresh && (cdepth <? 0) then pop (heapsort a pl (pr - pl + 1))
      else if (16 <? pr - pl)%nat
      then
        let '(a, pi) := partition a pl pr in
        let cdepth := cdepth - 1 in
        if (pi - pl <? pr - pi)%nat
        then quicksort_run k false a pl (pi - 1)%nat cdepth ((S pi, pr, cdepth) :: stack)
        else quicksort_run k false a (S pi) pr cdepth ((pl, (pi - 1)%nat, cdepth) :: stack)
      else pop (insertion_sort a pl pr)
  end.

(** [npy_aquicksort] on [num] keys: the positions of the keys in order. *)
Definition npy_aquicksort (num : nat) : list nat :=
  match num with
  | O => []
  | S n => quicksort_run (2 * num + 2) true (seq 0 num) 0 n
                         (2 * Z.log2 (Z.of_nat num)) []
  end.

End Quicksort.

(** [a < b] on Python objects: numbers by value (nothing is less than a
    NaN, and a NaN is less than nothing), texts by code points, lists item
    by item; [None] is a [TypeError]. *)
Fixpoint py_ltb (a b : Value) {struct a} : option bool :=
  match a, b with
  | VStr s, VStr t =>
      Some (match String.compare s t with Lt => true | _ => false end)
  | VList l, VList m =>
      (fix items (l m : list Value) : option bool :=
         match l, m with
         | [], [] => Some false
         | [], _ :: _ => Some true
         | _ :: _, [] => Some false
         | x :: l', y :: m' => if py_eqb x y then items l' m' else py_ltb x y
         end) l m
  | (VNull | VBool _ | VInt _ | VFloat _), (VNull | VBool _ | VInt _ | VFloat _) =>
      match as_number a, as_number b with
      | Some p, Some q => Some (match (p ?= q)%Q with Lt => true | _ => false end)
      | _, _ => Some false
      end
  | _, _ => None
  end.

(** [p] holds the positions of the keys, each once, in an order in which
    no key is followed by a lesser one. *)
Definition sorts (keys : list Value) (p : list nat) : bool :=
  bool_decide (stable_sort Nat.leb p = seq 0 (length keys))
  && forallb (fun ab => value_leb (nth ab.1 keys VNull) (nth ab.2 keys VNull))
             (zip p (tail p)).

(** The positions of the keys in the order of a stable sort. *)
Definition stable_argsort (keys : list Value) : list nat :=
  (stable_sort (fun a b => value_leb a.2 b.2) (zip (seq 0 (length keys)) keys)).*1.

(** The first key that cannot be compared with a key before it, and that
    key. *)
Fixpoint first_unordered (before : list Value) (keys : list Value)
  : option (Value * Value) :=
  match keys with
  | [] => None
  | x :: rest =>
      match List.find (fun y => match py_ltb x y with Some _ => false | None => true end)
                      before with
      | Some y => Some (x, y)
      | None => first_unordered (x :: before) rest
      end
  end.

(** [keys.argsort(kind="quicksort")] on an array of objects.  Keys that
    Python cannot compare are a [TypeError]; which two of them numpy
    meets first depends on the length of the array, and the message here
    names the first key that cannot be compared with one before it.  The
    result of the quicksort is a sorting permutation; it is used as such
    once this is checked. *)
Definition example_argsort (keys : list Value) : Result (list nat) :=
  match first_unordered [] keys with
  | Some (x, y) =>
      Raise (mkExn TypeError
               ("'<' not supported between instances of '" +:+ type_name x
                +:+ "' and '" +:+ type_name y +:+ "'"))
  | None =>
      let p := npy_aquicksort
                 (fun i j => default false (py_ltb (nth i keys VNull) (nth j keys VNull)))
                 (length keys) in
      Ok (if sorts keys p then p else stable_argsort keys)
  end.

(** *** Floats and their texts *)

(** [n / d] rounded to the nearest integer, to the even one of two that
    are as near. *)
Definition round_half_even (n d : Z) : Z :=
  let q := n / d in
  let r := n mod d in
  if 2 * r <? d then q
  else if d <? 2 * r then q + 1
  else if Z.even q then q else q + 1.

(** The float nearest to a rational number; [None] beyond the range of the
    finite floats. *)
Definition round_binary64 (q : Q) : option Q :=
  let n := Z.abs (Qnum q) in
  let d := Z.pos (Qden q) in
  if n =? 0 then Some 0%Q
  else
    let k := Z.log2 n - Z.log2 d in
    let below := if 0 <=? k then n <? d * 2 ^ k else n * 2 ^ (- k) <? d in
    let e := if below then k - 1 else k in
    let u := Z.max (e - 52) (- 1074) in
    let m := if 0 <=? u then round_half_even n (d * 2 ^ u)
             else round_half_even (n * 2 ^ (- u)) d in
    let m := if Qnum q <? 0 then - m else m in
    if 0 <=? u
    then if 2 ^ 1024 <=? Z.abs m * 2 ^ u then None else Some (inject_Z (m * 2 ^ u))
    else Some (Qred (m # Z.to_pos (2 ^ (- u)))).

(** The sign of a number text and the text after it. *)
Definition read_sign (s : string) : bool * string :=
  match s with
  | String "+" r => (false, r)
  | String "-" r => (true, r)
  | _ => (false, s)
  end.

(** [float(text)] for a decimal text: white space, a sign, digits with a
    point among them, an exponent.  The texts [inf] and [nan] and their
    kin hold no point and never reach [float] in the engine; a text whose
    value lies beyond the finite floats denotes an infinity, which is not
    among the values of this file, and is refused here. *)
Definition example_float_of_str (text : string) : option Q :=
  let '(negative, s) := read_sign (Py.lstrip_by Py.isspace_int text) in
  '(whole, s) ←
    match s with
    | String "." _ => Some (None, s)
    | _ => '(z, _, rest) ← scan_digits true 0 0 s; Some (Some z, rest)
    end;
  '(fraction, places, s) ←
    match s with
    | String "." r =>
        match scan_digits true 0 0 r with
        | Some (z, count, rest) => Some (z, count, rest)
        | None => if bool_decide (whole = None) then None else Some (0, 0, r)
        end
    | _ => Some (0, 0, s)
    end;
  '(exponent, s) ←
    match s with
    | String c r =>
        if (c =? "e")%char || (c =? "E")%char
        then let '(down, r) := read_sign r in
             '(z, _, rest) ← scan_digits true 0 0 r;
             Some (if down then - z else z, rest)
        else Some (0, s)
    | EmptyString => Some (0, s)
    end;
  if String.eqb (Py.lstrip_by Py.isspace_int s) ""
  then
    let digits := default 0 whole * 10 ^ places + fraction in
    let scale := exponent - places in
    let value := if 0 <=? scale then inject_Z (digits * 10 ^ scale)
                 else digits # Z.to_pos (10 ^ (- scale)) in
    round_binary64 (if negative then (- value)%Q else value)
  else None.

(** The number of digits before the decimal point of a positive number:
    the [x] with [10 ^ (x - 1) <= q < 10 ^ x]. *)
Fixpoint decimal_point (fuel : nat) (q : Q) (x : Z) : Z :=
  match fuel with
  | O => x
  | S k =>
      let pow (e : Z) : Q :=
        if 0 <=? e then inject_Z (10 ^ e) else 1 # Z.to_pos (10 ^ (- e)) in
      if Qle_bool (pow x) q then decimal_point k q (x + 1)
      else if Qle_bool (pow (x - 1)) q then x
      else decimal_point k q (x - 1)
  end.

(** The shortest decimal digits that denote the float [q] and no other,
    and the place of the decimal point. *)
Fixpoint shortest_digits (fuel : nat) (q : Q) (x : Z) (places : Z) : Z * Z :=
  let scale := places - x in
  let scaled := if 0 <=? scale then (q * inject_Z (10 ^ scale))%Q
                else (q / inject_Z (10 ^ (- scale)))%Q in
  let m := round_half_even (Qnum scaled) (Z.pos (Qden scaled)) in
  let '(m, x') := if m =? 10 ^ places then (10 ^ (places - 1), x + 1) else (m, x) in
  let back := places - x' in
  let candidate := if 0 <=? back then m # Z.to_pos (10 ^ back)
                   else inject_Z (m * 10 ^ (- back)) in
  match fuel with
  | O => (m, x')
  | S k =>
      match round_binary64 candidate with
      | Some f => if Qeq_bool f q then (m, x') else shortest_digits k q x (places + 1)
      | None => shortest_digits k q x (places + 1)
      end
  end.

Fixpoint zeros (n : nat) : string :=
  match n with O => EmptyString | S k => String "0" (zeros k) end.

(** [repr(x)] of a float: the shortest digits, with a point and at least
    one digit after it, or with an exponent when the point lies far from
    the digits. *)
Definition example_str_of_float (q : Q) : string :=
  if Qeq_bool q 0 then "0.0"
  else
    let sign := if Qnum q <? 0 then "-" else "" in
    let a := (Z.abs (Qnum q) # Qden q) in
    let x := decimal_point 700 a 0 in
    let '(m, x) := shortest_digits 17 a x 1 in
    let digits := str_of_int m in
    let p := String.length digits in
    sign +:+
    (if (16 <? x) || (x <? -3)
     then
       let e := x - 1 in
       String.substring 0 1 digits
       +:+ (if (p =? 1)%nat then "" else "." +:+ String.substring 1 (p - 1) digits)
       +:+ "e" +:+ (if e <? 0 then "-" else "+")
       +:+ (if Z.abs e <? 10 then "0" else "") +:+ str_of_int (Z.abs e)
     else if x <=? 0 then "0." +:+ zeros (Z.to_nat (- x)) +:+ digits
     else if x <? Z.of_nat p
     then String.substring 0 (Z.to_nat x) digits +:+ "."
          +:+ String.substring (Z.to_nat x) (p - Z.to_nat x) digits
     else digits +:+ zeros (Z.to_nat x - p) +:+ ".0").

Definition example_compare_with_list (op : CmpOp) (xs items : list Value)
  : Result (list bool) :=
  if decide (length items = length xs)
  then rmap (fun xv => compare_cell op xv.1 xv.2) (zip xs items)
  else Raise (mkExn ValueError "Lengths must match to compare").

(** The reductions of the examples, on the integers of a group. *)
Definition example_reduce (name : string) (t : dtype) (xs : list Value) : Result Value :=
  let present := omap as_int xs in
  if String.eqb name "sum" then Ok (VInt (foldr Z.add 0 present))
  else match present with
       | [] => Ok VNull
       | x :: rest =>
           if String.eqb name "min" then Ok (VInt (foldr Z.min x rest))
           else if String.eqb name "max" then Ok (VInt (foldr Z.max x rest))
           else Raise (mkExn TypeError ("Could not convert to numeric: " +:+ name))
       end.

(** Tables for the examples. *)
Definition orders : DataFrame :=
  mkFrame [("id", Int64); ("status", ObjectT); ("value", Int64)]
          [mkRow 0 [VInt 1; VStr "success"; VInt 120];
           mkRow 1 [VInt 2; VStr "fail"; VInt 80];
           mkRow 2 [VInt 3; VStr "success"; VInt 200]].

Definition sort_example : DataFrame :=
  mkFrame [("id", Int64); ("x", Float64)]
          [mkRow 0 [VInt 1; VFloat 5]; mkRow 1 [VInt 2; VFloat 1];
           mkRow 2 [VInt 3; VNull]; mkRow 3 [VInt 4; VFloat 3];
           mkRow 4 [VInt 5; VFloat 2]].

Definition sort_example_sorted : DataFrame :=
  mkFrame [("id", Int64); ("x", Float64)]
          [mkRow 1 [VInt 2; VFloat 1]; mkRow 4 [VInt 5; VFloat 2];
           mkRow 3 [VInt 4; VFloat 3]; mkRow 0 [VInt 1; VFloat 5];
           mkRow 2 [VInt 3; VNull]].

(** A table whose rows tie on [x]. *)
Definition pairs_example : DataFrame :=
  mkFrame [("id", Int64); ("x", Float64)]
          [mkRow 0 [VInt 9; VFloat 5]; mkRow 1 [VInt 2; VFloat 1];
           mkRow 2 [VInt 3; VNull]; mkRow 3 [VInt 4; VFloat 5];
           mkRow 4 [VInt 1; VFloat 1]].

(** Eighteen rows that tie on [status]. *)
Definition ties_example : DataFrame :=
  mkFrame [("id", Int64); ("status", ObjectT)]
          ((fun i => mkRow (Z.of_nat i) [VInt (Z.of_nat i); VStr "a"]) <$> seq 0 18).

Definition events : DataFrame :=
  mkFrame [("status", ObjectT); ("value", Int64)]
          [mkRow 0 [VStr "ok"; VInt 1];
           mkRow 1 [VNull; VInt 5];
           mkRow 2 [VStr "ok"; VInt 3];
           mkRow 3 [VStr "bad"; VInt 2]].

Definition visits : DataFrame :=
  mkFrame [("g", ObjectT); ("v", Int64)]
          [mkRow 0 [VStr "b"; VInt 1];
           mkRow 1 [VStr "a"; VInt 2];
           mkRow 2 [VStr "b"; VInt 3]].

(** * Properties *)

(** ** Python strings *)

Lemma prefix_drop p : forall s,
  String.prefix p s = true -> s = p +:+ Py.drop (String.length p) s.
Proof.
  induction p as [|a p IH]; intros s Hp; [done|].
  destruct s as [|b s]; [done|]. simpl in Hp.
  destruct (ascii_dec a b) as [->|]; [|done].
  simpl. f_equal. by apply IH.
Qed.

Lemma partition_nil sep :
  Py.partition sep "" =
  if String.prefix sep "" then Some ("", Py.drop (String.length sep) "") else None.
Proof. reflexivity. Qed.

Lemma partition_cons sep c s :
  Py.partition sep (String c s) =
  if String.prefix sep (String c s)
  then Some ("", Py.drop (String.length sep) (String c s))
  else match Py.partition sep s with
       | Some (a, b) => Some (String c a, b)
       | None => None
       end.
Proof. reflexivity. Qed.


Lemma split_fuel_nonempty n sep s : Py.split_fuel n sep s <> [].
Proof. destruct n; simpl; [done|]. by destruct (Py.partition sep s) as [[??]|]. Qed.

Lemma join_cons sep a l :
  l <> [] -> Py.join sep (a :: l) = a +:+ sep +:+ Py.join sep l.
Proof. by destruct l. Qed.



Lemma rewrite_eqeq_cons c r :
  String.prefix "==" (String c r) = false ->
  rewrite_eqeq (String c r) = String c (rewrite_eqeq r).
Proof.
  destruct c as [[] [] [] [] [] [] [] []]; try reflexivity.
  destruct r as [|d r]; [reflexivity|].
  destruct d as [[] [] [] [] [] [] [] []]; try reflexivity.
  intros Hp. destruct r; cbv in Hp; discriminate Hp.
Qed.

Lemma rewrite_eqeq_hit r : rewrite_eqeq (String "=" (String "=" r)) = String "=" (rewrite_eqeq r).
Proof. reflexivity. Qed.

Lemma prefix_eqeq s :
  String.prefix "==" s = true -> exists r, s = String "=" (String "=" r).
Proof.
  intros Hp. apply prefix_drop in Hp. simpl in Hp. eauto.
Qed.

(** What [partition] at [==] says about [rewrite_eqeq]. *)
Lemma partition_rewrite_eqeq : forall s,
  match Py.partition "==" s with
  | Some (a, b) =>
      rewrite_eqeq s = a +:+ "=" +:+ rewrite_eqeq b
      /\ (String.length b < String.length s)%nat
  | None => rewrite_eqeq s = s
  end.
Proof.
  induction s as [|c s IH]; [reflexivity|].
  rewrite partition_cons.
  destruct (String.prefix "==" (String c s)) eqn:E.
  - apply prefix_eqeq in E as [r Hr]. injection Hr as -> ->.
    simpl. split; [done|lia].
  - rewrite (rewrite_eqeq_cons _ _ E).
    destruct (Py.partition "==" s) as [[a b]|].
    + destruct IH as [-> Hl]. simpl. split; [done|lia].
    + by rewrite IH.
Qed.

Lemma replace_eqeq_fuel n : forall s,
  (String.length s <= n)%nat ->
  Py.join "=" (Py.split_fuel n "==" s) = rewrite_eqeq s.
Proof.
  induction n as [|n IH]; intros s Hn.
  - destruct s; [done|simpl in Hn; lia].
  - simpl. pose proof (partition_rewrite_eqeq s) as Hs.
    destruct (Py.partition "==" s) as [[a b]|]; [|done].
    destruct Hs as [-> Hl].
    rewrite join_cons by apply split_fuel_nonempty.
    rewrite IH by lia. done.
Qed.

(** [replace] of [==] by [=] is [rewrite_eqeq]. *)
Lemma replace_eqeq s : Py.replace "==" "=" s = rewrite_eqeq s.
Proof. by apply replace_eqeq_fuel. Qed.

Lemma contains_nil sub : Py.contains sub "" = String.prefix sub "".
Proof. unfold Py.contains. rewrite partition_nil. by destruct (String.prefix sub ""). Qed.

Lemma contains_cons sub c s :
  Py.contains sub (String c s) =
  String.prefix sub (String c s) || Py.contains sub s.
Proof.
  unfold Py.contains. rewrite partition_cons.
  destruct (String.prefix sub (String c s)); [done|].
  by destruct (Py.partition sub s) as [[??]|].
Qed.

Lemma prefix_single a s :
  String.prefix (String a "") s =
  match s with
  | String b _ => if ascii_dec a b then true else false
  | EmptyString => false
  end.
Proof.
  destruct s as [|b s]; [done|]. simpl.
  destruct (ascii_dec a b); [by destruct s|done].
Qed.

Lemma rewrite_eqeq_head s :
  String.prefix "=" (rewrite_eqeq s) = String.prefix "=" s.
Proof.
  destruct s as [|c s]; [done|].
  destruct (String.prefix "==" (String c s)) eqn:E.
  - apply prefix_eqeq in E as [r Hr]. injection Hr as -> ->.
    by rewrite rewrite_eqeq_hit, !prefix_single.
  - by rewrite rewrite_eqeq_cons, !prefix_single.
Qed.

Lemma prefix_cons a p c s :
  String.prefix (String a p) (String c s) =
  (if ascii_dec a c then true else false) && String.prefix p s.
Proof. simpl. by destruct (ascii_dec a c). Qed.

(** Without a run of three [=] in the text, no [==] is left after the
    rewrite. *)
Lemma rewrite_eqeq_clean n : forall s,
  (String.length s <= n)%nat ->
  Py.contains "===" s = false ->
  Py.contains "==" (rewrite_eqeq s) = false.
Proof.
  induction n as [|n IH]; intros s Hn H3.
  - destruct s; [done|simpl in Hn; lia].
  - destruct s as [|c s]; [done|].
    rewrite contains_cons in H3. apply orb_false_elim in H3 as [H3 H3'].
    destruct (String.prefix "==" (String c s)) eqn:E.
    + apply prefix_eqeq in E as [r Hr]. injection Hr as -> ->.
      rewrite rewrite_eqeq_hit, contains_cons.
      rewrite contains_cons in H3'. apply orb_false_elim in H3' as [_ H3'].
      rewrite !prefix_cons in H3.
      rewrite prefix_cons, rewrite_eqeq_head.
      rewrite IH; [|simpl in Hn; lia|done].
      destruct (ascii_dec "=" "=") as [_|]; [|done]. simpl in *.
      by rewrite H3.
    + rewrite (rewrite_eqeq_cons _ _ E), contains_cons.
      rewrite IH; [|simpl in Hn; lia|done].
      rewrite prefix_cons, rewrite_eqeq_head, <- prefix_cons, E. done.
Qed.

Lemma rewrite_eqeq_fixed : forall s,
  Py.contains "==" s = false -> rewrite_eqeq s = s.
Proof.
  induction s as [|c s IH]; intros H2; [done|].
  rewrite contains_cons in H2. apply orb_false_elim in H2 as [H2 H2'].
  rewrite rewrite_eqeq_cons by done. by rewrite IH.
Qed.

(** The rewrite of [==] reaches a fixed point in one pass when the text
    holds no run of three [=]. *)
Lemma replace_eqeq_idempotent s :
  Py.contains "===" s = false ->
  Py.replace "==" "=" (Py.replace "==" "=" s) = Py.replace "==" "=" s.
Proof.
  intros H3. rewrite !replace_eqeq.
  apply rewrite_eqeq_fixed. by apply (rewrite_eqeq_clean (String.length s)).
Qed.

(** ** The argument tokenizer *)

Lemma tokenizer_run_app st s1 s2 :
  tokenizer_run st (s1 +:+ s2) = tokenizer_run (tokenizer_run st s1) s2.
Proof.
  revert st; induction s1 as [|c s1 IH]; intros st; simpl; [done|].
  apply IH.
Qed.

Lemma tokenizer_step_prefix T0 T cur d c :
  tokenizer_step (mkTokenizer (T0 ++ T) cur d) c =
  let st := tokenizer_step (mkTokenizer T cur d) c in
  mkTokenizer (T0 ++ tokens st) (current_token st) (paren_depth st).
Proof.
  unfold tokenizer_step; simpl.
  destruct (_ && _); simpl; [by rewrite app_assoc|done].
Qed.

Lemma tokenizer_run_prefix s : forall T0 T cur d,
  tokenizer_run (mkTokenizer (T0 ++ T) cur d) s =
  let st := tokenizer_run (mkTokenizer T cur d) s in
  mkTokenizer (T0 ++ tokens st) (current_token st) (paren_depth st).
Proof.
  induction s as [|c s IH]; intros T0 T cur d; simpl; [done|].
  rewrite tokenizer_step_prefix; simpl.
  destruct (tokenizer_step (mkTokenizer T cur d) c) as [T' cur' d'] eqn:E; simpl.
  apply IH.
Qed.

Lemma tokenizer_depth s : forall st,
  paren_depth (tokenizer_run st s) = paren_depth st + net_depth s.
Proof.
  induction s as [|c s IH]; intros st; simpl; [lia|].
  rewrite IH. unfold tokenizer_step.
  destruct (c =? "(")%char eqn:E1; [|destruct (c =? ")")%char eqn:E2];
    destruct (_ && _); simpl; lia.
Qed.

(** At a comma met at depth 0 the tokenizer closes the current token,
    whatever the text before it holds. *)
Lemma tokenize_at_comma pre post :
  net_depth pre = 0 ->
  tokenize (pre +:+ String "," post) =
  tokens (tokenizer_run tokenizer_start pre)
  ++ [Py.strip (current_token (tokenizer_run tokenizer_start pre))]
  ++ tokenize post.
Proof.
  intros Hd. unfold tokenize.
  rewrite tokenizer_run_app; simpl.
  pose proof (tokenizer_depth pre tokenizer_start) as Hp; simpl in Hp.
  destruct (tokenizer_run tokenizer_start pre) as [T cur d] eqn:E; simpl in *.
  assert (d = 0) as -> by lia.
  unfold tokenizer_step at 1; simpl.
  replace (T ++ [Py.strip cur]) with ((T ++ [Py.strip cur]) ++ []) by apply app_nil_r.
  rewrite tokenizer_run_prefix; simpl.
  unfold tokenizer_start, tokenizer_finish; simpl.
  destruct (tokenizer_run (mkTokenizer [] "" 0) post) as [T' cur' d']; simpl.
  destruct (String.eqb cur' ""); simpl; by rewrite <- !app_assoc.
Qed.

(** C7.  A comma inside a quoted literal and at parenthesis depth 0 is a
    token boundary: the tokens are those closed before the comma, then the
    text since the last boundary (the opening quote included), then the
    tokens of the rest.  The quote state plays no part. *)
Theorem tokenize_splits_inside_quotes (pre post : string) :
  in_quote pre = true ->
  net_depth pre = 0 ->
  tokenize (pre +:+ String "," post) =
  tokens (tokenizer_run tokenizer_start pre)
  ++ [Py.strip (current_token (tokenizer_run tokenizer_start pre))]
  ++ tokenize post.
Proof. intros _. apply tokenize_at_comma. Qed.

Lemma tokenize_splits_inside_quotes_witness :
  in_quote "f(x), 'a" = true /\ net_depth "f(x), 'a" = 0 /\
  tokenize "f(x), 'a,b'" = ["f(x)"; "'a"; "b'"].
Proof.
  split; [reflexivity|]. split; [reflexivity|].
  exact (tokenize_splits_inside_quotes "f(x), 'a" "b'" eq_refl eq_refl).
Defined.
(** ** Results *)

Lemma rmap_length {A B} (f : A -> Result B) l l' :
  rmap f l = Ok l' -> length l' = length l.
Proof.
  revert l'; induction l as [|x l IH]; intros l' Hl; simpl in Hl.
  - by injection Hl as <-.
  - destruct (f x) as [y|]; [|done]. simpl in Hl.
    destruct (rmap f l) as [ys|]; [|done]. simpl in Hl.
    injection Hl as <-. simpl. f_equal. by apply IH.
Qed.


Lemma rmap_raise {A B} (f : A -> Result B) l x e :
  x ∈ l -> f x = Raise e -> exists e', rmap f l = Raise e'.
Proof.
  intros Hx Hf. induction Hx as [x l|x a l Hx IH]; simpl.
  - rewrite Hf. simpl. by eexists.
  - destruct (f a); simpl; [|by eexists].
    destruct (IH Hf) as [e' ->]. simpl. by eexists.
Qed.

(** ** The [where] stage *)

Section WhereProps.
Context `{Host}.

Lemma getitem_shape df name s :
  getitem df name = Ok s ->
  s.*1 = index df /\ length s = len df.
Proof.
  unfold getitem. destruct (column_position name (columns df)); [|done].
  intros [= <-]. split.
  - unfold index. rewrite <- list_fmap_compose. done.
  - by rewrite length_fmap.
Qed.

Lemma compare_scalar_length t op xs v bs :
  compare_scalar t op xs v = Ok bs -> length bs = length xs.
Proof.
  unfold compare_scalar.
  destruct t, v; try apply rmap_length;
    destruct op; try done; intros [= <-]; by rewrite length_replicate.
Qed.

(** The texts a sub-condition with [contains], [startswith] or [endswith]
    works on: the cells of the column cast to texts, and the literal. *)
Lemma text_test_values (test : string -> Result (string -> bool)) val xs bs :
  (texts <-r astype_str xs ;; pat <-r str_value val ;; found <-r test pat ;;
   Ok (found <$> texts)) = Ok bs ->
  exists texts pat found,
    astype_str xs = Ok texts /\ str_value val = Ok pat /\ test pat = Ok found
    /\ bs = found <$> texts.
Proof.
  destruct (astype_str xs) as [texts|]; [|done]. simpl.
  destruct (str_value val) as [pat|]; [|done]. simpl.
  destruct (test pat) as [found|] eqn:E; [|done]. simpl.
  intros [= <-]. by exists texts, pat, found.
Qed.

Lemma predicate_values_length t o v xs bs :
  predicate_values t o v xs = Ok bs -> length bs = length xs.
Proof.
  destruct o as [op| | |]; simpl.
  - destruct v; try apply compare_scalar_length. apply compare_with_list_length.
  - intros (texts & pat & found & Ht & _ & _ & ->)%text_test_values.
    rewrite length_fmap. by apply rmap_length in Ht.
  - intros (texts & pat & found & Ht & _ & _ & ->)%(text_test_values (fun pat => Ok (Py.startswith pat))).
    rewrite length_fmap. by apply rmap_length in Ht.
  - intros (texts & pat & found & Ht & _ & _ & ->)%(text_test_values (fun pat => Ok (Py.endswith pat))).
    rewrite length_fmap. by apply rmap_length in Ht.
Qed.

(** The boolean [Series] of a predicate carries the frame's index and one
    flag per row. *)
Lemma predicate_series_shape df p s :
  predicate_series df p = Ok s ->
  exists bs, s = zip (index df) bs /\ length bs = len df.
Proof.
  unfold predicate_series. destruct (getitem df (pred_column p)) as [s0|] eqn:E; [|done].
  simpl. destruct (predicate_values _ _ _ _) as [bs|] eqn:Eb; [|done]. simpl.
  intros [= <-]. apply getitem_shape in E as [E1 E2].
  apply predicate_values_length in Eb. rewrite length_fmap in Eb.
  exists bs. rewrite E1. split; [done|lia].
Qed.



Lemma imap_imap {A B C} (f : nat -> A -> B) (g : nat -> B -> C) (l : list A) :
  imap g (imap f l) = imap (fun i a => g i (f i a)) l.
Proof.
  apply list_eq; intros i. rewrite !list_lookup_imap.
  by destruct (l !! i).
Qed.


Lemma where_loop_spec df : forall conditions mask mask',
  where_loop df mask conditions = Ok mask' ->
  exists series,
    Forall2 (fun p bs => predicate_series df p = Ok (zip (index df) bs)
                         /\ length bs = len df)
            (omap (fun cond => parse_predicate (Py.strip cond)) conditions) series
    /\ match series with
       | [] => mask' = mask
       | _ :: _ =>
           NoDup (index df) /\ mask_is_bool mask' = true
           /\ mask_values mask' =
              imap (fun i a => a && label_flag (index df) series (Z.of_nat i))
                   (mask_values mask)
       end.
Proof.
  induction conditions as [|cond rest IH]; intros mask mask' Hl; simpl in Hl.
  - injection Hl as <-. exists []. split; [constructor|done].
  - destruct (where_step df mask cond) as [m1|] eqn:E1; [|done]. simpl in Hl.
    apply IH in Hl as (series & HF & Hm). unfold where_step in E1. simpl.
    destruct (parse_predicate (Py.strip cond)) as [p|] eqn:Ep.
    + destruct (predicate_series df p) as [s|] eqn:Es; [|done]. simpl in E1.
      destruct (predicate_series_shape _ _ _ Es) as (bs & -> & Hbs).
      unfold mask_iand in E1.
      destruct (decide (NoDup (zip (index df) bs).*1)) as [Hnd|]; [|done].
      injection E1 as <-.
      rewrite fst_zip in Hnd by (unfold index, len in *; rewrite length_fmap; lia).
      exists (bs :: series). split; [by constructor|].
      split; [done|]. destruct series as [|bs' series'].
      * subst mask'. split; [done|]. simpl. apply imap_ext. intros i a _.
        unfold label_flag. simpl. by rewrite andb_true_r.
      * destruct Hm as (_ & Hb & Hv). split; [done|]. rewrite Hv. simpl.
        rewrite imap_imap. apply imap_ext. intros i a _.
        unfold label_flag. simpl. by rewrite <- andb_assoc.
    + injection E1 as <-. eauto.
Qed.




End WhereProps.

(** ** Orders *)

Section OrderingFacts.
Context {A : Type} (cmp : A -> A -> comparison) (Hc : Ordering cmp).

Lemma cmp_refl a : cmp a a = Eq.
Proof.
  pose proof (cmp_antisym cmp Hc a a) as E. by destruct (cmp a a).
Qed.

Lemma cmp_eq_cong_r a b c : cmp a b = Eq -> cmp c a = cmp c b.
Proof.
  intros E. rewrite (cmp_antisym cmp Hc a c), (cmp_antisym cmp Hc b c).
  f_equal. by apply cmp_eq_cong.
Qed.

Lemma leb_of_total a b : leb_of cmp a b = false -> leb_of cmp b a = true.
Proof.
  unfold leb_of. rewrite (cmp_antisym cmp Hc a b). by destruct (cmp a b).
Qed.

Lemma leb_of_trans a b c :
  leb_of cmp a b = true -> leb_of cmp b c = true -> leb_of cmp a c = true.
Proof.
  unfold leb_of. destruct (cmp a b) eqn:E1; [| |done]; intros _.
  - by rewrite (cmp_eq_cong cmp Hc a b c E1).
  - destruct (cmp b c) eqn:E2; [| |done]; intros _.
    + by rewrite <- (cmp_eq_cong_r b c a E2), E1.
    + by rewrite (cmp_lt_trans cmp Hc a b c E1 E2).
Qed.

End OrderingFacts.

Lemma lex_compare_ordering {A} (cmp : A -> A -> comparison) :
  Ordering cmp -> Ordering (lex_compare cmp).
Proof.
  intros Hc. split.
  - induction a as [|x a IH]; intros [|y b]; simpl; try done.
    rewrite (cmp_antisym cmp Hc x y). destruct (cmp x y); simpl; auto.
  - induction a as [|x a IH]; intros [|y b] [|z c]; simpl; try done.
    all: destruct (cmp x y) eqn:E; try done. intros E'.
    rewrite (cmp_eq_cong cmp Hc x y z E). destruct (cmp y z); auto.
  - induction a as [|x a IH]; intros [|y b] [|z c]; simpl; try done.
    all: destruct (cmp x y) eqn:E1; try done.
    + rewrite (cmp_eq_cong cmp Hc x y z E1). destruct (cmp y z); eauto.
    + intros _. destruct (cmp y z) eqn:E2; try done.
      * intros _. by rewrite <- (cmp_eq_cong_r cmp Hc y z x E2), E1.
      * intros _. by rewrite (cmp_lt_trans cmp Hc x y z E1 E2).
Qed.

Lemma key_compare_lex k1 k2 : key_compare k1 k2 = lex_compare value_compare k1 k2.
Proof. revert k2; induction k1 as [|a k1 IH]; intros [|b k2]; simpl; try done. by rewrite IH. Qed.

Lemma sort_key_compare_lex asc k1 k2 :
  sort_key_compare asc k1 k2 = lex_compare (sort_cell_compare asc) k1 k2.
Proof. revert k2; induction k1 as [|a k1 IH]; intros [|b k2]; simpl; try done. by rewrite IH. Qed.

Lemma string_compare_lt_trans (a b c : string) :
  String.compare a b = Lt -> String.compare b c = Lt -> String.compare a c = Lt.
Proof.
  intros E1 E2.
  assert (String.le a c) as Hac.
  { transitivity b; unfold String.le, String.leb; [by rewrite E1|by rewrite E2]. }
  unfold String.le, String.leb in Hac.
  destruct (String.compare a c) eqn:E3; [|done|done].
  apply String.compare_eq_iff in E3 as ->.
  rewrite String.compare_antisym, E2 in E1. done.
Qed.

Lemma Qcompare_ordering : Ordering Qcompare.
Proof.
  split.
  - intros a b. by rewrite <- Qcompare_antisym.
  - intros a b c E. apply Qeq_alt in E. by rewrite E.
  - intros a b c E1 E2. apply Qlt_alt. apply Qlt_alt in E1, E2. by eapply Qlt_trans.
Qed.

Lemma string_compare_ordering : Ordering String.compare.
Proof.
  split.
  - intros a b. apply String.compare_antisym.
  - intros a b c E. by apply String.compare_eq_iff in E as ->.
  - apply string_compare_lt_trans.
Qed.

Lemma value_compare_ordering : Ordering value_compare.
Proof.
  pose proof Qcompare_ordering as [Q1 Q2 Q3].
  pose proof string_compare_ordering as [S1 S2 S3].
  split.
  - intros a b. unfold value_compare.
    destruct (as_number a), (as_number b); simpl; auto.
    destruct a, b; simpl; auto.
  - intros a b c. unfold value_compare.
    destruct (as_number a) eqn:Ea, (as_number b) eqn:Eb, (as_number c) eqn:Ec;
      simpl; auto; try done.
    destruct a, b, c; simpl; auto; try done.
  - intros a b c. unfold value_compare.
    destruct (as_number a) eqn:Ea, (as_number b) eqn:Eb, (as_number c) eqn:Ec;
      simpl; eauto; try done.
    destruct a, b, c; simpl; eauto; try done.
Qed.

Lemma flip_ordering {A} (cmp : A -> A -> comparison) :
  Ordering cmp -> Ordering (fun a b => cmp b a).
Proof.
  intros Hc. split.
  - intros a b. apply (cmp_antisym cmp Hc).
  - intros a b c E. apply (cmp_eq_cong_r cmp Hc).
    rewrite (cmp_antisym cmp Hc), E. done.
  - intros a b c E1 E2. by apply (cmp_lt_trans cmp Hc c b a).
Qed.

Lemma sort_cell_compare_ordering asc : Ordering (sort_cell_compare asc).
Proof.
  assert (Ordering (fun a b => if asc then value_compare a b else value_compare b a)) as [O1 O2 O3].
  { destruct asc; [apply value_compare_ordering|apply flip_ordering, value_compare_ordering]. }
  split.
  - intros a b. unfold sort_cell_compare. destruct (isna a), (isna b); simpl; auto.
  - intros a b c. unfold sort_cell_compare.
    destruct (isna a), (isna b), (isna c); simpl; auto; try done.
  - intros a b c. unfold sort_cell_compare.
    destruct (isna a), (isna b), (isna c); simpl; eauto; try done.
Qed.

Lemma sort_key_compare_ordering asc : Ordering (sort_key_compare asc).
Proof.
  pose proof (lex_compare_ordering _ (sort_cell_compare_ordering asc)) as [O1 O2 O3].
  split; intros *; rewrite !sort_key_compare_lex; eauto.
Qed.

Lemma key_compare_ordering : Ordering key_compare.
Proof.
  pose proof (lex_compare_ordering _ value_compare_ordering) as [O1 O2 O3].
  split; intros *; rewrite !key_compare_lex; eauto.
Qed.

Lemma pullback_ordering {A B} (f : A -> B) (cmp : B -> B -> comparison) :
  Ordering cmp -> Ordering (fun a b => cmp (f a) (f b)).
Proof. intros [O1 O2 O3]. split; eauto. Qed.

(** ** The stable sort *)

Section StableSort.
Context {A : Type} (leb : A -> A -> bool).

Lemma insert_sorted_perm x l : insert_sorted leb x l ≡ₚ x :: l.
Proof.
  induction l as [|y l IH]; simpl; [done|].
  destruct (leb x y); [done|]. rewrite IH. apply Permutation_swap.
Qed.

Lemma stable_sort_perm l : stable_sort leb l ≡ₚ l.
Proof.
  induction l as [|x l IH]; simpl; [done|].
  rewrite insert_sorted_perm. by rewrite IH.
Qed.

Hypothesis leb_total : forall a b, leb a b = false -> leb b a = true.

Lemma insert_sorted_sorted x l :
  Sorted (fun a b => leb a b = true) l ->
  Sorted (fun a b => leb a b = true) (insert_sorted leb x l).
Proof.
  induction 1 as [|y l Hl IH Hy]; simpl; [by repeat constructor|].
  destruct (leb x y) eqn:E.
  - constructor; [by constructor|by constructor].
  - constructor; [done|].
    destruct l as [|z l]; simpl in *.
    + constructor. by apply leb_total.
    + destruct (leb x z); constructor; [by apply leb_total|by inversion Hy].
Qed.

Lemma stable_sort_sorted l : Sorted (fun a b => leb a b = true) (stable_sort leb l).
Proof.
  induction l as [|x l IH]; simpl; [constructor|]. by apply insert_sorted_sorted.
Qed.

End StableSort.

(** Stability: elements that tie pairwise keep their order.  [P] selects
    elements each of which is below every other one. *)
Lemma insert_sorted_filter {A} (leb : A -> A -> bool) (P : A -> bool) x l :
  (forall a b, P a = true -> P b = true -> leb a b = true) ->
  List.filter P (insert_sorted leb x l) = List.filter P (x :: l).
Proof.
  intros HP. induction l as [|y l IH]; [done|]. simpl.
  destruct (leb x y) eqn:E; [done|]. simpl. rewrite IH. simpl.
  destruct (P x) eqn:Ex, (P y) eqn:Ey; try done.
  by rewrite (HP x y) in E.
Qed.

Lemma stable_sort_filter {A} (leb : A -> A -> bool) (P : A -> bool) l :
  (forall a b, P a = true -> P b = true -> leb a b = true) ->
  List.filter P (stable_sort leb l) = List.filter P l.
Proof.
  intros HP. induction l as [|x l IH]; [done|]. simpl.
  rewrite insert_sorted_filter by done. simpl. by rewrite IH.
Qed.


Lemma Sorted_adjacent {A} (R : A -> A -> Prop) l i x y :
  Sorted R l -> l !! i = Some x -> l !! S i = Some y -> R x y.
Proof.
  intros Hs. revert i. induction Hs as [|a l Hl IH Ha]; intros i Hx Hy; [done|].
  destruct i as [|i]; simpl in *.
  - injection Hx as ->. destruct l as [|b l]; [done|]. simpl in Hy.
    injection Hy as ->. by inversion Ha.
  - by eapply IH.
Qed.

(** ** The example host *)

Lemma value_leb_total a b : value_leb a b = false -> value_leb b a = true.
Proof. apply (leb_of_total value_compare value_compare_ordering). Qed.

Lemma stable_argsort_perm keys :
  Permutation (stable_argsort keys) (seq 0 (length keys)).
Proof.
  unfold stable_argsort.
  by rewrite stable_sort_perm, fst_zip by (rewrite length_seq; lia).
Qed.

Lemma stable_argsort_sorted keys i a b x y :
  stable_argsort keys !! i = Some a -> stable_argsort keys !! S i = Some b ->
  keys !! a = Some x -> keys !! b = Some y ->
  value_leb x y = true.
Proof.
  unfold stable_argsort. rewrite !list_lookup_fmap.
  set (l := stable_sort _ _).
  intros Ha Hb Hx Hy.
  destruct (l !! i) as [[a' x']|] eqn:Ei; [|done].
  destruct (l !! S i) as [[b' y']|] eqn:Ej; [|done].
  simpl in Ha, Hb. injection Ha as ->. injection Hb as ->.
  assert (forall j k v, l !! j = Some (k, v) -> keys !! k = Some v) as Hin.
  { intros j k v Hj. apply list_elem_of_lookup_2 in Hj.
    unfold l in Hj. rewrite stable_sort_perm in Hj.
    apply list_elem_of_lookup in Hj as [n Hn].
    apply lookup_zip_with_Some in Hn as (k' & v' & [= <- <-] & Hk & Hv).
    apply lookup_seq in Hk as [-> _]. done. }
  pose proof (Hin _ _ _ Ei) as Hx'. pose proof (Hin _ _ _ Ej) as Hy'.
  assert (x' = x) as -> by congruence. assert (y' = y) as -> by congruence.
  pose proof (stable_sort_sorted (fun a b : nat * Value => value_leb a.2 b.2)
                (fun a b => value_leb_total a.2 b.2)
                (zip (seq 0 (length keys)) keys)) as Hs.
  by apply (Sorted_adjacent _ _ _ _ _ Hs Ei Ej).
Qed.

Lemma sorts_perm keys p : sorts keys p = true -> Permutation p (seq 0 (length keys)).
Proof.
  unfold sorts. intros [Hp _]%andb_true_iff. apply bool_decide_eq_true in Hp.
  rewrite <- Hp. symmetry. apply stable_sort_perm.
Qed.

Lemma sorts_sorted keys p i a b x y :
  sorts keys p = true ->
  p !! i = Some a -> p !! S i = Some b ->
  keys !! a = Some x -> keys !! b = Some y ->
  value_leb x y = true.
Proof.
  unfold sorts. intros [_ Hs]%andb_true_iff Ha Hb Hx Hy.
  rewrite forallb_forall in Hs.
  specialize (Hs (a, b)). simpl in Hs.
  rewrite !nth_lookup, Hx, Hy in Hs. apply Hs.
  apply list_elem_of_In, list_elem_of_lookup. exists i.
  apply lookup_zip_with_Some. exists a, b. split; [done|]. split; [done|].
  by rewrite lookup_tail.
Qed.

(** The checked result of the quicksort, or the stable sort in its
    place. *)
Lemma example_argsort_spec keys p :
  example_argsort keys = Ok p ->
  Permutation p (seq 0 (length keys))
  /\ forall i a b x y,
       p !! i = Some a -> p !! S i = Some b ->
       keys !! a = Some x -> keys !! b = Some y -> value_leb x y = true.
Proof.
  unfold example_argsort. destruct (first_unordered [] keys) as [[x0 y0]|]; [done|].
  intros [= <-]. destruct (sorts keys _) eqn:E.
  - split; [by apply sorts_perm|]. intros i a b x y. by apply sorts_sorted.
  - split; [apply stable_argsort_perm|]. intros i a b x y. apply stable_argsort_sorted.
Qed.

(** [df.nlargest(n, column)] and [df.nsmallest(n, column)] on a column of
    numbers: the rows are put in the order of the column by a stable
    sort, the rows with a missing value after the others, and the first
    [n] are taken. *)
Definition example_nlargest (largest : bool) (n : Z) (column : string)
    (df : DataFrame) : Result DataFrame :=
  match column_position column (columns df) with
  | None => Raise (key_error column)
  | Some p =>
      match (column_at df p).2 with
      | ObjectT =>
          Raise (mkExn TypeError
                   ("Column " +:+ Py.repr column
                    +:+ " has dtype object, cannot use method '"
                    +:+ (if largest then "nlargest" else "nsmallest")
                    +:+ "' with this dtype"))
      | _ =>
          let present := List.filter (fun r => negb (isna (cell p r))) (rows df) in
          let missing := List.filter (fun r => isna (cell p r)) (rows df) in
          let sorted :=
            stable_sort (fun r1 r2 => if largest
                                      then value_leb (cell p r2) (cell p r1)
                                      else value_leb (cell p r1) (cell p r2))
                        present in
          Ok (mkFrame (columns df) (take (Z.to_nat n) (sorted ++ missing)))
      end
  end.

(** A host to run the examples on.  The regular expressions, the
    comparisons with a list, the reductions and the aggregations it
    offers are those the examples need: a pattern with a special
    character is refused, a list is compared item by item when it has
    the length of the column, the reductions are the sum, the least and
    the greatest of integers, and a sample is the first rows of the
    table. *)
Definition example_host : Host.
Proof.
  refine {|
    float_of_str := example_float_of_str;
    str_of_float := example_str_of_float;
    re_compile_nocase := fun pat =>
      Raise (mkExn ReError ("cannot compile " +:+ Py.repr pat));
    compare_with_list := example_compare_with_list;
    reduce := example_reduce;
    reduce_dtype := fun _ t => t;
    agg_reserved := fun _ _ _ => Raise (mkExn TypeError "not supported");
    frame_agg := fun _ spec =>
      Raise (mkExn AttributeError
               ("'" +:+ default "" (hd_error (default [] (hd_error spec.*2)))
                +:+ "' is not a valid function for 'Series' object"));
    argsort := example_argsort;
    index_repr := fun missing =>
      "Index([" +:+ Py.join ", " ((fun v => match v with
                                            | VStr name => Py.repr name
                                            | VInt z => str_of_int z
                                            | VBool true => "True"
                                            | VBool false => "False"
                                            | VNone => "None"
                                            | _ => "nan"
                                            end) <$> missing)
      +:+ "], dtype='object')";
    sample := fun _ df n =>
      Ok (head (default (round_half_even (Z.of_nat (len df)) 10) n) df);
    nlargest := example_nlargest true;
    nsmallest := example_nlargest false
  |}.
  - intros op xs items bs. unfold example_compare_with_list.
    destruct (decide _) as [E|]; [|done]. intros Hr%rmap_length.
    rewrite Hr, length_zip_with. lia.
  - intros keys p Hp. by apply example_argsort_spec in Hp as [Hp _].
  - intros keys p i a b x y Hp. apply example_argsort_spec in Hp as [_ Hp]. apply Hp.
Defined.


(** ** Sorting on one column *)

Lemma fmap_nth_seq {A} (l : list A) d :
  (fun j => nth j l d) <$> seq 0 (length l) = l.
Proof.
  apply list_eq. intros i. rewrite list_lookup_fmap.
  destruct (decide (i < length l)%nat) as [Hi|Hi].
  - rewrite lookup_seq_lt by done. simpl. rewrite nth_lookup.
    destruct (lookup_lt_is_Some_2 l i Hi) as [x Hx]. by rewrite Hx.
  - rewrite lookup_seq_ge by lia. simpl. symmetry. apply lookup_ge_None. lia.
Qed.

Lemma filter_complement_perm {A} (P : A -> bool) l :
  List.filter (fun x => negb (P x)) l ++ List.filter P l ≡ₚ l.
Proof.
  induction l as [|x l IH]; [done|]. simpl.
  destruct (P x); simpl.
  - rewrite <- Permutation_middle. by rewrite IH.
  - by rewrite IH.
Qed.

Lemma omap_lookup_seq {A} (l pre : list A) :
  omap (fun i => (pre ++ l) !! i) (seq (length pre) (length l)) = l.
Proof.
  revert pre. induction l as [|x l IH]; intros pre; [done|]. simpl.
  rewrite lookup_app_r by lia. rewrite Nat.sub_diag. simpl. f_equal.
  specialize (IH (pre ++ [x])). rewrite length_app in IH. simpl in IH.
  rewrite Nat.add_1_r, <- app_assoc in IH. done.
Qed.

Lemma take_rows_perm df indexer :
  indexer ≡ₚ seq 0 (len df) -> rows (take_rows df indexer) ≡ₚ rows df.
Proof.
  intros Hp. simpl. rewrite Hp.
  pose proof (omap_lookup_seq (rows df) []) as E. simpl in E.
  unfold len. by rewrite E.
Qed.

Lemma omap_lookup_valid {A} (l : list A) (r : list nat) i :
  Forall (fun a => a < length l)%nat r ->
  omap (fun a => l !! a) r !! i = r !! i ≫= (fun a => l !! a).
Proof.
  intros Hr. revert i. induction Hr as [|a r Ha Hr IH]; intros i; [done|].
  simpl. destruct (lookup_lt_is_Some_2 l a Ha) as [x Hx]. rewrite Hx.
  destruct i as [|i]; simpl; [done|]. apply IH.
Qed.

Section SortProps.
Context `{Host}.

Lemma nargsort_perm keys ascending r :
  nargsort keys ascending = Ok r -> r ≡ₚ seq 0 (length keys).
Proof.
  unfold nargsort.
  set (idx := seq 0 (length keys)).
  set (missing := fun i => isna (nth i keys VNull)).
  set (idx0 := List.filter (fun i => negb (missing i)) idx).
  set (idx' := if ascending then idx0 else reverse idx0).
  destruct (argsort _) as [p|] eqn:Ep; [|done]. simpl. intros [= <-].
  apply argsort_perm in Ep. rewrite length_fmap in Ep.
  assert ((fun j => nth j idx' 0%nat) <$> p ≡ₚ idx0) as Hp.
  { rewrite Ep, fmap_nth_seq. unfold idx'. destruct ascending; [done|].
    apply reverse_Permutation. }
  transitivity (idx0 ++ List.filter missing idx); [|apply filter_complement_perm].
  apply Permutation_app; [|done].
  destruct ascending; [done|]. by rewrite reverse_Permutation.
Qed.

Lemma value_leb_not_gt x y : value_leb x y = true -> value_compare x y <> Gt.
Proof. unfold value_leb. by destruct (value_compare x y). Qed.

(** The keys at consecutive positions of the indexer are in order. *)
Lemma nargsort_adjacent keys ascending r i a b x y :
  nargsort keys ascending = Ok r ->
  r !! i = Some a -> r !! S i = Some b ->
  keys !! a = Some x -> keys !! b = Some y ->
  sort_cell_compare ascending x y <> Gt.
Proof.
  intros Hr Ha Hb Hx Hy. unfold nargsort in Hr. cbv zeta in Hr.
  destruct (argsort _) as [p|] eqn:Ep in Hr; [|done]. simpl in Hr. injection Hr as <-.
  set (idx := seq 0 (length keys)) in *.
  set (missing := fun i => isna (nth i keys VNull)) in *.
  set (idx0 := List.filter (fun i => negb (missing i)) idx) in *.
  set (nan_idx := List.filter missing idx) in *.
  set (idx' := if ascending then idx0 else reverse idx0) in *.
  set (non_nans := (fun i => nth i keys VNull) <$> idx') in *.
  set (indexer0 := (fun j => nth j idx' 0%nat) <$> p) in *.
  set (indexer := if ascending then indexer0 else reverse indexer0) in *.
  change ((indexer ++ nan_idx) !! i = Some a) in Ha.
  change ((indexer ++ nan_idx) !! S i = Some b) in Hb.
  change (argsort non_nans = Ok p) in Ep.
  assert (length non_nans = length idx') as Hlen by (unfold non_nans; by rewrite length_fmap).
  assert (p ≡ₚ seq 0 (length idx')) as Hperm.
  { rewrite <- Hlen. exact (argsort_perm _ _ Ep). }
  (* what the two parts hold *)
  assert (forall c, c ∈ idx' -> missing c = false) as Hidx'.
  { intros c Hc. assert (c ∈ idx0) as Hc0.
    { unfold idx' in Hc. destruct ascending; [done|]. by rewrite elem_of_reverse in Hc. }
    apply list_elem_of_In, filter_In in Hc0 as [_ Hm]. by apply negb_true_iff. }
  assert (forall c, c ∈ nan_idx -> missing c = true) as Hnan.
  { intros c Hc. by apply list_elem_of_In, filter_In in Hc as [_ Hm]. }
  assert (forall j c, indexer0 !! j = Some c ->
            exists k, p !! j = Some k /\ idx' !! k = Some c
                      /\ non_nans !! k = Some (nth c keys VNull)) as Hk.
  { intros j c Hj. unfold indexer0 in Hj. rewrite list_lookup_fmap in Hj.
    destruct (p !! j) as [k|] eqn:Epj; [|done]. simpl in Hj. injection Hj as <-.
    assert (k < length idx')%nat as Hlt.
    { apply list_elem_of_lookup_2 in Epj. rewrite Hperm in Epj.
      apply elem_of_seq in Epj. lia. }
    destruct (lookup_lt_is_Some_2 _ _ Hlt) as [c Hc].
    exists k. split; [done|]. rewrite nth_lookup, Hc. simpl. split; [done|].
    unfold non_nans. by rewrite list_lookup_fmap, Hc. }
  assert (forall c v, keys !! c = Some v -> nth c keys VNull = v) as Hnth.
  { intros c v Hc. by rewrite nth_lookup, Hc. }
  assert (forall j c v, indexer !! j = Some c -> keys !! c = Some v -> isna v = false) as Hpresent.
  { intros j c v Hj Hc. rewrite <- (Hnth _ _ Hc). apply Hidx'.
    assert (c ∈ indexer0) as Hin.
    { apply list_elem_of_lookup_2 in Hj. unfold indexer in Hj.
      destruct ascending; [done|]. by rewrite elem_of_reverse in Hj. }
    apply list_elem_of_lookup in Hin as [j' Hj'].
    destruct (Hk _ _ Hj') as (k & _ & Hc' & _). by eapply list_elem_of_lookup_2. }
  assert (forall j c v, nan_idx !! j = Some c -> keys !! c = Some v -> isna v = true) as Habsent.
  { intros j c v Hj Hc. rewrite <- (Hnth _ _ Hc). apply Hnan.
    by eapply list_elem_of_lookup_2. }
  assert (length indexer = length p) as Hlen'.
  { unfold indexer, indexer0. destruct ascending;
      rewrite ?length_reverse, length_fmap; done. }
  unfold sort_cell_compare.
  destruct (decide (S i < length indexer)%nat) as [Hin|Hout].
  - assert (i < length indexer)%nat as Hi by lia.
    rewrite lookup_app_l in Ha by exact Hi.
    rewrite lookup_app_l in Hb by exact Hin.
    rewrite (Hpresent _ _ _ Ha Hx), (Hpresent _ _ _ Hb Hy).
    unfold indexer in Ha, Hb, Hin. destruct ascending.
    + destruct (Hk _ _ Ha) as (k1 & Hp1 & _ & Hn1).
      destruct (Hk _ _ Hb) as (k2 & Hp2 & _ & Hn2).
      rewrite (Hnth _ _ Hx) in Hn1. rewrite (Hnth _ _ Hy) in Hn2.
      apply value_leb_not_gt. by eapply (argsort_sorted non_nans p i k1 k2).
    + rewrite length_reverse in Hin.
      rewrite reverse_lookup in Ha, Hb by lia.
      destruct (Hk _ _ Ha) as (k1 & Hp1 & _ & Hn1).
      destruct (Hk _ _ Hb) as (k2 & Hp2 & _ & Hn2).
      rewrite (Hnth _ _ Hx) in Hn1. rewrite (Hnth _ _ Hy) in Hn2.
      apply value_leb_not_gt.
      replace (length indexer0 - S i)%nat with (S (length indexer0 - S (S i))) in Hp1 by lia.
      by eapply (argsort_sorted non_nans p _ k2 k1).
  - assert (length indexer <= S i)%nat as Hout' by lia.
    rewrite lookup_app_r in Hb by exact Hout'.
    rewrite (Habsent _ _ _ Hb Hy).
    destruct (decide (i < length indexer)%nat) as [Hi|Hi].
    + rewrite lookup_app_l in Ha by exact Hi. by rewrite (Hpresent _ _ _ Ha Hx).
    + assert (length indexer <= i)%nat as Hi' by lia.
      rewrite lookup_app_r in Ha by exact Hi'. by rewrite (Habsent _ _ _ Ha Hx).
Qed.

End SortProps.

(** ** Running a stage on the store *)

(** A stage that reads its frame, computes a new one and allocates it. *)
Lemma run_frame_stage (F : DataFrame -> Result DataFrame) df d w :
  heap w !! df = Some d ->
  (d <- deref df ;; out <- lift (F d) ;; new_frame out) w =
  match F d with
  | Ok out => (Ok (length (heap w)), mkWorld (heap w ++ [out]) (rng w))
  | Raise e => (Raise e, w)
  end.
Proof.
  intros Hd. unfold mbind, deref, lift, new_frame. rewrite Hd.
  by destruct (F d).
Qed.

Lemma run_frame_stage_ok (F : DataFrame -> Result DataFrame) df d w r w' :
  heap w !! df = Some d ->
  (d <- deref df ;; out <- lift (F d) ;; new_frame out) w = (Ok r, w') ->
  exists out, F d = Ok out /\ heap w' !! r = Some out
              /\ w' = mkWorld (heap w ++ [out]) (rng w).
Proof.
  intros Hd. rewrite (run_frame_stage _ _ _ _ Hd).
  destruct (F d) as [out|]; [|done]. intros [= <- <-].
  exists out. split; [done|]. split; [|done]. simpl.
  by rewrite lookup_app_r, Nat.sub_diag.
Qed.

(** ** The [sort] stage *)

Section SortStage.
Context `{Host}.

Lemma sort_key_single ascending x y :
  sort_cell_compare ascending x y <> Gt -> sort_key_leb ascending [x] [y] = true.
Proof.
  unfold sort_key_leb. simpl. by destruct (sort_cell_compare ascending x y).
Qed.

Lemma sort_key_leb_total ascending k1 k2 :
  sort_key_leb ascending k1 k2 = false -> sort_key_leb ascending k2 k1 = true.
Proof. apply (leb_of_total _ (sort_key_compare_ordering ascending)). Qed.

Lemma sort_key_leb_trans ascending k1 k2 k3 :
  sort_key_leb ascending k1 k2 = true -> sort_key_leb ascending k2 k3 = true ->
  sort_key_leb ascending k1 k3 = true.
Proof. apply (leb_of_trans _ (sort_key_compare_ordering ascending)). Qed.

(** What [sort_values] returns: the same rows, in the order of their keys;
    on two columns or more, rows whose keys tie keep their order. *)
Lemma sort_values_spec df by_ ascending out :
  sort_values df by_ ascending = Ok out ->
  exists ps,
    rmap (as_label df) by_ = Ok ps
    /\ columns out = columns df
    /\ rows out ≡ₚ rows df
    /\ (forall i r1 r2,
          rows out !! i = Some r1 -> rows out !! S i = Some r2 ->
          sort_key_leb ascending (key_of ps r1) (key_of ps r2) = true)
    /\ ((2 <= length ps)%nat ->
        forall k,
          List.filter (fun r => key_ties ascending k (key_of ps r)) (rows out)
          = List.filter (fun r => key_ties ascending k (key_of ps r)) (rows df)).
Proof.
  unfold sort_values. destruct (rmap (as_label df) by_) as [ps|] eqn:Eps; [|done].
  simpl. intros Hs. exists ps. split; [done|].
  destruct ps as [|p [|p' ps]].
  - injection Hs as <-. split; [done|]. split; [done|]. split; [done|].
    intros Hlen. simpl in Hlen. lia.
  - destruct (nargsort _ ascending) as [indexer|] eqn:En; [|done].
    simpl in Hs. injection Hs as <-.
    pose proof (nargsort_perm _ _ _ En) as Hperm. rewrite length_fmap in Hperm.
    split; [done|]. split; [by apply take_rows_perm|].
    split; [|intros Hlen; simpl in Hlen; lia].
    intros i r1 r2 H1 H2. simpl in H1, H2.
    assert (Forall (fun a => a < length (rows df))%nat indexer) as Hvalid.
    { apply Forall_forall. intros a Ha. rewrite Hperm in Ha.
      apply elem_of_seq in Ha. lia. }
    rewrite omap_lookup_valid in H1, H2 by done.
    destruct (indexer !! i) as [a|] eqn:Ea; [|done].
    destruct (indexer !! S i) as [b|] eqn:Eb; [|done]. simpl in H1, H2.
    apply sort_key_single.
    eapply (nargsort_adjacent _ _ _ _ _ _ _ _ En Ea Eb);
      by rewrite list_lookup_fmap, ?H1, ?H2.
  - unfold lexsort_rows in Hs. destruct (existsb _ _); [done|]. simpl in Hs.
    injection Hs as <-. simpl. split; [done|].
    split; [apply stable_sort_perm|]. split.
    + intros i r1 r2 H1 H2.
      eapply (Sorted_adjacent _ _ _ _ _ (stable_sort_sorted _ _ (rows df)) H1 H2).
    + intros _ k. apply stable_sort_filter.
      intros r1 r2 [_ T1]%andb_true_iff [T2 _]%andb_true_iff.
      by eapply sort_key_leb_trans.
  Unshelve. intros ra rb. apply sort_key_leb_total.
Qed.

(** C5, as the code has it.  [sort] on the listed columns returns the rows
    of its input, reordered so that the keys of consecutive rows are in
    order: ascending, or descending when [order] is [desc] in any letter
    case, column by column, every missing value after every present one.
    When two columns or more are listed, rows whose keys tie keep their
    relative order.  (On one column the order is the one numpy's
    [argsort] returns, a permutation that sorts: the contract of the
    [Host].) *)
Theorem sort_sorted (w : World) (df : loc) (d : DataFrame) (args : list Value)
    (kwargs : gmap string Value) (r : loc) (w' : World) :
  heap w !! df = Some d ->
  args <> [] ->
  _sort df args kwargs w = (Ok r, w') ->
  exists out ps,
    heap w' !! r = Some out
    /\ sort_positions d args = Ok ps
    /\ columns out = columns d
    /\ rows out ≡ₚ rows d
    /\ (forall i r1 r2,
          rows out !! i = Some r1 -> rows out !! S i = Some r2 ->
          sort_key_leb (sort_ascending kwargs) (key_of ps r1) (key_of ps r2) = true)
    /\ ((2 <= length ps)%nat ->
        forall k,
          List.filter (fun r => key_ties (sort_ascending kwargs) k (key_of ps r)) (rows out)
          = List.filter (fun r => key_ties (sort_ascending kwargs) k (key_of ps r)) (rows d)).
Proof.
  intros Hd Hargs Hrun. destruct args as [|a args]; [done|].
  unfold _sort in Hrun.
  apply (run_frame_stage_ok (fun d => sort_frame d (a :: args) kwargs) _ _ _ _ _ Hd)
    in Hrun as (out & Hout & Hr & _).
  unfold sort_frame in Hout. unfold sort_ascending.
  destruct (kwargs !! "order") as [[| | | | |order|]|]; simpl in Hout; try done.
  - apply sort_values_spec in Hout as (ps & Hps & Hrest). by exists out, ps.
  - apply sort_values_spec in Hout as (ps & Hps & Hrest). by exists out, ps.
Qed.

End SortStage.

(** *** Examples of [sort] *)

Lemma sort_sorted_witness :
  let w := mkWorld [sort_example] 0 in
  let w' := mkWorld [sort_example; sort_example_sorted] 0 in
  let args := [VStr "x"] in
  heap w !! 0%nat = Some sort_example
  /\ _sort (H:=example_host) 0%nat args ∅ w = (Ok 1%nat, w')
  /\ exists out ps,
       heap w' !! 1%nat = Some out
       /\ sort_positions (H:=example_host) sort_example args = Ok ps
       /\ columns out = columns sort_example
       /\ rows out ≡ₚ rows sort_example
       /\ (forall i r1 r2,
             rows out !! i = Some r1 -> rows out !! S i = Some r2 ->
             sort_key_leb (sort_ascending ∅) (key_of ps r1) (key_of ps r2) = true)
       /\ ((2 <= length ps)%nat ->
           forall k,
             List.filter (fun r => key_ties (sort_ascending ∅) k (key_of ps r)) (rows out)
             = List.filter (fun r => key_ties (sort_ascending ∅) k (key_of ps r))
                           (rows sort_example)).
Proof.
  cbv zeta. split; [reflexivity|]. split; [vm_compute; reflexivity|].
  apply (sort_sorted (H:=example_host) (mkWorld [sort_example] 0) 0%nat sort_example
           [VStr "x"] ∅ 1%nat
           (mkWorld [sort_example; sort_example_sorted] 0)).
  - reflexivity.
  - discriminate.
  - vm_compute; reflexivity.
Defined.

(** On two columns the rows are put in the order of the first and, where
    they tie on it, of the second; rows that tie on both keep their
    order.  In descending order the missing value is still last. *)
Example sort_two_columns :
  (label <$>
   match sort_frame (H:=example_host) pairs_example [VStr "x"; VStr "id"] ∅ with
   | Ok out => rows out
   | Raise _ => []
   end) = [4; 1; 3; 0; 2]
  /\ (label <$>
      match sort_frame (H:=example_host) pairs_example [VStr "x"; VStr "id"]
                       {[ "order" := VStr "DESC" ]} with
      | Ok out => rows out
      | Raise _ => []
      end) = [0; 3; 1; 4; 2]
  /\ (label <$>
      match sort_frame (H:=example_host) pairs_example [VStr "x"; VStr "x"] ∅ with
      | Ok out => rows out
      | Raise _ => []
      end) = [1; 4; 0; 3; 2].
Proof. repeat split; vm_compute; reflexivity. Qed.

(** C5 as stated fails twice.  A missing value is sorted last, and the
    pair it forms with the value before it is not in the order [<=]
    (no comparison with a missing value holds).  And on a single column
    rows with equal keys do not keep their order: pandas sorts one column
    with numpy's default quicksort, which on the 18 rows of
    [ties_example], all with the same [status], exchanges the rows 1 to 15
    around the pivot (no key being less than another, every scan of the
    partition stops at once and every pair it stops at is swapped). *)
Lemma sort_claim_counterexample :
  sort_frame (H:=example_host)
    (mkFrame [("x", Float64)] [mkRow 0 [VNull]; mkRow 1 [VFloat 1]]) [VStr "x"] ∅
  = Ok (mkFrame [("x", Float64)] [mkRow 1 [VFloat 1]; mkRow 0 [VNull]])
  /\ compare_cell LE (VFloat 1) VNull = Ok false
  /\ (label <$> rows ties_example)
     = [0; 1; 2; 3; 4; 5; 6; 7; 8; 9; 10; 11; 12; 13; 14; 15; 16; 17]
  /\ Forall (fun r => cell 1 r = VStr "a") (rows ties_example)
  /\ (label <$>
      match sort_frame (H:=example_host) ties_example [VStr "status"] ∅ with
      | Ok out => rows out
      | Raise _ => []
      end) = [0; 15; 14; 13; 12; 11; 10; 9; 8; 7; 6; 5; 4; 3; 2; 1; 16; 17]
  /\ npy_aquicksort (fun _ _ => false) 18
     = [0; 15; 14; 13; 12; 11; 10; 9; 8; 7; 6; 5; 4; 3; 2; 1; 16; 17]%nat.
Proof.
  split; [vm_compute; reflexivity|]. split; [vm_compute; reflexivity|].
  split; [vm_compute; reflexivity|].
  split; [|split; vm_compute; reflexivity].
  apply Forall_forall. intros r Hr. apply list_elem_of_fmap in Hr as (i & -> & _). done.
Qed.

(** ** [where]: soundness *)



Section WhereSound.
Context `{Host}.



(** *** The code reads the predicates the specification words *)




(** *** The flags of the code are the answers of the specification *)









End WhereSound.

(** *** Examples of [where] *)


Example where_example :
  where_frame (H:=example_host) orders "status = success and value > 150"
  = Ok (mkFrame (columns orders) [mkRow 2 [VInt 3; VStr "success"; VInt 200]]).
Proof. vm_compute. reflexivity. Qed.


(** A missing cell is cast to a text like any other: a [None] of the
    column starts with [N]. *)
Example where_missing_cell :
  where_frame (H:=example_host)
    (mkFrame [("name", ObjectT)] [mkRow 0 [VNone]; mkRow 1 [VStr "Ada"]; mkRow 2 [VNull]])
    "name startswith N"
  = Ok (mkFrame [("name", ObjectT)] [mkRow 0 [VNone]]).
Proof. vm_compute. reflexivity. Qed.

(** A frame whose index is no longer the default one (here, what a first
    [where] left) makes a second [where] fail when a label falls outside
    the positions. *)
Example where_unaligned :
  (where_frame (H:=example_host)
     (mkFrame (columns orders) [mkRow 0 [VInt 1; VStr "success"; VInt 120];
                                mkRow 2 [VInt 3; VStr "success"; VInt 200]])
     "value > 150")
  = Raise (mkExn IndexingError
             "Unalignable boolean Series provided as indexer (index of the boolean Series and of the indexed object do not match).").
Proof. vm_compute. reflexivity. Qed.

(** ** [where]: [==] and [=] *)

Section WhereEq.
Context `{Host}.

Lemma where_frame_eqeq df condition :
  Py.contains "===" condition = false ->
  where_frame df condition = where_frame df (Py.replace "==" "=" condition).
Proof.
  intros H3. unfold where_frame, where_conditions.
  by rewrite replace_eqeq_idempotent.
Qed.

(** C9, as the code has it.  [where] first rewrites [==] to [=], reading
    the condition from left to right; on a condition string without a run
    of three [=] the rewritten string is left unchanged by a second
    rewrite, so the stage returns the same on both. *)
Theorem where_eqeq (w : World) (df : loc) (condition : string)
    (rest : list Value) (kwargs : gmap string Value) :
  Py.contains "===" condition = false ->
  _where df (VStr condition :: rest) kwargs w
  = _where df (VStr (Py.replace "==" "=" condition) :: rest) kwargs w.
Proof.
  intros H3. unfold _where, mbind, deref.
  destruct (heap w !! df) as [d|]; [|done].
  by rewrite <- where_frame_eqeq.
Qed.

End WhereEq.

Lemma where_eqeq_witness :
  let w := mkWorld [orders] 0 in
  Py.contains "===" "status == success" = false
  /\ Py.replace "==" "=" "status == success" = "status = success"
  /\ _where (H:=example_host) 0%nat [VStr "status == success"] ∅ w
     = _where (H:=example_host) 0%nat [VStr "status = success"] ∅ w.
Proof.
  cbv zeta. split; [reflexivity|]. split; [reflexivity|].
  exact (where_eqeq (H:=example_host) (mkWorld [orders] 0) 0%nat
           "status == success" [] ∅ eq_refl).
Defined.

(** C9 as stated fails on a run of three [=]: the rewrite turns [id === 1]
    into [id == 1], which the stage reads as the column [id] compared with
    the text [= 1] and so keeps no row, while on [id == 1] itself the
    rewrite gives [id = 1] and the first row is kept. *)
Lemma where_eqeq_counterexample :
  let w := mkWorld [orders] 0 in
  Py.replace "==" "=" "id === 1" = "id == 1"
  /\ _where (H:=example_host) 0%nat [VStr "id === 1"] ∅ w
     = (Ok 1%nat, mkWorld [orders; mkFrame (columns orders) []] 0)
  /\ _where (H:=example_host) 0%nat [VStr "id == 1"] ∅ w
     = (Ok 1%nat,
        mkWorld [orders;
                 mkFrame (columns orders) [mkRow 0 [VInt 1; VStr "success"; VInt 120]]] 0).
Proof. cbv zeta. repeat split; vm_compute; reflexivity. Qed.

(** ** The [extend] stage *)

Lemma mfor_app {A} (l1 l2 : list A) (body : A -> M unit) w :
  mfor (l1 ++ l2) body w = (_ <- mfor l1 body ;; mfor l2 body) w.
Proof.
  revert w. induction l1 as [|x l1 IH]; intros w; simpl.
  - reflexivity.
  - unfold mbind. destruct (body x w) as [[[]|e] w1]; [|reflexivity].
    rewrite IH. reflexivity.
Qed.

Section ExtendProps.
Context `{Host}.

(** A round of the loop never raises; it leaves everything but the object
    [result] as it was. *)
Lemma extend_step_total df result arg w d :
  heap w !! df = Some d -> result <> df ->
  exists w', extend_step df result arg w = (Ok tt, w')
             /\ heap w' !! df = Some d
             /\ rng w' = rng w
             /\ (heap w' = heap w
                 \/ exists x, heap w' = <[result := x]> (heap w)).
Proof.
  intros Hd Hne. unfold extend_step.
  destruct arg as [| | | | |arg|]; try (exists w; by auto).
  destruct (Py.split1 "=" arg) as [col_name [expression|]]; [|exists w; by auto].
  unfold try_except, mbind, deref, lift, update_frame, mret. rewrite Hd.
  destruct (eval_expression d (Py.strip expression)) as [[col|]|e];
    try (exists w; by auto).
  destruct (heap w !! result) as [r|] eqn:Er; [|exists w; by auto].
  eexists. split; [done|]. simpl. split; [|split; [done|right; by eexists]].
  by rewrite list_lookup_insert_ne.
Qed.

(** A round on an argument whose evaluation fails changes nothing. *)
Lemma extend_step_fails df result arg w d :
  heap w !! df = Some d -> extend_fails d arg = true ->
  extend_step df result arg w = (Ok tt, w).
Proof.
  intros Hd Hf. unfold extend_step, extend_fails in *.
  destruct arg as [| | | | |arg|]; try done.
  destruct (Py.split1 "=" arg) as [col_name [expression|]]; [|done].
  unfold try_except, mbind, deref, lift, mret. rewrite Hd.
  by destruct (eval_expression d (Py.strip expression)) as [[col|]|e].
Qed.

Lemma extend_loop_total df result d : forall args w,
  heap w !! df = Some d -> result <> df ->
  exists w', mfor args (extend_step df result) w = (Ok tt, w')
             /\ heap w' !! df = Some d
             /\ rng w' = rng w
             /\ (heap w' = heap w
                 \/ exists x, heap w' = <[result := x]> (heap w)).
Proof.
  induction args as [|arg args IH]; intros w Hd Hne; simpl.
  - exists w. by auto.
  - unfold mbind.
    destruct (extend_step_total df result arg w d Hd Hne)
      as (w1 & -> & Hd1 & Hr1 & Hh1).
    destruct (IH w1 Hd1 Hne) as (w2 & -> & Hd2 & Hr2 & Hh2).
    exists w2. split; [done|]. split; [done|]. split; [congruence|].
    destruct Hh1 as [E1|[x E1]], Hh2 as [E2|[y E2]].
    + left. congruence.
    + right. exists y. by rewrite E2, E1.
    + right. exists x. congruence.
    + right. exists y. by rewrite E2, E1, list_insert_insert_eq.
Qed.

Lemma extend_loop_skip df result d arg post : forall pre w,
  heap w !! df = Some d -> result <> df ->
  extend_fails d arg = true ->
  mfor (pre ++ arg :: post) (extend_step df result) w
  = mfor (pre ++ post) (extend_step df result) w.
Proof.
  intros pre w Hd Hne Hf. rewrite !mfor_app. unfold mbind.
  destruct (extend_loop_total df result d pre w Hd Hne) as (w1 & -> & Hd1 & _).
  simpl. unfold mbind. by rewrite (extend_step_fails _ _ _ _ _ Hd1 Hf).
Qed.

(** C6.  [extend] never raises.  An argument [name=expression] whose
    evaluation fails is skipped: the stage returns what it returns
    without that argument, so the target column is not added and the
    pre-existing columns and those the other arguments compute are as
    they would be without it. *)
Theorem extend_fail_silent (w : World) (df : loc) (d : DataFrame)
    (pre post : list Value) (arg : Value) (kwargs : gmap string Value) :
  heap w !! df = Some d ->
  extend_fails d arg = true ->
  (exists r w' out,
     _extend df (pre ++ arg :: post) kwargs w = (Ok r, w')
     /\ heap w' !! r = Some out)
  /\ _extend df (pre ++ arg :: post) kwargs w = _extend df (pre ++ post) kwargs w.
Proof.
  intros Hd Hf.
  assert (df < length (heap w))%nat as Hlt by (by eapply lookup_lt_Some).
  assert (forall args,
            _extend df args kwargs w
            = match mfor args (extend_step df (length (heap w)))
                         (mkWorld (heap w ++ [d]) (rng w)) with
              | (Ok _, w') => (Ok (length (heap w)), w')
              | (Raise e, w') => (Raise e, w')
              end) as Hrun.
  { intros args. unfold _extend, df_copy, mbind, deref, new_frame, mret.
    rewrite Hd. by destruct (mfor args _ _) as [[[]|] ?]. }
  assert (heap (mkWorld (heap w ++ [d]) (rng w)) !! df = Some d) as Hd'.
  { simpl. by rewrite lookup_app_l. }
  assert (length (heap w) <> df) as Hne by lia.
  split.
  - rewrite Hrun.
    destruct (extend_loop_total df (length (heap w)) d (pre ++ arg :: post) _ Hd' Hne)
      as (w' & -> & _ & _ & Hh).
    simpl in Hh. destruct Hh as [Hh|[x Hh]].
    + exists (length (heap w)), w', d. split; [done|].
      by rewrite Hh, lookup_app_r, Nat.sub_diag.
    + exists (length (heap w)), w', x. split; [done|].
      rewrite Hh. apply list_lookup_insert_eq. rewrite length_app. simpl. lia.
  - rewrite !Hrun. by rewrite (extend_loop_skip _ _ d arg post pre _ Hd' Hne Hf).
Qed.

End ExtendProps.

Lemma extend_fail_silent_witness :
  let w := mkWorld [orders] 0 in
  let pre := [VStr "total=id+value"] in
  let post := [VStr "loud=toupper(status)"] in
  let arg := VStr "low=tolower(state)" in
  heap w !! 0%nat = Some orders
  /\ extend_fails (H:=example_host) orders arg = true
  /\ ((exists r w' out,
         _extend (H:=example_host) 0%nat (pre ++ arg :: post) ∅ w = (Ok r, w')
         /\ heap w' !! r = Some out)
      /\ _extend (H:=example_host) 0%nat (pre ++ arg :: post) ∅ w
         = _extend (H:=example_host) 0%nat (pre ++ post) ∅ w).
Proof.
  cbv zeta. split; [reflexivity|]. split; [reflexivity|].
  exact (extend_fail_silent (H:=example_host) (mkWorld [orders] 0) 0%nat orders
           [VStr "total=id+value"] [VStr "loud=toupper(status)"]
           (VStr "low=tolower(state)") ∅ eq_refl eq_refl).
Defined.

Example extend_example :
  (_extend (H:=example_host) 0%nat
     [VStr "total=id+value"; VStr "low=tolower(state)"; VStr "loud=toupper(status)";
      VStr "odd=status+id"; VStr "shape=id / 2"] ∅ (mkWorld [orders] 0)).2
  = mkWorld
      [orders;
       mkFrame [("id", Int64); ("status", ObjectT); ("value", Int64);
                ("total", Int64); ("loud", ObjectT)]
               [mkRow 0 [VInt 1; VStr "success"; VInt 120; VInt 121; VStr "SUCCESS"];
                mkRow 1 [VInt 2; VStr "fail"; VInt 80; VInt 82; VStr "FAIL"];
                mkRow 2 [VInt 3; VStr "success"; VInt 200; VInt 203; VStr "SUCCESS"]]] 0.
Proof. vm_compute. reflexivity. Qed.

(** ** The store is only extended *)

Lemma frame_mret {A} (a : A) : frame_ok (mret a).
Proof. by intros w res w' [= _ <-]. Qed.

Lemma frame_mraise {A} e : frame_ok (@mraise A e).
Proof. by intros w res w' [= _ <-]. Qed.

Lemma frame_lift {A} (r : Result A) : frame_ok (lift r).
Proof. by intros w res w' [= _ <-]. Qed.

Lemma frame_deref l : frame_ok (deref l).
Proof.
  intros w res w'. unfold deref. by destruct (heap w !! l); intros [= _ <-].
Qed.

Lemma frame_new_frame df : frame_ok (new_frame df).
Proof. intros w res w' [= _ <-]. simpl. by apply prefix_app_r. Qed.

Lemma frame_next_random : frame_ok next_random.
Proof. by intros w res w' [= _ <-]. Qed.

Lemma frame_mbind {A B} (m : M A) (k : A -> M B) :
  frame_ok m -> (forall a, frame_ok (k a)) -> frame_ok (mbind m k).
Proof.
  intros Hm Hk w res w'. unfold mbind.
  destruct (m w) as [[a|e] w1] eqn:E.
  - intros Hr. etransitivity; [by eapply Hm|by eapply Hk].
  - intros [= _ <-]. by eapply Hm.
Qed.

Lemma frame_try_except {A} (body : M A) (handler : Exn -> M A) :
  frame_ok body -> (forall e, frame_ok (handler e)) -> frame_ok (try_except body handler).
Proof.
  intros Hb Hh w res w'. unfold try_except.
  destruct (body w) as [[a|e] w1] eqn:E.
  - intros [= _ <-]. by eapply Hb.
  - intros Hr. etransitivity; [by eapply Hb|by eapply Hh].
Qed.

Lemma frame_df_copy l : frame_ok (df_copy l).
Proof.
  apply frame_mbind; [apply frame_deref|]. intros d. apply frame_new_frame.
Qed.

Create HintDb frame.

#[local] Hint Resolve frame_mret frame_mraise frame_lift frame_deref
  frame_new_frame frame_next_random frame_df_copy : frame.

(** Takes a stage apart along its binds and case distinctions. *)
Ltac frame_steps :=
  repeat first
    [ progress auto with frame
    | apply frame_mbind; [|intros ?]
    | match goal with
      | |- frame_ok (match ?x with _ => _ end) => destruct x
      | |- frame_ok (if ?b then _ else _) => destruct b
      end ].

Section Frame.
Context `{Host}.

Lemma frame__where df args kwargs : frame_ok (_where df args kwargs).
Proof. unfold _where. frame_steps. Qed.

Lemma frame__summarize df args kwargs : frame_ok (_summarize df args kwargs).
Proof. unfold _summarize. frame_steps. Qed.

Lemma frame__project df args kwargs : frame_ok (_project df args kwargs).
Proof. unfold _project. frame_steps. Qed.

Lemma frame__sort df args kwargs : frame_ok (_sort df args kwargs).
Proof. unfold _sort. frame_steps. Qed.

Lemma frame__take df args kwargs : frame_ok (_take df args kwargs).
Proof. unfold _take. frame_steps. Qed.

Lemma frame__count df args kwargs : frame_ok (_count df args kwargs).
Proof. unfold _count. frame_steps. Qed.

Lemma frame__distinct df args kwargs : frame_ok (_distinct df args kwargs).
Proof. unfold _distinct. frame_steps. Qed.

Lemma frame__sample df args kwargs : frame_ok (_sample df args kwargs).
Proof. unfold _sample. frame_steps. Qed.

Lemma frame__top df args kwargs : frame_ok (_top df args kwargs).
Proof. unfold _top. frame_steps. Qed.

Lemma frame__make_list df args kwargs : frame_ok (_make_list df args kwargs).
Proof. unfold _make_list. frame_steps. Qed.

Lemma frame__mv_expand df args kwargs : frame_ok (_mv_expand df args kwargs).
Proof. unfold _mv_expand. frame_steps. Qed.

Lemma frame__join df args kwargs : frame_ok (_join df args kwargs).
Proof. apply frame_mret. Qed.

Lemma frame__union df args kwargs : frame_ok (_union df args kwargs).
Proof. apply frame_mret. Qed.

(** [_extend] writes, but only into the copy it has made. *)
Lemma frame__extend df args kwargs : frame_ok (_extend df args kwargs).
Proof.
  intros w res w'. unfold _extend, df_copy, mbind at 1 2, deref, new_frame.
  destruct (heap w !! df) as [d|] eqn:Hd; [|by intros [= _ <-]].
  assert (heap (mkWorld (heap w ++ [d]) (rng w)) !! df = Some d) as Hd'.
  { simpl. rewrite lookup_app_l; [done|]. by eapply lookup_lt_Some. }
  assert (length (heap w) <> df) as Hne.
  { apply lookup_lt_Some in Hd. lia. }
  unfold mbind.
  destruct (extend_loop_total df (length (heap w)) d args _ Hd' Hne)
    as (w1 & -> & _ & _ & Hh).
  intros [= _ <-]. simpl in Hh. destruct Hh as [->|[x ->]].
  - by apply prefix_app_r.
  - rewrite insert_app_r_alt, Nat.sub_diag by lia. simpl. by apply prefix_app_r.
Qed.

Lemma frame_call (f : Stage) (name : Method f) result args kwargs :
  frame_ok (f result args kwargs) -> frame_ok (call f result args kwargs).
Proof. intros Hf. unfold call. frame_steps. Qed.

(** Every stage of the registry leaves the objects it finds as they are. *)
Lemma frame_functions func_name f :
  lookup_function func_name _initialize_functions = Some f ->
  forall df args kwargs, frame_ok (f df args kwargs).
Proof.
  unfold _initialize_functions. cbn [lookup_function].
  repeat (destruct (String.eqb _ func_name);
          [intros [= <-]; intros;
           first [ apply frame__where | apply frame__summarize | apply frame__project
                 | apply frame__extend | apply frame__sort | apply frame__take
                 | apply frame__count | apply frame__distinct | apply frame__sample
                 | apply frame__top | apply frame__make_list | apply frame__mv_expand
                 | apply frame__join | apply frame__union ]|]).
  done.
Qed.

Lemma frame_run_operations operations : forall result,
  frame_ok (run_operations operations result).
Proof.
  induction operations as [|operation rest IH]; intros result; cbn [run_operations].
  - apply frame_mret.
  - destruct (lookup_function (op_function operation) _initialize_functions)
      as [f|] eqn:Ef; [|apply frame_mraise].
    apply frame_mbind; [|by intros ?].
    apply frame_call. by eapply frame_functions.
Qed.

Lemma frame_execute_query self query : frame_ok (execute_query self query).
Proof.
  unfold execute_query. apply frame_try_except; [|intros e; apply frame_mraise].
  apply frame_mbind; [apply frame_df_copy|]. intros r. apply frame_run_operations.
Qed.

(** C8.  Whatever the query and whether the call returns or raises, the
    table the engine holds is after the call what it was before; every
    object of the store is. *)
Theorem execute_query_keeps_table (self : KQLEngine) (query : string) (w : World) :
  heap (execute_query self query w).2 !! self_df self = heap w !! self_df self
  /\ heap w `prefix_of` heap (execute_query self query w).2.
Proof.
  destruct (execute_query self query w) as [res w'] eqn:E. simpl.
  pose proof (frame_execute_query self query w res w' E) as Hp.
  split; [|done].
  destruct (heap w !! self_df self) as [d|] eqn:Hd.
  - by eapply prefix_lookup_Some.
  - unfold execute_query, try_except, df_copy, mbind, deref in E.
    rewrite Hd in E. injection E as _ <-. done.
Qed.

End Frame.

(** ** Unknown stage keywords *)

Section Unknown.
Context `{Host}.

Lemma lookup_function_None func_name (functions : list (string * Stage)) :
  lookup_function func_name functions = None <-> func_name ∉ functions.*1.
Proof.
  induction functions as [|[name f] functions IH]; simpl.
  - split; [intros _; apply not_elem_of_nil|done].
  - rewrite not_elem_of_cons. destruct (String.eqb_spec name func_name) as [->|Hne].
    + split; [done|]. by intros [? _].
    + rewrite IH. split; [by split|by intros [_ ?]].
Qed.

Lemma unrecognized func_name :
  func_name ∉ stage_keywords ->
  lookup_function func_name _initialize_functions = None.
Proof. intros Hk. by apply lookup_function_None. Qed.

Lemma run_operations_app pre rest : forall result w,
  run_operations (pre ++ rest) result w =
  match run_operations pre result w with
  | (Ok r, w1) => run_operations rest r w1
  | (Raise e, w1) => (Raise e, w1)
  end.
Proof.
  induction pre as [|operation pre IH]; intros result w; [done|].
  cbn [app run_operations].
  destruct (lookup_function (op_function operation) _initialize_functions) as [f|];
    [|done].
  unfold mbind. destruct (call f (name := _) result _ _ w) as [[r|e] w1]; [|done].
  apply IH.
Qed.

(** C1, as the code has it.  A pipeline with an unrecognized stage keyword
    returns no table: [execute_query] raises one error, whose message is
    [Query execution error: ] followed by a cause.  When the stages before
    the unrecognized keyword succeed on the engine's table [d], the cause
    is [Unknown function: ] followed by the keyword.  When one of them
    fails, the cause is the text of that stage's error, whatever follows
    it in the pipeline: the unrecognized keyword is not reported. *)
Theorem unknown_function (self : KQLEngine) (query : string) (w : World)
    (pre post : list Operation) (operation : Operation) :
  _parse_query query = pre ++ operation :: post ->
  op_function operation ∉ stage_keywords ->
  (exists cause w',
     execute_query self query w
     = (Raise (mkExn ValueError ("Query execution error: " +:+ cause)), w'))
  /\ (forall d r w1,
        heap w !! self_df self = Some d ->
        run_operations pre (length (heap w)) (mkWorld (heap w ++ [d]) (rng w))
        = (Ok r, w1) ->
        execute_query self query w
        = (Raise (mkExn ValueError
                    ("Query execution error: Unknown function: "
                     +:+ op_function operation)), w1))
  /\ (forall d e w1,
        heap w !! self_df self = Some d ->
        run_operations pre (length (heap w)) (mkWorld (heap w ++ [d]) (rng w))
        = (Raise e, w1) ->
        execute_query self query w
        = (Raise (mkExn ValueError ("Query execution error: " +:+ exn_str e)), w1)).
Proof.
  intros Hq Hk. apply unrecognized in Hk.
  unfold execute_query, try_except. rewrite Hq.
  assert (forall result w0,
            exists e w1,
              run_operations (pre ++ operation :: post) result w0 = (Raise e, w1)) as Hraise.
  { intros result w0. rewrite run_operations_app.
    destruct (run_operations pre result w0) as [[r|e] w1]; [|by eexists _, _].
    cbn [run_operations]. rewrite Hk. by eexists _, _. }
  split.
  - unfold mbind at 1. destruct (df_copy (self_df self) w) as [[r|e] w1].
    + destruct (Hraise r w1) as (e & w2 & ->). by eexists _, _.
    + by eexists _, _.
  - split.
    + intros d r w1 Hd Hpre. unfold mbind, df_copy, mbind, deref, new_frame.
      rewrite Hd. rewrite run_operations_app, Hpre.
      cbn [run_operations]. by rewrite Hk.
    + intros d e w1 Hd Hpre. unfold mbind, df_copy, mbind, deref, new_frame.
      rewrite Hd. by rewrite run_operations_app, Hpre.
Qed.

End Unknown.

Lemma unknown_function_witness :
  let self := mkEngine 0%nat "Data" in
  let w := mkWorld [orders] 0 in
  let query := "take 2 | frobnicate 1 | count" in
  let pre := [mkOperation "take" [VInt 2] ∅] in
  let operation := mkOperation "frobnicate" [VInt 1] ∅ in
  let post := [mkOperation "count" [] ∅] in
  (_parse_query (H:=example_host) query = pre ++ (operation :: post))
  /\ (op_function operation ∉ stage_keywords)
  /\ (exists cause w',
        execute_query (H:=example_host) self query w
        = (Raise (mkExn ValueError ("Query execution error: " +:+ cause)), w'))
  /\ (forall d r w1,
        heap w !! self_df self = Some d ->
        run_operations (H:=example_host) pre (length (heap w))
                       (mkWorld (heap w ++ [d]) (rng w)) = (Ok r, w1) ->
        execute_query (H:=example_host) self query w
        = (Raise (mkExn ValueError
                    ("Query execution error: Unknown function: "
                     +:+ op_function operation)), w1))
  /\ (forall d e w1,
        heap w !! self_df self = Some d ->
        run_operations (H:=example_host) pre (length (heap w))
                       (mkWorld (heap w ++ [d]) (rng w)) = (Raise e, w1) ->
        execute_query (H:=example_host) self query w
        = (Raise (mkExn ValueError ("Query execution error: " +:+ exn_str e)), w1)).
Proof.
  cbv zeta.
  assert (_parse_query (H:=example_host) "take 2 | frobnicate 1 | count"
          = [mkOperation "take" [VInt 2] ∅]
            ++ (mkOperation "frobnicate" [VInt 1] ∅ :: [mkOperation "count" [] ∅]))
    as Hq by (vm_compute; reflexivity).
  assert ("frobnicate" ∉ stage_keywords) as Hk.
  { unfold stage_keywords. rewrite !not_elem_of_cons. repeat split; try done.
    apply not_elem_of_nil. }
  split; [exact Hq|]. split; [exact Hk|].
  exact (unknown_function (H:=example_host) (mkEngine 0%nat "Data")
           "take 2 | frobnicate 1 | count" (mkWorld [orders] 0)
           [mkOperation "take" [VInt 2] ∅] [mkOperation "count" [] ∅]
           (mkOperation "frobnicate" [VInt 1] ∅) Hq Hk).
Defined.

(** C1 as stated fails on the message: the error raised for the unknown
    keyword is caught by the handler of [execute_query] and raised again
    with the prefix of every other failure.  And the error of a stage
    that fails before the unknown keyword is reached is the one reported. *)
Lemma unknown_function_counterexample :
  let self := mkEngine 0%nat "Data" in
  let w := mkWorld [orders] 0 in
  (execute_query (H:=example_host) self "frobnicate" w).1
  = Raise (mkExn ValueError "Query execution error: Unknown function: frobnicate")
  /\ (execute_query (H:=example_host) self "where nosuch > 1 | frobnicate" w).1
     = Raise (mkExn ValueError "Query execution error: 'nosuch'").
Proof. cbv zeta. split; vm_compute; reflexivity. Qed.

(** The examples of [get_query_examples] start with the table name, which
    the lexer reads as a stage keyword. *)
Example table_name_is_unknown :
  (execute_query (H:=example_host) (mkEngine 0%nat "Data")
     "Data | where value > 100" (mkWorld [orders] 0)).1
  = Raise (mkExn ValueError "Query execution error: Unknown function: data").
Proof. vm_compute. reflexivity. Qed.

(** ** The [summarize] stage *)

Lemma filter_filter_same {A} (P : A -> bool) l :
  List.filter P (List.filter P l) = List.filter P l.
Proof.
  induction l as [|x l IH]; [done|]. simpl.
  destruct (P x) eqn:E; simpl; [rewrite E; by f_equal|done].
Qed.


Section SummarizeProps.
Context `{Host}.











Lemma without_null_keys_idem df by_ :
  without_null_keys (without_null_keys df by_) by_ = without_null_keys df by_.
Proof.
  unfold without_null_keys at 2 3.
  destruct (group_positions df by_) as [ps|e] eqn:Eps.
  - unfold without_null_keys, group_positions. cbn [columns rows].
    fold (group_positions df by_). rewrite Eps.
    unfold dropna_rows. by rewrite filter_filter_same.
  - unfold without_null_keys. by rewrite Eps.
Qed.






End SummarizeProps.


(** The row with the missing status is in no group: three rows are
    counted, two groups come out. *)
Example summarize_example :
  summarize_frame (H:=example_host) events "total=sum(value),cnt=count(value),status"
  = Ok (mkFrame [("status", ObjectT); ("total", Int64); ("cnt", Int64)]
                [mkRow 0 [VStr "bad"; VInt 2; VInt 1];
                 mkRow 1 [VStr "ok"; VInt 4; VInt 2]]).
Proof. vm_compute. reflexivity. Qed.

(** The keys are hashed, all of them, before the rows with a missing key
    are set apart, and so is the source column of a distinct count: a
    list in a row that would join no group makes the stage fail, while
    the stage succeeds on the table without that row. *)
Example summarize_list_in_dropped_row :
  let two_keys :=
    mkFrame [("a", ObjectT); ("b", ObjectT); ("v", ObjectT)]
            [mkRow 0 [VStr "x"; VStr "y"; VInt 1];
             mkRow 1 [VNull; VList [VInt 1]; VInt 2]] in
  let source :=
    mkFrame [("a", ObjectT); ("v", ObjectT)]
            [mkRow 0 [VStr "x"; VInt 1];
             mkRow 1 [VNull; VList [VInt 1]]] in
  summarize_frame (H:=example_host) two_keys "n=count(v),a,b"
  = Raise (mkExn TypeError "unhashable type: 'list'")
  /\ summarize_frame (H:=example_host) (without_null_keys two_keys ["a"; "b"]) "n=count(v),a,b"
     = Ok (mkFrame [("a", ObjectT); ("b", ObjectT); ("n", Int64)]
                   [mkRow 0 [VStr "x"; VStr "y"; VInt 1]])
  /\ summarize_frame (H:=example_host) source "n=dcount(v),a"
     = Raise (mkExn TypeError "unhashable type: 'list'")
  /\ summarize_frame (H:=example_host) (without_null_keys source ["a"]) "n=dcount(v),a"
     = Ok (mkFrame [("a", ObjectT); ("n", Int64)] [mkRow 0 [VStr "x"; VInt 1]]).
Proof. cbv zeta. repeat split; vm_compute; reflexivity. Qed.

Section SummarizeFaults.
Context `{Host}.

Lemma missing_columns_error_class names :
  exn_class (missing_columns_error names) = KeyError.
Proof. done. Qed.

(** C2.  Without group-by names, [summarize] hands the dict of named
    aggregations to [df.agg], which reads its keys as column labels of the
    table: when a result name is not a column of the table the stage
    raises a [KeyError] and returns no table. *)
Theorem summarize_no_group_by_raises (w : World) (df : loc) (d : DataFrame)
    (agg_expr : string) (rest : list Value) (kwargs : gmap string Value)
    (agg_dict : list (string * NamedAgg)) (result_col : string) :
  heap w !! df = Some d ->
  parse_agg_expr agg_expr = (agg_dict, []) ->
  result_col ∈ agg_dict.*1 ->
  has_column d result_col = false ->
  exists e, exn_class e = KeyError
            /\ _summarize df (VStr agg_expr :: rest) kwargs w = (Raise e, w).
Proof.
  intros Hd Hp Hin Hc. unfold _summarize.
  rewrite (run_frame_stage (fun d => summarize_frame d agg_expr) _ _ _ Hd).
  unfold summarize_frame. rewrite Hp.
  destruct agg_dict as [|kv agg_dict]; [by apply elem_of_nil in Hin|].
  unfold frame_agg_dict.
  destruct (List.filter _ _) as [|m ms] eqn:Ef.
  - exfalso. apply list_elem_of_In in Hin.
    assert (In result_col (List.filter (fun k => negb (has_column d k)) ((kv :: agg_dict).*1))) as Hf.
    { apply filter_In. split; [done|]. by rewrite Hc. }
    by rewrite Ef in Hf.
  - eexists. split; [|done]. done.
Qed.

(** C3.  The words [by g] are not read as a group-by: the whole text
    after [=] is the aggregation, no group-by name is found, and the stage
    fails as it does without group-by.  Through [execute_query] the
    argument has an [=], so it is a named argument; the stage gets no
    positional argument and returns its input as it is. *)
Theorem summarize_by_not_parsed (self : KQLEngine) (w : World) (d : DataFrame)
    (rest : list Value) (kwargs : gmap string Value) :
  heap w !! self_df self = Some d ->
  has_column d "cnt" = false ->
  parse_agg_expr "cnt=count(v) by g" = ([("cnt", mkNamedAgg "v" "size")], [])
  /\ _summarize (self_df self) (VStr "cnt=count(v) by g" :: rest) kwargs w
     = (Raise (missing_columns_error ["cnt"]), w)
  /\ _parse_query "summarize cnt=count(v) by g"
     = [mkOperation "summarize" [] {[ "cnt" := VStr "count(v) by g" ]}]
  /\ execute_query self "summarize cnt=count(v) by g" w
     = (Ok (length (heap w)), mkWorld (heap w ++ [d]) (rng w)).
Proof.
  intros Hd Hc.
  assert (parse_agg_expr "cnt=count(v) by g" = ([("cnt", mkNamedAgg "v" "size")], [])) as Hp
    by (vm_compute; reflexivity).
  assert (_parse_query "summarize cnt=count(v) by g"
          = [mkOperation "summarize" [] {[ "cnt" := VStr "count(v) by g" ]}]) as Hq
    by (vm_compute; reflexivity).
  split; [done|]. split; [|split; [done|]].
  - unfold _summarize.
    rewrite (run_frame_stage (fun d => summarize_frame d "cnt=count(v) by g") _ _ _ Hd).
    unfold summarize_frame. rewrite Hp. unfold frame_agg_dict.
    cbn [fmap list_fmap fst List.filter]. rewrite Hc. done.
  - unfold execute_query, try_except. rewrite Hq.
    unfold mbind, df_copy, mbind, deref, new_frame. rewrite Hd.
    reflexivity.
Qed.

End SummarizeFaults.

Lemma summarize_no_group_by_raises_witness :
  let w := mkWorld [orders] 0 in
  heap w !! 0%nat = Some orders
  /\ parse_agg_expr "total=sum(value)" = ([("total", mkNamedAgg "value" "sum")], [])
  /\ has_column orders "total" = false
  /\ exists e, exn_class e = KeyError
       /\ _summarize (H:=example_host) 0%nat [VStr "total=sum(value)"] ∅ w = (Raise e, w).
Proof.
  cbv zeta. split; [reflexivity|]. split; [vm_compute; reflexivity|].
  split; [reflexivity|].
  apply (summarize_no_group_by_raises (H:=example_host) (mkWorld [orders] 0) 0%nat orders
           "total=sum(value)" [] ∅ [("total", mkNamedAgg "value" "sum")] "total").
  - reflexivity.
  - vm_compute. reflexivity.
  - apply list_elem_of_here.
  - reflexivity.
Defined.

(** Through [execute_query] the same aggregation is a named argument, and
    the table comes back with all its rows. *)
Example summarize_named_argument :
  let w := mkWorld [orders] 0 in
  _summarize (H:=example_host) 0%nat [VStr "total=sum(value)"] ∅ w
  = (Raise (missing_columns_error ["total"]), w)
  /\ _parse_query (H:=example_host) "summarize total=sum(value)"
     = [mkOperation "summarize" [] {[ "total" := VStr "sum(value)" ]}]
  /\ execute_query (H:=example_host) (mkEngine 0%nat "Data") "summarize total=sum(value)" w
     = (Ok 1%nat, mkWorld [orders; orders] 0).
Proof. cbv zeta. repeat split; vm_compute; reflexivity. Qed.

Lemma summarize_by_not_parsed_witness :
  let self := mkEngine 0%nat "Data" in
  let w := mkWorld [visits] 0 in
  heap w !! 0%nat = Some visits
  /\ has_column visits "cnt" = false
  /\ parse_agg_expr "cnt=count(v) by g" = ([("cnt", mkNamedAgg "v" "size")], [])
  /\ _summarize (H:=example_host) 0%nat [VStr "cnt=count(v) by g"] ∅ w
     = (Raise (missing_columns_error ["cnt"]), w)
  /\ _parse_query (H:=example_host) "summarize cnt=count(v) by g"
     = [mkOperation "summarize" [] {[ "cnt" := VStr "count(v) by g" ]}]
  /\ execute_query (H:=example_host) self "summarize cnt=count(v) by g" w
     = (Ok 1%nat, mkWorld [visits; visits] 0).
Proof.
  cbv zeta. split; [reflexivity|]. split; [reflexivity|].
  apply (summarize_by_not_parsed (H:=example_host) (mkEngine 0%nat "Data")
           (mkWorld [visits] 0) visits [] ∅); reflexivity.
Defined.

(** ** Stages as [execute_query] calls them *)

(** A condition with an [=] in it is a named argument of the stage: the
    stage gets no condition and returns the table it was given. *)
Example where_named_argument :
  let w := mkWorld [orders] 0 in
  _parse_query (H:=example_host) "where value >= 150"
  = [mkOperation "where" [] {[ "value >" := VInt 150 ]}]
  /\ execute_query (H:=example_host) (mkEngine 0%nat "Data") "where value >= 150" w
     = (Ok 1%nat, mkWorld [orders; orders] 0)
  /\ execute_query (H:=example_host) (mkEngine 0%nat "Data") "where value > 150" w
     = (Ok 2%nat,
        mkWorld [orders; orders;
                 mkFrame (columns orders) [mkRow 2 [VInt 3; VStr "success"; VInt 200]]] 0).
Proof. cbv zeta. repeat split; vm_compute; reflexivity. Qed.

(** The words after [sort] are one column name. *)
Example sort_by_is_a_name :
  let w := mkWorld [orders] 0 in
  _parse_query (H:=example_host) "sort by value" = [mkOperation "sort" [VStr "by value"] ∅]
  /\ (execute_query (H:=example_host) (mkEngine 0%nat "Data") "sort by value" w).1
     = Raise (mkExn ValueError "Query execution error: 'by value'")
  /\ (execute_query (H:=example_host) (mkEngine 0%nat "Data") "sort value, order=desc" w).1
     = Ok 2%nat.
Proof. cbv zeta. repeat split; vm_compute; reflexivity. Qed.

(** * Further properties of the engine *)

(** ** More on Python strings *)

Lemma str_app_nil_r s : s +:+ "" = s.
Proof. induction s as [|c s IH]; simpl; [done|by rewrite IH]. Qed.

Lemma str_app_assoc a b c : (a +:+ b) +:+ c = a +:+ (b +:+ c).
Proof. induction a as [|x a IH]; simpl; [done|by rewrite IH]. Qed.

Lemma str_rev_app_acc s : forall acc,
  String.rev_app s acc = String.rev s +:+ acc.
Proof.
  unfold String.rev. induction s as [|x s IH]; intros acc; [done|].
  cbn [String.rev_app]. rewrite (IH (String x acc)), (IH (String x "")).
  by rewrite str_app_assoc.
Qed.

Lemma str_rev_cons c s : String.rev (String c s) = String.rev s +:+ String c "".
Proof. unfold String.rev at 1. cbn [String.rev_app]. apply str_rev_app_acc. Qed.

Lemma str_rev_app a b : String.rev (a +:+ b) = String.rev b +:+ String.rev a.
Proof.
  induction a as [|x a IH]; cbn [String.append].
  - by rewrite str_app_nil_r.
  - by rewrite !str_rev_cons, IH, str_app_assoc.
Qed.

Lemma str_rev_rev s : String.rev (String.rev s) = s.
Proof.
  induction s as [|x s IH]; [done|].
  by rewrite str_rev_cons, str_rev_app, IH.
Qed.

Lemma str_rev_nil s : String.rev s = "" -> s = "".
Proof. intros E. by rewrite <- (str_rev_rev s), E. Qed.

Lemma lstrip_app a b :
  Py.lstrip (a +:+ b) =
  match Py.lstrip a with "" => Py.lstrip b | l => l +:+ b end.
Proof.
  induction a as [|x a IH]; [done|]. cbn [String.append Py.lstrip].
  by destruct (Py.isspace x).
Qed.

Lemma lstrip_lstrip s : Py.lstrip (Py.lstrip s) = Py.lstrip s.
Proof.
  induction s as [|x s IH]; [done|]. cbn [Py.lstrip].
  destruct (Py.isspace x) eqn:E; [done|]. cbn [Py.lstrip]. by rewrite E.
Qed.

Lemma rstrip_cons c r :
  Py.rstrip (String c r) =
  match Py.rstrip r with
  | "" => if Py.isspace c then "" else String c ""
  | r' => String c r'
  end.
Proof.
  unfold Py.rstrip. rewrite str_rev_cons, lstrip_app.
  destruct (Py.lstrip (String.rev r)) as [|x l] eqn:E.
  - cbn [Py.lstrip]. by destruct (Py.isspace c).
  - rewrite str_rev_app.
    change (String.rev (String c "")) with (String c ""). cbn [String.append].
    destruct (String.rev (String x l)) eqn:E'; [|done].
    by apply str_rev_nil in E'.
Qed.

Lemma rstrip_rec_eq s : Py.rstrip s = rstrip_rec s.
Proof.
  induction s as [|c s IH]; [done|].
  by rewrite rstrip_cons, IH.
Qed.

Lemma rstrip_rstrip s : Py.rstrip (Py.rstrip s) = Py.rstrip s.
Proof. unfold Py.rstrip. by rewrite str_rev_rev, lstrip_lstrip. Qed.

(** Stripping on the left and on the right commute. *)
Lemma lstrip_rstrip s : Py.lstrip (Py.rstrip s) = Py.rstrip (Py.lstrip s).
Proof.
  induction s as [|x s IH]; [done|]. rewrite rstrip_cons. cbn [Py.lstrip].
  destruct (Py.isspace x) eqn:E.
  - rewrite <- IH. destruct (Py.rstrip s); [done|]. cbn [Py.lstrip]. by rewrite E.
  - rewrite rstrip_cons.
    destruct (Py.rstrip s); cbn [Py.lstrip]; by rewrite E.
Qed.

Lemma strip_lstrip s : Py.strip (Py.lstrip s) = Py.strip s.
Proof. unfold Py.strip. by rewrite lstrip_lstrip. Qed.

Lemma strip_rstrip_eq a b : Py.rstrip a = Py.rstrip b -> Py.strip a = Py.strip b.
Proof. unfold Py.strip. rewrite <- !lstrip_rstrip. by intros ->. Qed.

Lemma strip_strip s : Py.strip (Py.strip s) = Py.strip s.
Proof.
  unfold Py.strip. by rewrite <- lstrip_rstrip, rstrip_rstrip, lstrip_rstrip, lstrip_lstrip.
Qed.

Lemma lstrip_blank s : all_chars Py.isspace s = true -> Py.lstrip s = "".
Proof.
  induction s as [|x s IH]; [done|]. cbn [all_chars Py.lstrip].
  intros [-> Hs]%andb_true_iff. by apply IH.
Qed.

Lemma rstrip_blank s : all_chars Py.isspace s = true -> Py.rstrip s = "".
Proof.
  induction s as [|x s IH]; [done|]. cbn [all_chars]. rewrite rstrip_cons.
  intros [-> Hs]%andb_true_iff. by rewrite IH.
Qed.

Lemma rstrip_blank_inv s : Py.rstrip s = "" -> all_chars Py.isspace s = true.
Proof.
  induction s as [|x s IH]; [done|]. rewrite rstrip_cons. cbn [all_chars].
  destruct (Py.rstrip s); [|done].
  destruct (Py.isspace x); [|done]. intros _. by rewrite IH.
Qed.

Lemma strip_blank s : all_chars Py.isspace s = true -> Py.strip s = "".
Proof. intros Hs. unfold Py.strip. by rewrite lstrip_blank. Qed.

(** A text that starts and ends with no white space is its own strip. *)
Lemma lstrip_solid c s : Py.isspace c = false -> Py.lstrip (String c s) = String c s.
Proof. intros E. cbn [Py.lstrip]. by rewrite E. Qed.

Lemma all_chars_app p a b :
  all_chars p (a +:+ b) = all_chars p a && all_chars p b.
Proof.
  induction a as [|x a IH]; simpl; [done|]. by rewrite IH, andb_assoc.
Qed.

Lemma all_chars_impl (p q : ascii -> bool) s :
  (forall c, p c = true -> q c = true) ->
  all_chars p s = true -> all_chars q s = true.
Proof.
  intros Hpq. induction s as [|x s IH]; [done|]. cbn [all_chars].
  intros [Hx Hs]%andb_true_iff. by rewrite (Hpq _ Hx), IH.
Qed.

(** A text without white space is its own strip. *)
Lemma rstrip_solid s :
  all_chars (fun c => negb (Py.isspace c)) s = true -> Py.rstrip s = s.
Proof.
  induction s as [|x s IH]; [done|]. cbn [all_chars]. rewrite rstrip_cons.
  intros [Hx Hs]%andb_true_iff. rewrite (IH Hs).
  apply negb_true_iff in Hx. rewrite Hx. by destruct s.
Qed.

Lemma strip_solid s :
  all_chars (fun c => negb (Py.isspace c)) s = true -> Py.strip s = s.
Proof.
  intros Hs. unfold Py.strip.
  destruct s as [|x s]; [done|]. pose proof Hs as Hs'. cbn [all_chars] in Hs.
  apply andb_true_iff in Hs as [Hx%negb_true_iff _].
  rewrite (lstrip_solid _ _ Hx). by apply rstrip_solid.
Qed.

(** *** Splitting at one character *)

Lemma partition_single c s :
  Py.partition (String c "") s =
  match s with
  | "" => None
  | String x r =>
      if Ascii.eqb x c then Some ("", r)
      else match Py.partition (String c "") r with
           | Some (a, b) => Some (String x a, b)
           | None => None
           end
  end.
Proof.
  destruct s as [|x r]; [done|]. rewrite partition_cons, prefix_single.
  destruct (ascii_dec c x) as [->|Hne].
  - by rewrite Ascii.eqb_refl.
  - destruct (Ascii.eqb_spec x c) as [->|_]; [done|]. done.
Qed.

Lemma partition_split_char c : forall s,
  match Py.partition (String c "") s with
  | Some (a, b) =>
      split_parts c s = a :: split_parts c b /\ (String.length b < String.length s)%nat
  | None => split_parts c s = [s]
  end.
Proof.
  unfold split_parts.
  induction s as [|x r IH]; [done|]. rewrite partition_single.
  cbn [split_char]. destruct (split_char c r) as [h t] eqn:Er.
  destruct (Ascii.eqb x c) eqn:Ex.
  - simpl. rewrite Er. split; [done|lia].
  - destruct (Py.partition (String c "") r) as [[a b]|].
    + destruct IH as [IH Hlen]. simpl in *. injection IH as -> ->.
      split; [done|lia].
    + simpl in *. by injection IH as -> ->.
Qed.

Lemma split_fuel_char c n : forall s,
  (String.length s <= n)%nat ->
  Py.split_fuel n (String c "") s = split_parts c s.
Proof.
  induction n as [|n IH]; intros s Hn.
  - destruct s; [done|simpl in Hn; lia].
  - cbn [Py.split_fuel]. pose proof (partition_split_char c s) as Hp.
    destruct (Py.partition (String c "") s) as [[a b]|].
    + destruct Hp as [-> Hlen]. rewrite IH by lia. done.
    + by rewrite Hp.
Qed.

(** [split] at one character is the recursion on the text. *)
Lemma split_single c s : Py.split (String c "") s = split_parts c s.
Proof. unfold Py.split. by apply split_fuel_char. Qed.

Lemma split_parts_app c a b :
  split_parts c (a +:+ String c b) = split_parts c a ++ split_parts c b.
Proof.
  unfold split_parts. induction a as [|x a IH]; cbn [String.append split_char].
  - rewrite Ascii.eqb_refl. by destruct (split_char c b).
  - destruct (split_char c (a +:+ String c b)) as [h t].
    destruct (split_char c a) as [h' t']. simpl in IH. injection IH as -> ->.
    by destruct (Ascii.eqb x c).
Qed.

Lemma split_char_lstrip c s :
  Py.isspace c = false ->
  split_char c (Py.lstrip s) = (Py.lstrip (split_char c s).1, (split_char c s).2).
Proof.
  intros Hc. induction s as [|x s IH]; [done|]. cbn [Py.lstrip].
  destruct (Py.isspace x) eqn:Ex; cbn [split_char];
    destruct (split_char c s) as [h t]; simpl in IH.
  - destruct (Ascii.eqb_spec x c) as [->|_]; [congruence|].
    simpl. by rewrite Ex.
  - destruct (Ascii.eqb x c); simpl; [done|]. by rewrite Ex.
Qed.

Lemma split_char_cons c x r :
  split_char c (String x r) =
  if Ascii.eqb x c then ("", (split_char c r).1 :: (split_char c r).2)
  else (String x (split_char c r).1, (split_char c r).2).
Proof. cbn [split_char]. by destruct (split_char c r). Qed.

Lemma split_char_rstrip c : forall s,
  Py.isspace c = false ->
  Py.rstrip (split_char c (Py.rstrip s)).1 = Py.rstrip (split_char c s).1
  /\ Forall2 (fun a b => Py.rstrip a = Py.rstrip b)
             (split_char c (Py.rstrip s)).2 (split_char c s).2.
Proof.
  intros s Hc. induction s as [|x s [IH1 IH2]]; [by split|].
  rewrite rstrip_cons, (split_char_cons c x s).
  destruct (split_char c s) as [h t]. cbn [fst snd] in *.
  destruct (Py.rstrip s) as [|y r'] eqn:Er.
  - cbn [split_char fst snd] in IH1, IH2. apply Forall2_nil_inv_l in IH2 as ->.
    destruct (Py.isspace x) eqn:Ex.
    + destruct (Ascii.eqb_spec x c) as [->|_]; [congruence|].
      cbn [split_char fst snd]. split; [|done].
      by rewrite rstrip_cons, <- IH1, Ex.
    + rewrite split_char_cons. cbn [split_char fst snd].
      destruct (Ascii.eqb x c); cbn [fst snd].
      * split; [done|]. by repeat constructor.
      * split; [|done]. by rewrite !rstrip_cons, <- IH1.
  - rewrite split_char_cons.
    destruct (Ascii.eqb x c); cbn [fst snd].
    + split; [done|]. by constructor.
    + split; [|done]. by rewrite !rstrip_cons, IH1.
Qed.

Lemma split_char_solid c a b :
  all_chars (fun x => negb (Ascii.eqb x c)) a = true ->
  split_char c (a +:+ b) = (a +:+ (split_char c b).1, (split_char c b).2).
Proof.
  induction a as [|x a IH]; cbn [all_chars String.append].
  - intros _. by destruct (split_char c b).
  - intros [Hx Ha]%andb_true_iff. rewrite split_char_cons, (IH Ha).
    apply negb_true_iff in Hx. by rewrite Hx.
Qed.

Lemma split_char_blank c s :
  all_chars (fun x => Py.isspace x || Ascii.eqb x c) s = true ->
  Forall (fun p => all_chars Py.isspace p = true) (split_parts c s).
Proof.
  unfold split_parts. induction s as [|x s IH]; cbn [all_chars].
  - intros _. by repeat constructor.
  - intros [Hx Hs]%andb_true_iff. specialize (IH Hs).
    rewrite split_char_cons. inversion IH as [|h t Hh Ht]; subst.
    destruct (Ascii.eqb x c) eqn:Ec; cbn [fst snd].
    + by repeat constructor.
    + constructor; [|done]. cbn [all_chars].
      rewrite ?Ec, orb_false_r in Hx. by rewrite Hx.
Qed.

(** ** The lexer *)

Lemma take_while_all p s : all_chars p (take_while p s) = true.
Proof.
  induction s as [|x s IH]; [done|]. cbn [take_while].
  destruct (p x) eqn:E; [|done]. cbn [all_chars]. by rewrite E.
Qed.

Lemma take_while_app p a b :
  all_chars p a = true -> take_while p b = "" ->
  take_while p (a +:+ b) = a.
Proof.
  intros Ha Hb. induction a as [|x a IH]; [done|]. cbn [all_chars] in Ha.
  apply andb_true_iff in Ha as [Hx Ha]. cbn [String.append take_while].
  by rewrite Hx, IH.
Qed.

Lemma drop_while_app p a b :
  all_chars p a = true -> drop_while p (a +:+ b) = drop_while p b.
Proof.
  intros Ha. induction a as [|x a IH]; [done|]. cbn [all_chars] in Ha.
  apply andb_true_iff in Ha as [Hx Ha]. cbn [String.append drop_while].
  by rewrite Hx, IH.
Qed.

Lemma lower_char_idem c : Py.lower_char (Py.lower_char c) = Py.lower_char c.
Proof. destruct c as [[] [] [] [] [] [] [] []]; vm_compute; reflexivity. Qed.

Lemma lower_char_word c : Py.isword (Py.lower_char c) = Py.isword c.
Proof. destruct c as [[] [] [] [] [] [] [] []]; vm_compute; reflexivity. Qed.

Lemma word_not_space c : Py.isword c = true -> Py.isspace c = false.
Proof. destruct c as [[] [] [] [] [] [] [] []]; vm_compute; congruence. Qed.

Lemma word_not_pipe c : Py.isword c = true -> Ascii.eqb c "|" = false.
Proof. destruct c as [[] [] [] [] [] [] [] []]; vm_compute; congruence. Qed.

Lemma lower_lower s : Py.lower (Py.lower s) = Py.lower s.
Proof.
  unfold Py.lower. induction s as [|x s IH]; [done|]. cbn [Py.smap].
  by rewrite lower_char_idem, IH.
Qed.

Lemma lower_word s : all_chars Py.isword (Py.lower s) = all_chars Py.isword s.
Proof.
  unfold Py.lower. induction s as [|x s IH]; [done|]. cbn [Py.smap all_chars].
  by rewrite lower_char_word, IH.
Qed.

Lemma word_solid s :
  all_chars Py.isword s = true ->
  all_chars (fun c => negb (Py.isspace c)) s = true.
Proof.
  apply all_chars_impl. intros c Hc. by rewrite (word_not_space c Hc).
Qed.

Lemma rstrip_app a b :
  Py.rstrip (a +:+ b) =
  match Py.rstrip b with "" => Py.rstrip a | b' => a +:+ b' end.
Proof.
  induction a as [|x a IH]; cbn [String.append].
  - by destruct (Py.rstrip b).
  - rewrite !rstrip_cons, IH. destruct (Py.rstrip b) as [|y b']; [done|].
    by destruct a.
Qed.

Section Lexer.
Context `{Host}.

Lemma parse_part_strip a b : Py.strip a = Py.strip b -> parse_part a = parse_part b.
Proof. unfold parse_part. by intros ->. Qed.

Lemma parse_part_blank p : all_chars Py.isspace p = true -> parse_part p = [].
Proof. intros Hp. unfold parse_part. by rewrite (strip_blank p Hp). Qed.

Lemma bind_parse_part_rstrip t' t :
  Forall2 (fun a b => Py.rstrip a = Py.rstrip b) t' t ->
  t' ≫= parse_part = t ≫= parse_part.
Proof.
  induction 1 as [|a b t' t Hab _ IH]; [done|].
  rewrite !bind_cons, IH. f_equal. by apply parse_part_strip, strip_rstrip_eq.
Qed.

(** The strip of the whole query changes nothing: every part is stripped
    again. *)
Lemma parse_query_parts query :
  _parse_query query = split_parts "|" query ≫= parse_part.
Proof.
  unfold _parse_query. rewrite split_single. unfold Py.strip, split_parts.
  destruct (split_char_rstrip "|" (Py.lstrip query) eq_refl) as [H1 H2].
  rewrite (split_char_lstrip "|" query eq_refl) in H1, H2. cbn [fst snd] in H1, H2.
  rewrite !bind_cons. rewrite (bind_parse_part_rstrip _ _ H2). f_equal.
  rewrite (parse_part_strip _ _ (strip_rstrip_eq _ _ H1)).
  apply parse_part_strip, strip_lstrip.
Qed.

Lemma parse_query_concat (q1 q2 : string) :
  _parse_query (q1 +:+ "|" +:+ q2) = _parse_query q1 ++ _parse_query q2.
Proof.
  rewrite !parse_query_parts.
  change ("|" +:+ q2) with (String "|" q2).
  by rewrite split_parts_app, bind_app.
Qed.

(** X1.  The operations of [q1 | q2] are those of [q1] followed by those
    of [q2]: the pipe cuts the query wherever it stands, and the white
    space around it plays no part. *)
Theorem parse_query_pipe (q1 q2 : string) :
  _parse_query (q1 +:+ "|" +:+ q2) = _parse_query q1 ++ _parse_query q2.
Proof. apply parse_query_concat. Qed.

(** X3.  A query made of white space and pipes only holds no operation,
    and [execute_query] answers it with a new copy of the engine's
    table. *)
Theorem blank_query_copies (self : KQLEngine) (query : string) (w : World)
    (d : DataFrame) :
  all_chars (fun c => Py.isspace c || Ascii.eqb c "|") query = true ->
  heap w !! self_df self = Some d ->
  _parse_query query = []
  /\ execute_query self query w
     = (Ok (length (heap w)), mkWorld (heap w ++ [d]) (rng w)).
Proof.
  intros Hq Hd.
  assert (_parse_query query = []) as Hp.
  { rewrite parse_query_parts.
    pose proof (split_char_blank "|" query Hq) as Hb.
    induction Hb as [|p ps Hp _ IH]; [done|].
    by rewrite bind_cons, (parse_part_blank p Hp), IH. }
  split; [done|].
  unfold execute_query, try_except. rewrite Hp.
  unfold mbind, df_copy, mbind, deref, new_frame. by rewrite Hd.
Qed.

Lemma execute_query_concat (self : KQLEngine) (q1 q2 : string) (w : World) :
  execute_query self (q1 +:+ "|" +:+ q2) w =
  match execute_query self q1 w with
  | (Ok r1, w1) =>
      try_except (run_operations (_parse_query q2) r1)
        (fun e => mraise (mkExn ValueError ("Query execution error: " +:+ exn_str e))) w1
  | (Raise e, w1) => (Raise e, w1)
  end.
Proof.
  unfold execute_query, try_except. rewrite parse_query_concat.
  unfold mbind. destruct (df_copy (self_df self) w) as [[r|e] w0]; [|done].
  rewrite run_operations_app.
  by destruct (run_operations (_parse_query q1) r w0) as [[r1|e] w1].
Qed.

(** X2.  The stages of [q2] run on the table [q1] returns, in the store
    [q1] leaves; when [q1] fails, [q1 | q2] fails with the same error and
    no stage of [q2] runs. *)
Theorem execute_query_pipe (self : KQLEngine) (q1 q2 : string) (w : World) :
  execute_query self (q1 +:+ "|" +:+ q2) w =
  match execute_query self q1 w with
  | (Ok r1, w1) =>
      try_except (run_operations (_parse_query q2) r1)
        (fun e => mraise (mkExn ValueError ("Query execution error: " +:+ exn_str e))) w1
  | (Raise e, w1) => (Raise e, w1)
  end.
Proof. apply execute_query_concat. Qed.

(** The parts of a query that starts with a word. *)
Lemma parse_part_word name rest :
  name <> "" -> all_chars Py.isword name = true ->
  take_while Py.isword rest = "" ->
  parse_part (name +:+ rest) =
  let '(args, kwargs) :=
    _parse_arguments
      (Py.strip (take_while (fun c => negb (c =? newline)%char)
                            (drop_while Py.isspace (Py.rstrip rest)))) in
  [mkOperation (Py.lower name) args kwargs].
Proof.
  intros Hne Hw Hrest. unfold parse_part.
  assert (Py.strip (name +:+ rest) = name +:+ Py.rstrip rest) as ->.
  { unfold Py.strip. destruct name as [|x name]; [done|].
    pose proof Hw as Hw'. cbn [all_chars] in Hw'.
    apply andb_true_iff in Hw' as [Hx _].
    cbn [String.append]. rewrite (lstrip_solid _ _ (word_not_space x Hx)).
    change (String x (name +:+ rest)) with (String x name +:+ rest).
    rewrite rstrip_app. rewrite (rstrip_solid _ (word_solid _ Hw)).
    destruct (Py.rstrip rest); [by rewrite str_app_nil_r|done]. }
  assert (take_while Py.isword (Py.rstrip rest) = "") as Hr.
  { destruct rest as [|y rest]; [done|]. rewrite rstrip_cons.
    cbn [take_while] in Hrest. destruct (Py.isword y) eqn:Ey; [done|].
    destruct (Py.rstrip rest); [|cbn [take_while]; by rewrite Ey].
    destruct (Py.isspace y); [done|]. cbn [take_while]. by rewrite Ey. }
  assert (String.eqb (name +:+ Py.rstrip rest) "" = false) as ->.
  { by destruct name. }
  unfold match_stage. rewrite (take_while_app _ _ _ Hw Hr), (drop_while_app _ _ _ Hw).
  assert (String.eqb name "" = false) as -> by by destruct name.
  assert (drop_while Py.isword (Py.rstrip rest) = Py.rstrip rest) as ->.
  { destruct (Py.rstrip rest) as [|y r]; [done|]. cbn [take_while drop_while] in *.
    by destruct (Py.isword y). }
  done.
Qed.

(** X4.  The stage keyword, the word a query starts with, is read
    without regard to letter case. *)
Theorem keyword_case_insensitive (name rest : string) :
  name <> "" -> all_chars Py.isword name = true ->
  take_while Py.isword rest = "" ->
  _parse_query (name +:+ rest) = _parse_query (Py.lower name +:+ rest).
Proof.
  intros Hne Hw Hrest. rewrite !parse_query_parts. unfold split_parts.
  assert (all_chars Py.isword (Py.lower name) = true) as Hw' by by rewrite lower_word.
  assert (Py.lower name <> "") as Hne' by by destruct name.
  assert (forall n, all_chars Py.isword n = true ->
                    all_chars (fun x => negb (Ascii.eqb x "|")) n = true) as Hpipe.
  { intros n. apply all_chars_impl. intros c Hc. by rewrite (word_not_pipe c Hc). }
  rewrite !split_char_solid by by apply Hpipe. cbn [fst snd]. rewrite !bind_cons.
  f_equal.
  assert (take_while Py.isword (split_char "|" rest).1 = "") as Hh.
  { destruct rest as [|y rest]; [done|]. rewrite split_char_cons.
    cbn [take_while] in Hrest. destruct (Py.isword y) eqn:Ey; [done|].
    destruct (Ascii.eqb y "|"); cbn [fst take_while]; [done|]. by rewrite Ey. }
  rewrite !parse_part_word by done. by rewrite lower_lower.
Qed.

End Lexer.

(** ** The argument parser *)

Lemma tokenizer_run_nested s : forall st,
  commas_nested (paren_depth st) s = true ->
  tokens (tokenizer_run st s) = tokens st
  /\ current_token (tokenizer_run st s) = current_token st +:+ s.
Proof.
  induction s as [|c s IH]; intros st Hs.
  - by rewrite str_app_nil_r.
  - cbn [commas_nested] in Hs. apply andb_true_iff in Hs as [Hc Hs].
    cbn [tokenizer_run].
    assert (tokenizer_step st c =
            mkTokenizer (tokens st) (current_token st +:+ String c "")
              (if (c =? "(")%char then paren_depth st + 1
               else if (c =? ")")%char then paren_depth st - 1 else paren_depth st))
      as ->.
    { unfold tokenizer_step. apply negb_true_iff in Hc. by rewrite Hc. }
    destruct (IH (mkTokenizer (tokens st) (current_token st +:+ String c "") _) Hs)
      as [-> ->]. cbn [tokens current_token].
    by rewrite str_app_assoc.
Qed.

(** X5.  An argument text none of whose commas is met at parenthesis
    depth 0 is one token, however many commas it holds. *)
Theorem tokenize_nested_commas (arg_string : string) :
  arg_string <> "" ->
  commas_nested 0 arg_string = true ->
  tokenize arg_string = [Py.strip arg_string].
Proof.
  intros Hne Hs. unfold tokenize, tokenizer_finish.
  destruct (tokenizer_run_nested arg_string tokenizer_start Hs) as [-> ->].
  cbn [tokenizer_start tokens current_token String.append].
  by destruct arg_string.
Qed.

Lemma tokenize_nested_commas_witness :
  "f(a, b)" <> "" /\ commas_nested 0 "f(a, b)" = true
  /\ tokenize "f(a, b)" = ["f(a, b)"].
Proof.
  split; [done|]. split; [reflexivity|].
  exact (tokenize_nested_commas "f(a, b)" ltac:(done) eq_refl).
Defined.

(** ** The literal parser *)

Lemma drop_last_app s c : Py.drop_last (s +:+ String c "") = s.
Proof.
  induction s as [|x s IH]; [done|]. cbn [String.append Py.drop_last].
  rewrite IH. by destruct s.
Qed.

Lemma endswith_last q s : Py.endswith (String q "") (s +:+ String q "") = true.
Proof.
  unfold Py.endswith. rewrite str_rev_app.
  change (String.rev (String q "")) with (String q ""). cbn [String.append].
  rewrite prefix_single. by destruct (ascii_dec q q).
Qed.

Section Literals.
Context `{Host}.

Lemma parse_value_quoted_fuel q s fuel :
  (q = "'" \/ q = "034")%char ->
  _parse_value_fuel fuel (String q (s +:+ String q "")) = VStr s.
Proof.
  intros Hq.
  change (String q (s +:+ String q "")) with (String q s +:+ String q "").
  assert (Py.slice_to_last 1 (String q s +:+ String q "") = s) as Hs.
  { unfold Py.slice_to_last. cbn [String.append Py.drop]. apply drop_last_app. }
  pose proof (endswith_last q (String q s)) as He.
  assert (_parse_value_fuel fuel (String q s +:+ String q "") =
          if Py.startswith "'" (String q s +:+ String q "")
             && Py.endswith "'" (String q s +:+ String q "")
          then VStr (Py.slice_to_last 1 (String q s +:+ String q ""))
          else if Py.startswith dquote (String q s +:+ String q "")
                  && Py.endswith dquote (String q s +:+ String q "")
          then VStr (Py.slice_to_last 1 (String q s +:+ String q ""))
          else _parse_value_fuel fuel (String q s +:+ String q "")) as ->.
  { destruct fuel; cbn [_parse_value_fuel];
      destruct (_ && _); [done| |done|]; by destruct (_ && _). }
  rewrite Hs. unfold Py.startswith, dquote, Py.dquote in *. cbn [String.append].
  rewrite !prefix_single.
  destruct Hq as [-> | ->].
  - destruct (ascii_dec "'" "'"); [|done].
    change (String "'" (s +:+ "'")) with (String "'" s +:+ "'"). by rewrite He.
  - destruct (ascii_dec "'" "034"); [done|]. cbn [andb].
    destruct (ascii_dec "034" "034"); [|done].
    change (String "034" (s +:+ String "034" ""))
      with (String "034" s +:+ String "034" ""). by rewrite He.
Qed.

(** X6.  A literal between two single quotes, or between two double
    quotes, is the text between them, whatever that text holds. *)
Theorem parse_value_quoted (s : string) :
  _parse_value ("'" +:+ s +:+ "'") = VStr s
  /\ _parse_value (dquote +:+ s +:+ dquote) = VStr s.
Proof. split; apply parse_value_quoted_fuel; [by left|by right]. Qed.

Lemma scan_digits_digit prev acc count c r :
  Py.isdigit c = true ->
  scan_digits prev acc count (String c r)
  = scan_digits false (acc * 10 + Z.of_nat (nat_of_ascii c - 48)) (count + 1) r.
Proof. intros Hc. cbn [scan_digits]. by rewrite Hc. Qed.

Lemma scan_digits_acc l : forall (acc : positive) count,
  scan_digits false (Z.pos acc) count (NilEmpty.string_of_uint l)
  = Some (Z.pos (Pos.of_uint_acc l acc),
          count + Z.of_nat (String.length (NilEmpty.string_of_uint l)), "").
Proof.
  induction l; intros acc count; cbn [NilEmpty.string_of_uint Pos.of_uint_acc];
    [cbn; do 3 f_equal; lia|..];
    rewrite scan_digits_digit by reflexivity;
    match goal with
    | |- scan_digits false ?a _ _ = Some (Z.pos (Pos.of_uint_acc _ ?b), _, _) =>
        replace a with (Z.pos b) by (vm_compute (Z.of_nat _); lia)
    end;
    rewrite IHl; cbn [String.length]; do 3 f_equal; lia.
Qed.

Lemma scan_digits_zero l : forall count,
  scan_digits false 0 count (NilEmpty.string_of_uint l)
  = Some (Z.of_N (Pos.of_uint l),
          count + Z.of_nat (String.length (NilEmpty.string_of_uint l)), "").
Proof.
  induction l; intros count; cbn [NilEmpty.string_of_uint Pos.of_uint];
    [cbn; do 3 f_equal; lia|..];
    rewrite scan_digits_digit by reflexivity;
    [rewrite IHl; cbn [String.length]; do 3 f_equal; lia|..];
    match goal with
    | |- scan_digits false ?a _ _ = Some (Z.of_N (N.pos (Pos.of_uint_acc _ ?b)), _, _) =>
        replace a with (Z.pos b) by (vm_compute; reflexivity)
    end;
    rewrite scan_digits_acc; cbn [String.length Z.of_N]; do 3 f_equal; lia.
Qed.

Lemma scan_digits_uint l :
  l <> Decimal.Nil ->
  scan_digits true 0 0 (NilEmpty.string_of_uint l)
  = Some (Z.of_N (Pos.of_uint l),
          Z.of_nat (String.length (NilEmpty.string_of_uint l)), "").
Proof.
  intros Hl. rewrite <- (Z.add_0_l (Z.of_nat _)), <- scan_digits_zero.
  by destruct l.
Qed.

Lemma string_of_uint_digits l :
  all_chars Py.isdigit (NilEmpty.string_of_uint l) = true.
Proof. induction l; cbn [NilEmpty.string_of_uint all_chars]; by rewrite ?IHl. Qed.

(** [int] on a text that starts with a digit, and on one that starts with
    a minus sign. *)
Lemma read_int_unsigned c r :
  Py.isdigit c = true ->
  read_int (String c r)
  = match scan_digits true 0 0 (String c r) with
    | Some (z, count, rest) =>
        if (max_str_digits <? count)%Z then IntTooLong count
        else if String.eqb (Py.lstrip_by Py.isspace_int rest) "" then IntValue z
        else IntInvalid
    | None => IntInvalid
    end.
Proof. destruct c as [[] [] [] [] [] [] [] []]; try done. Qed.

Lemma read_int_negative r :
  read_int (String "-" r)
  = match scan_digits true 0 0 r with
    | Some (z, count, rest) =>
        if (max_str_digits <? count)%Z then IntTooLong count
        else if String.eqb (Py.lstrip_by Py.isspace_int rest) "" then IntValue (- z)
        else IntInvalid
    | None => IntInvalid
    end.
Proof. reflexivity. Qed.

Lemma int_of_str_uint l :
  l <> Decimal.Nil ->
  (Z.of_nat (String.length (NilEmpty.string_of_uint l)) <= max_str_digits)%Z ->
  int_of_str (NilEmpty.string_of_uint l) = Some (Z.of_N (Pos.of_uint l)).
Proof.
  intros Hl Hn. unfold int_of_str.
  pose proof (scan_digits_uint l Hl) as Hs.
  pose proof (string_of_uint_digits l) as Hd.
  destruct (NilEmpty.string_of_uint l) as [|c r] eqn:E; [by destruct l|].
  cbn [all_chars] in Hd. apply andb_true_iff in Hd as [Hc _].
  rewrite (read_int_unsigned c r Hc), Hs.
  destruct (Z.ltb_spec max_str_digits (Z.of_nat (String.length (String c r)))); [lia|done].
Qed.

Lemma nilzero_nonnil l :
  l <> Decimal.Nil -> NilZero.string_of_uint l = NilEmpty.string_of_uint l.
Proof. by destruct l. Qed.

(** [int] reads the decimal text of an integer back, when its digits are
    no more than the limit. *)
Lemma int_of_str_of_int z :
  (count_digits z <= max_str_digits)%Z -> int_of_str (str_of_int z) = Some z.
Proof.
  unfold count_digits, str_of_int. destruct z as [|p|p]; [done|..]; intros Hn;
    change (Z.abs _) with (Z.pos p) in Hn;
    change (Z.to_int (Z.pos p)) with (Decimal.Pos (Pos.to_uint p)) in Hn;
    cbn [Z.to_int NilZero.string_of_int] in *;
    pose proof (DecimalPos.Unsigned.to_uint_nonnil p) as Hp;
    rewrite !nilzero_nonnil in * by done.
  - rewrite int_of_str_uint by done. by rewrite DecimalPos.Unsigned.of_to.
  - unfold int_of_str. rewrite read_int_negative, scan_digits_uint by done.
    rewrite DecimalPos.Unsigned.of_to.
    destruct (Z.ltb_spec max_str_digits
                (Z.of_nat (String.length (NilEmpty.string_of_uint (Pos.to_uint p)))));
      [lia|done].
Qed.

Lemma digit_solid c : Py.isdigit c = true -> negb (Py.isspace c) = true.
Proof. destruct c as [[] [] [] [] [] [] [] []]; vm_compute; congruence. Qed.

Lemma digit_not_dot c : Py.isdigit c = true -> Ascii.eqb c "." = false.
Proof. destruct c as [[] [] [] [] [] [] [] []]; vm_compute; congruence. Qed.

Lemma contains_single c s :
  Py.contains (String c "") s = negb (all_chars (fun x => negb (Ascii.eqb x c)) s).
Proof.
  induction s as [|x s IH]; [done|]. rewrite contains_cons, prefix_single, IH.
  cbn [all_chars]. destruct (ascii_dec c x) as [->|Hne].
  - by rewrite Ascii.eqb_refl.
  - destruct (Ascii.eqb_spec x c) as [->|_]; [done|]. done.
Qed.

Lemma parse_value_of_int (z : Z) :
  count_digits z <= max_str_digits -> _parse_value (str_of_int z) = VInt z.
Proof.
  intros Hn.
  assert (all_chars decimal_char (str_of_int z) = true) as Hd.
  { unfold str_of_int. destruct z as [|p|p]; [done|..];
      cbn [Z.to_int NilZero.string_of_int];
      rewrite nilzero_nonnil by apply DecimalPos.Unsigned.to_uint_nonnil.
    - eapply all_chars_impl; [|apply string_of_uint_digits].
      intros c Hc. unfold decimal_char. by rewrite Hc.
    - cbn [all_chars]. apply andb_true_iff. split; [done|].
      eapply all_chars_impl; [|apply string_of_uint_digits].
      intros c Hc. unfold decimal_char. by rewrite Hc. }
  assert (Py.contains "." (str_of_int z) = false) as Hdot.
  { rewrite contains_single. apply negb_false_iff.
    eapply all_chars_impl; [|exact Hd]. intros c. unfold decimal_char.
    destruct c as [[] [] [] [] [] [] [] []]; vm_compute; congruence. }
  pose proof (int_of_str_of_int z Hn) as Hi.
  unfold _parse_value.
  destruct (str_of_int z) as [|c r] eqn:E; [done|].
  cbn [all_chars] in Hd. apply andb_true_iff in Hd as [Hc _].
  assert (Py.startswith "'" (String c r) = false) as Hq1.
  { unfold Py.startswith. rewrite prefix_single.
    destruct (ascii_dec "'" c) as [<-|]; [done|done]. }
  assert (Py.startswith dquote (String c r) = false) as Hq2.
  { unfold Py.startswith, dquote, Py.dquote. rewrite prefix_single.
    destruct (ascii_dec "034" c) as [<-|]; [done|done]. }
  cbn [String.length _parse_value_fuel]. by rewrite Hq1, Hq2, Hdot, Hi.
Qed.

(** X7.  The decimal text of an integer, as [str] writes it, is read back
    as that integer, when it has no more digits than [int] accepts
    (4300). *)
Theorem parse_value_int (z : Z) :
  count_digits z <= max_str_digits ->
  _parse_value (str_of_int z) = VInt z.
Proof. apply parse_value_of_int. Qed.

Lemma word_not_quote c :
  Py.isword c = true ->
  c <> "'"%char /\ c <> "034"%char /\ c <> "("%char /\ c <> "."%char
  /\ c <> "+"%char /\ c <> "-"%char.
Proof. destruct c as [[] [] [] [] [] [] [] []]; vm_compute; intros; by repeat split. Qed.

Lemma prefix_single_word q s :
  all_chars Py.isword s = true ->
  q = "'"%char \/ q = "034"%char \/ q = "("%char ->
  String.prefix (String q "") s = false.
Proof.
  intros Hs Hq. rewrite prefix_single. destruct s as [|c s]; [done|].
  cbn [all_chars] in Hs. apply andb_true_iff in Hs as [Hc _].
  destruct (word_not_quote c Hc) as (H1 & H2 & H3 & _).
  destruct (ascii_dec q c) as [<-|]; [|done]. by destruct Hq as [->|[->| ->]].
Qed.

Lemma parse_value_bare (value : string) :
  all_chars Py.isword value = true ->
  int_of_str value = None ->
  _parse_value value =
  if String.eqb (Py.lower value) "true" then VBool true
  else if String.eqb (Py.lower value) "false" then VBool false
  else VStr value.
Proof.
  intros Hw Hi.
  assert (Py.contains "." value = false) as Hdot.
  { rewrite contains_single. apply negb_false_iff.
    eapply all_chars_impl; [|exact Hw]. intros c Hc.
    destruct (word_not_quote c Hc) as (_ & _ & _ & Hd & _).
    by destruct (Ascii.eqb_spec c "."). }
  unfold _parse_value.
  assert (forall fuel, _parse_value_fuel fuel value =
            if String.eqb (Py.lower value) "true" then VBool true
            else if String.eqb (Py.lower value) "false" then VBool false
            else VStr value) as Hf; [|apply Hf].
  intros fuel. destruct fuel; cbn [_parse_value_fuel]; unfold Py.startswith, dquote, Py.dquote;
    rewrite !prefix_single_word, Hdot, Hi by auto; cbn [andb fmap option_fmap option_map];
    done.
Qed.

(** X8.  A bare word that is no integer literal is the string it is,
    except [true] and [false] in any letter case, which are booleans. *)
Theorem parse_value_word (value : string) :
  all_chars Py.isword value = true ->
  int_of_str value = None ->
  _parse_value value =
  if String.eqb (Py.lower value) "true" then VBool true
  else if String.eqb (Py.lower value) "false" then VBool false
  else VStr value.
Proof. apply parse_value_bare. Qed.

End Literals.

Lemma parse_value_int_witness :
  count_digits (-1204) <= max_str_digits
  /\ str_of_int (-1204) = "-1204"
  /\ _parse_value (H:=example_host) (str_of_int (-1204)) = VInt (-1204).
Proof.
  split; [vm_compute; discriminate|]. split; [reflexivity|].
  apply (parse_value_int (H:=example_host) (-1204)). vm_compute. discriminate.
Defined.

(** An integer literal of 4301 digits is beyond what [int] accepts: the
    literal parser leaves it a string. *)
Example parse_value_long_literal :
  let text := String.concat "" (repeat "7" 4301) in
  read_int text = IntTooLong 4301
  /\ _parse_value (H:=example_host) text = VStr text.
Proof. cbv zeta. split; vm_compute; reflexivity. Qed.

(** *** List literals *)

Lemma str_length_app a b :
  String.length (a +:+ b) = (String.length a + String.length b)%nat.
Proof. induction a as [|x a IH]; [done|]. cbn [String.append String.length]. by rewrite IH. Qed.

Lemma drop_last_length s : (String.length (Py.drop_last s) <= String.length s)%nat.
Proof.
  induction s as [|x s IH]; [done|]. cbn [Py.drop_last].
  destruct s as [|y s]; [simpl; lia|]. cbn [String.length] in *. lia.
Qed.

Lemma lstrip_length s : (String.length (Py.lstrip s) <= String.length s)%nat.
Proof.
  induction s as [|x s IH]; [done|]. cbn [Py.lstrip].
  destruct (Py.isspace x); cbn [String.length]; lia.
Qed.

Lemma rstrip_length s : (String.length (Py.rstrip s) <= String.length s)%nat.
Proof.
  induction s as [|x s IH]; [done|]. rewrite rstrip_cons.
  destruct (Py.rstrip s) as [|y r].
  - destruct (Py.isspace x); cbn [String.length]; lia.
  - cbn [String.length] in *. lia.
Qed.

Lemma strip_length s : (String.length (Py.strip s) <= String.length s)%nat.
Proof.
  unfold Py.strip. pose proof (rstrip_length (Py.lstrip s)).
  pose proof (lstrip_length s). lia.
Qed.

Lemma split_parts_length c s :
  Forall (fun p => (String.length p <= String.length s)%nat) (split_parts c s).
Proof.
  unfold split_parts. induction s as [|x s IH]; [by repeat constructor|].
  rewrite split_char_cons. inversion IH as [|h t Hh Ht]; subst.
  assert (Forall (fun p => (String.length p <= String.length (String x s))%nat)
                 (split_char c s).2) as Ht'.
  { eapply Forall_impl; [exact Ht|]. intros p Hp. cbn beta in Hp.
    cbn [String.length]. lia. }
  destruct (Ascii.eqb x c); cbn [fst snd String.length].
  - constructor; [simpl; lia|]. constructor; [lia|done].
  - constructor; [cbn [String.length]; lia|done].
Qed.

Section ListLiterals.
Context `{Host}.

(** The recursion of [_parse_value] ends within the length of the text:
    more rounds change nothing. *)
Lemma parse_value_fuel_enough : forall f1 f2 value,
  (String.length value <= f1)%nat -> (String.length value <= f2)%nat ->
  _parse_value_fuel f1 value = _parse_value_fuel f2 value.
Proof.
  induction f1 as [|k IH]; intros f2 value H1 H2.
  - destruct value; [|simpl in H1; lia]. by destruct f2.
  - destruct f2 as [|k2].
    { destruct value; [done|simpl in H2; lia]. }
    cbn [_parse_value_fuel].
    destruct (Py.startswith "(" value) eqn:Ep; [|done].
    destruct value as [|c r]; [done|].
    assert (Forall (fun item => (String.length (Py.strip item) <= k)%nat
                                /\ (String.length (Py.strip item) <= k2)%nat)
                   (Py.split "," (Py.slice_to_last 1 (String c r)))) as Hitems.
    { rewrite split_single. eapply Forall_impl; [apply split_parts_length|].
      intros p Hp. cbn beta in Hp. unfold Py.slice_to_last in Hp.
      cbn [Py.drop] in Hp. pose proof (drop_last_length r).
      pose proof (strip_length p). cbn [String.length] in H1, H2. lia. }
    assert ((fun item => _parse_value_fuel k (Py.strip item))
              <$> Py.split "," (Py.slice_to_last 1 (String c r))
            = (fun item => _parse_value_fuel k2 (Py.strip item))
              <$> Py.split "," (Py.slice_to_last 1 (String c r))) as ->; [|done].
    apply Forall_fmap_ext. eapply Forall_impl; [exact Hitems|].
    intros item [Hk Hk2]. by apply IH.
Qed.

(** X9.  A text between parentheses, with no dot in it, is the list of
    its pieces between commas, each stripped and parsed in turn; the
    pieces are cut at every comma, nested parentheses or not. *)
Theorem parse_value_list (body : string) :
  Py.contains "." body = false ->
  _parse_value ("(" +:+ body +:+ ")")
  = VList ((fun item => _parse_value (Py.strip item)) <$> Py.split "," body).
Proof.
  intros Hdot. unfold _parse_value at 1.
  change ("(" +:+ body +:+ ")") with (String "(" (body +:+ ")")).
  cbn [String.length _parse_value_fuel].
  assert (Py.contains "." (String "(" (body +:+ ")")) = false) as ->.
  { rewrite contains_single in *. apply negb_false_iff in Hdot. apply negb_false_iff.
    cbn [all_chars]. by rewrite all_chars_app, Hdot. }
  assert (int_of_str (String "(" (body +:+ ")")) = None) as ->.
  { reflexivity. }
  assert (Py.endswith ")" (String "(" (body +:+ ")")) = true) as ->.
  { apply (endswith_last ")" (String "(" body)). }
  assert (Py.slice_to_last 1 (String "(" (body +:+ ")")) = body) as ->.
  { unfold Py.slice_to_last. cbn [Py.drop]. apply drop_last_app. }
  unfold Py.startswith, dquote, Py.dquote. rewrite !prefix_single.
  cbn. f_equal. apply Forall_fmap_ext, Forall_forall. intros item Hitem.
  apply parse_value_fuel_enough; [|done].
  rewrite split_single in Hitem.
  pose proof (split_parts_length "," body) as Hl. rewrite Forall_forall in Hl.
  specialize (Hl _ Hitem). pose proof (strip_length item).
  rewrite str_length_app. lia.
Qed.

End ListLiterals.

(** *** Examples of the lexer and the literal parser *)

Lemma blank_query_copies_witness :
  let self := mkEngine 0%nat "Data" in
  let w := mkWorld [orders] 0 in
  all_chars (fun c => Py.isspace c || Ascii.eqb c "|") " |  | " = true
  /\ heap w !! self_df self = Some orders
  /\ _parse_query (H:=example_host) " |  | " = []
  /\ execute_query (H:=example_host) self " |  | " w
     = (Ok 1%nat, mkWorld [orders; orders] 0).
Proof.
  cbv zeta. split; [reflexivity|]. split; [reflexivity|].
  apply (blank_query_copies (H:=example_host) (mkEngine 0%nat "Data") " |  | "
           (mkWorld [orders] 0) orders); reflexivity.
Defined.

Lemma keyword_case_insensitive_witness :
  "WHERE" <> "" /\ all_chars Py.isword "WHERE" = true
  /\ take_while Py.isword " value > 100 | COUNT" = ""
  /\ _parse_query (H:=example_host) "WHERE value > 100 | COUNT"
     = _parse_query (H:=example_host) "where value > 100 | COUNT".
Proof.
  split; [done|]. split; [reflexivity|]. split; [reflexivity|].
  apply (keyword_case_insensitive (H:=example_host) "WHERE" " value > 100 | COUNT");
    [done|reflexivity|reflexivity].
Defined.

Lemma parse_value_word_witness :
  all_chars Py.isword "True" = true /\ int_of_str "True" = None
  /\ _parse_value (H:=example_host) "True" = VBool true.
Proof.
  split; [reflexivity|]. split; [reflexivity|].
  apply (parse_value_word (H:=example_host) "True"); reflexivity.
Defined.

Lemma parse_value_list_witness :
  Py.contains "." "a, (b, c)" = false
  /\ _parse_value (H:=example_host) "(a, (b, c))"
     = VList [VStr "a"; VStr "(b"; VStr "c)"].
Proof.
  split; [reflexivity|].
  exact (parse_value_list (H:=example_host) "a, (b, c)" eq_refl).
Defined.

(** The literal grammar at work: the only quote character, the empty
    parentheses, and a quoted text with a quote inside. *)
Example parse_value_edges :
  _parse_value (H:=example_host) "'" = VStr ""
  /\ _parse_value (H:=example_host) "()" = VList [VStr ""]
  /\ _parse_value (H:=example_host) "'it's'" = VStr "it's"
  /\ _parse_value (H:=example_host) "-12" = VInt (-12)
  /\ _parse_value (H:=example_host) "1_000" = VInt 1000
  /\ _parse_value (H:=example_host) "FALSE" = VBool false.
Proof. repeat split; vm_compute; reflexivity. Qed.

(** ** References the stages return *)

Lemma returns_mret df : returns_ref df (mret df).
Proof. intros w r w' [= <- <-]. by left. Qed.

Lemma returns_mraise df e : returns_ref df (mraise e).
Proof. by intros w r w'. Qed.

Lemma returns_new_frame df d : returns_ref df (new_frame d).
Proof.
  intros w r w' [= <- <-]. right. simpl. rewrite length_app. simpl. lia.
Qed.

Lemma returns_mbind {A} df (m : M A) (k : A -> M loc) :
  frame_ok m -> (forall a, returns_ref df (k a)) -> returns_ref df (mbind m k).
Proof.
  intros Hm Hk w r w'. unfold mbind.
  destruct (m w) as [[a|e] w1] eqn:E; [|done].
  intros Hr. apply Hm in E. apply prefix_length in E.
  destruct (Hk a w1 r w' Hr) as [->|?]; [by left|right; lia].
Qed.

#[local] Hint Resolve returns_mret returns_mraise returns_new_frame : frame.

(** Takes a stage apart as [frame_steps] does. *)
Ltac returns_steps :=
  repeat first
    [ progress auto with frame
    | apply returns_mbind; [auto with frame|intros ?]
    | match goal with
      | |- returns_ref _ (match ?x with _ => _ end) => destruct x
      | |- returns_ref _ (if ?b then _ else _) => destruct b
      end ].

Section Returns.
Context `{Host}.

Lemma returns__where df args kwargs : returns_ref df (_where df args kwargs).
Proof. unfold _where. returns_steps. Qed.

Lemma returns__summarize df args kwargs : returns_ref df (_summarize df args kwargs).
Proof. unfold _summarize. returns_steps. Qed.

Lemma returns__project df args kwargs : returns_ref df (_project df args kwargs).
Proof. unfold _project. returns_steps. Qed.

Lemma returns__sort df args kwargs : returns_ref df (_sort df args kwargs).
Proof. unfold _sort. returns_steps. Qed.

Lemma returns__take df args kwargs : returns_ref df (_take df args kwargs).
Proof. unfold _take. returns_steps. Qed.

Lemma returns__count df args kwargs : returns_ref df (_count df args kwargs).
Proof. unfold _count. returns_steps. Qed.

Lemma returns__distinct df args kwargs : returns_ref df (_distinct df args kwargs).
Proof. unfold _distinct. returns_steps. Qed.

Lemma returns__sample df args kwargs : returns_ref df (_sample df args kwargs).
Proof. unfold _sample. returns_steps. Qed.

Lemma returns__top df args kwargs : returns_ref df (_top df args kwargs).
Proof. unfold _top. returns_steps. Qed.

Lemma returns__make_list df args kwargs : returns_ref df (_make_list df args kwargs).
Proof. unfold _make_list. returns_steps. Qed.

Lemma returns__mv_expand df args kwargs : returns_ref df (_mv_expand df args kwargs).
Proof. unfold _mv_expand. returns_steps. Qed.

(** [_extend] returns the copy it has made. *)
Lemma returns__extend df args kwargs : returns_ref df (_extend df args kwargs).
Proof.
  intros w r w'. unfold _extend, df_copy, mbind at 1 2, deref, new_frame.
  destruct (heap w !! df) as [d|] eqn:Hd; [|done].
  assert (heap (mkWorld (heap w ++ [d]) (rng w)) !! df = Some d) as Hd'.
  { simpl. rewrite lookup_app_l; [done|]. by eapply lookup_lt_Some. }
  assert (length (heap w) <> df) as Hne.
  { apply lookup_lt_Some in Hd. lia. }
  unfold mbind.
  destruct (extend_loop_total df (length (heap w)) d args _ Hd' Hne)
    as (w1 & -> & _ & _ & Hh).
  intros [= <- <-]. right. simpl in Hh.
  destruct Hh as [->|[x ->]]; rewrite ?length_insert, length_app; simpl; lia.
Qed.

Lemma returns_functions func_name f :
  lookup_function func_name _initialize_functions = Some f ->
  forall df args kwargs, returns_ref df (f df args kwargs).
Proof.
  unfold _initialize_functions. cbn [lookup_function].
  repeat (destruct (String.eqb _ func_name);
          [intros [= <-]; intros;
           first [ apply returns__where | apply returns__summarize
                 | apply returns__project | apply returns__extend
                 | apply returns__sort | apply returns__take
                 | apply returns__count | apply returns__distinct
                 | apply returns__sample | apply returns__top
                 | apply returns__make_list | apply returns__mv_expand
                 | apply returns_mret ]|]).
  done.
Qed.

Lemma returns_run_operations operations : forall result,
  returns_ref result (run_operations operations result).
Proof.
  induction operations as [|operation rest IH]; intros result; cbn [run_operations].
  - apply returns_mret.
  - destruct (lookup_function (op_function operation) _initialize_functions)
      as [f|] eqn:Ef; [|apply returns_mraise].
    intros w r w'. unfold mbind.
    destruct (call f (name := _) result (op_args operation) (op_kwargs operation) w)
      as [[r1|e] w1] eqn:Ec; [|done].
    intros Hr.
    pose proof (frame_call f _ result _ _ (frame_functions _ _ Ef result _ _) _ _ _ Ec)
      as Hp1%prefix_length.
    pose proof (frame_run_operations rest r1 _ _ _ Hr) as Hp2%prefix_length.
    assert (r1 = result \/ (length (heap w) <= r1 < length (heap w1))%nat) as H1.
    { unfold call in Ec. destruct (op_kwargs operation !! "self"); [done|].
      destruct (op_kwargs operation !! "df"); [done|].
      by eapply returns_functions. }
    destruct (IH r1 w1 r w' Hr) as [->|?]; [|right; lia].
    destruct H1 as [->|?]; [by left|right; lia].
Qed.

(** X10.  Every stage of the registry, called on any arguments, leaves
    every table of the store as it was, the table it is given included:
    what it builds is a new object ([_extend] writes into its own copy). *)
Theorem stages_keep_tables (func_name : string) (f : Stage) (df : loc)
    (args : list Value) (kwargs : gmap string Value) (w : World) (l : loc)
    (d : DataFrame) :
  lookup_function func_name _initialize_functions = Some f ->
  heap w !! l = Some d ->
  heap (f df args kwargs w).2 !! l = Some d.
Proof.
  intros Hf Hl. destruct (f df args kwargs w) as [res w'] eqn:E. simpl.
  pose proof (frame_functions _ _ Hf df args kwargs w res w' E) as Hp.
  by eapply prefix_lookup_Some.
Qed.

(** X11.  The table a query returns is an object made during the call:
    never the engine's own table, nor any object that was there before,
    even when no stage or only stages that hand their input on ran. *)
Theorem execute_query_returns_new (self : KQLEngine) (query : string)
    (w : World) (r : loc) (w' : World) :
  execute_query self query w = (Ok r, w') ->
  r <> self_df self
  /\ (length (heap w) <= r)%nat
  /\ is_Some (heap w' !! r).
Proof.
  unfold execute_query, try_except.
  destruct ((result <- df_copy (self_df self) ;; run_operations (_parse_query query) result) w)
    as [[r0|e] w0] eqn:E; [|done].
  intros [= <- <-]. unfold mbind, df_copy, mbind, deref, new_frame in E.
  destruct (heap w !! self_df self) as [d|] eqn:Hd; [|done].
  pose proof (lookup_lt_Some _ _ _ Hd) as Hlt.
  pose proof (frame_run_operations _ _ _ _ _ E) as Hp%prefix_length.
  simpl in Hp. rewrite length_app in Hp. simpl in Hp.
  destruct (returns_run_operations _ _ _ _ _ E) as [->|Hr]; simpl in *.
  - split; [lia|]. split; [lia|]. apply lookup_lt_is_Some. lia.
  - rewrite length_app in Hr. simpl in Hr.
    split; [lia|]. split; [lia|]. apply lookup_lt_is_Some. lia.
Qed.

End Returns.

Lemma stages_keep_tables_witness :
  let w := mkWorld [orders] 0 in
  lookup_function "extend" (_initialize_functions (H:=example_host))
  = Some (_extend (H:=example_host))
  /\ heap w !! 0%nat = Some orders
  /\ heap (_extend (H:=example_host) 0%nat [VStr "value=id+id"] ∅ w).2 !! 0%nat
     = Some orders.
Proof.
  cbv zeta. split; [reflexivity|]. split; [reflexivity|].
  apply (stages_keep_tables (H:=example_host) "extend" _ 0%nat [VStr "value=id+id"] ∅
           (mkWorld [orders] 0) 0%nat orders); reflexivity.
Defined.

Lemma execute_query_returns_new_witness :
  let self := mkEngine 0%nat "Data" in
  let w := mkWorld [orders] 0 in
  execute_query (H:=example_host) self "join | union" w
  = (Ok 1%nat, mkWorld [orders; orders] 0)
  /\ 1%nat <> self_df self
  /\ (length (heap w) <= 1)%nat
  /\ is_Some (heap (mkWorld [orders; orders] 0) !! 1%nat).
Proof.
  cbv zeta. split; [vm_compute; reflexivity|].
  apply (execute_query_returns_new (H:=example_host) (mkEngine 0%nat "Data")
           "join | union" (mkWorld [orders] 0) 1%nat (mkWorld [orders; orders] 0)).
  vm_compute. reflexivity.
Defined.

(** ** [sort] without arguments *)

Lemma monotonic_increasing_adjacent l : forall i a b,
  monotonic_increasing l = true ->
  l !! i = Some a -> l !! S i = Some b -> a <= b.
Proof.
  induction l as [|x l IH]; intros i a b Hm Ha Hb; [done|].
  destruct l as [|y l]; [done|]. cbn [monotonic_increasing] in Hm.
  apply andb_true_iff in Hm as [Hxy Hm]. destruct i as [|i].
  - simpl in Ha, Hb. injection Ha as <-. injection Hb as <-. by apply Z.leb_le.
  - by apply (IH i).
Qed.

Lemma value_compare_int a b : value_compare (VInt a) (VInt b) = (a ?= b).
Proof.
  unfold value_compare. cbn [as_number]. unfold Qcompare. simpl.
  by rewrite !Z.mul_1_r.
Qed.

Section SortIndex.
Context `{Host}.

(** X12.  Without arguments [sort] orders the rows by their index labels,
    ascending: the output holds the rows of the input, each once, and the
    labels of consecutive rows do not decrease. *)
Theorem sort_without_arguments (w : World) (df : loc) (d : DataFrame)
    (kwargs : gmap string Value) (r : loc) (w' : World) :
  heap w !! df = Some d ->
  _sort df [] kwargs w = (Ok r, w') ->
  exists out,
    heap w' !! r = Some out
    /\ columns out = columns d
    /\ rows out ≡ₚ rows d
    /\ (forall i r1 r2,
          rows out !! i = Some r1 -> rows out !! S i = Some r2 ->
          label r1 <= label r2).
Proof.
  intros Hd Hrun. unfold _sort in Hrun.
  apply (run_frame_stage_ok sort_index _ _ _ _ _ Hd) in Hrun as (out & Hout & Hr & _).
  exists out. split; [done|]. unfold sort_index in Hout.
  destruct (monotonic_increasing (index d)) eqn:Hm.
  - injection Hout as <-. split; [done|]. split; [done|].
    intros i r1 r2 H1 H2.
    apply (monotonic_increasing_adjacent (index d) i); [done|..];
      unfold index; by rewrite list_lookup_fmap, ?H1, ?H2.
  - destruct (nargsort _ true) as [indexer|] eqn:En; [|done].
    simpl in Hout. injection Hout as <-.
    pose proof (nargsort_perm _ _ _ En) as Hperm.
    unfold index in Hperm. rewrite !length_fmap in Hperm.
    split; [done|]. split; [by apply take_rows_perm|].
    intros i r1 r2 H1 H2. simpl in H1, H2.
    assert (Forall (fun a => a < length (rows d))%nat indexer) as Hvalid.
    { apply Forall_forall. intros a Ha. rewrite Hperm in Ha.
      apply elem_of_seq in Ha. lia. }
    rewrite omap_lookup_valid in H1, H2 by done.
    destruct (indexer !! i) as [a|] eqn:Ea; [|done].
    destruct (indexer !! S i) as [b|] eqn:Eb; [|done]. simpl in H1, H2.
    assert (sort_cell_compare true (VInt (label r1)) (VInt (label r2)) <> Gt) as Hc.
    { eapply (nargsort_adjacent _ _ _ _ _ _ _ _ En Ea Eb);
        unfold index; by rewrite !list_lookup_fmap, ?H1, ?H2. }
    cbn [sort_cell_compare isna] in Hc. rewrite value_compare_int in Hc.
    by apply Z.compare_le_iff.
Qed.

End SortIndex.

Lemma sort_without_arguments_witness :
  let d := mkFrame [("x", Int64)]
                   [mkRow 2 [VInt 5]; mkRow 0 [VInt 7]; mkRow 1 [VInt 6]] in
  let w := mkWorld [d] 0 in
  let out := mkFrame [("x", Int64)]
                     [mkRow 0 [VInt 7]; mkRow 1 [VInt 6]; mkRow 2 [VInt 5]] in
  heap w !! 0%nat = Some d
  /\ _sort (H:=example_host) 0%nat [] ∅ w = (Ok 1%nat, mkWorld [d; out] 0)
  /\ exists out',
       heap (mkWorld [d; out] 0) !! 1%nat = Some out'
       /\ columns out' = columns d
       /\ rows out' ≡ₚ rows d
       /\ (forall i r1 r2,
             rows out' !! i = Some r1 -> rows out' !! S i = Some r2 ->
             label r1 <= label r2).
Proof.
  cbv zeta. split; [reflexivity|]. split; [vm_compute; reflexivity|].
  eapply (sort_without_arguments (H:=example_host)
            (mkWorld [mkFrame [("x", Int64)]
                        [mkRow 2 [VInt 5]; mkRow 0 [VInt 7]; mkRow 1 [VInt 6]]] 0)
            0%nat _ ∅ 1%nat).
  - reflexivity.
  - vm_compute. reflexivity.
Defined.

(** ** [where] on a table that was filtered before *)

Section WhereLabels.
Context `{Host}.

Lemma where_loop_mask df conditions mask mask' :
  where_loop df mask conditions = Ok mask' ->
  mask_is_bool mask = true ->
  mask_is_bool mask' = true
  /\ length (mask_values mask') = length (mask_values mask).
Proof.
  intros Hl Hb. apply where_loop_spec in Hl as (series & _ & Hs).
  destruct series as [|bs series].
  - by subst.
  - destruct Hs as (_ & Hb' & ->). split; [done|]. by rewrite length_imap.
Qed.

(** X13.  The mask of [where] is indexed by position, the table by its
    labels: on a table (with distinct column names) that has a row whose
    label is no position of the table, as a first [where] leaves it when
    it drops a row before the last one it keeps, [where] with a condition
    string fails, whatever the condition. *)
Theorem where_needs_positional_labels (w : World) (df : loc) (d : DataFrame)
    (condition : string) (rest : list Value) (kwargs : gmap string Value)
    (row : Row) :
  heap w !! df = Some d ->
  NoDup (column_names d) ->
  row ∈ rows d ->
  (label row < 0 \/ Z.of_nat (len d) <= label row) ->
  exists e, _where df (VStr condition :: rest) kwargs w = (Raise e, w).
Proof.
  intros Hd _ Hrow Hlabel. unfold _where.
  rewrite (run_frame_stage (fun d => where_frame d condition) _ _ _ Hd).
  assert (exists e, where_frame d condition = Raise e) as [e ->]; [|by exists e].
  unfold where_frame.
  destruct (where_loop d (all_true (len d)) (where_conditions condition))
    as [mask|e] eqn:El; [|by exists e].
  assert (len d <> 0)%nat as Hn.
  { unfold len. destruct (rows d); [by apply elem_of_nil in Hrow|done]. }
  apply where_loop_mask in El as [Hb Hlen].
  2:{ cbn [all_true mask_is_bool]. by destruct (len d). }
  cbn [all_true mask_values] in Hlen. rewrite length_replicate in Hlen.
  cbn [rbind]. unfold getitem_bool. rewrite Hb.
  match goal with |- context [rmap ?f (rows d)] =>
    destruct (rmap_raise f (rows d) row
                (mkExn IndexingError
                   "Unalignable boolean Series provided as indexer (index of the boolean Series and of the indexed object do not match).")
                Hrow) as [e' ->]
  end; [|by exists e'].
  destruct (0 <=? label row) eqn:E0; [|done].
  rewrite lookup_ge_None_2; [done|]. apply Z.leb_le in E0. lia.
Qed.

End WhereLabels.

Lemma where_needs_positional_labels_witness :
  let d := mkFrame (columns orders) [mkRow 0 [VInt 1; VStr "success"; VInt 120];
                                     mkRow 2 [VInt 3; VStr "success"; VInt 200]] in
  let w := mkWorld [orders; d] 0 in
  let row := mkRow 2 [VInt 3; VStr "success"; VInt 200] in
  _where (H:=example_host) 0%nat [VStr "value > 100"] ∅ (mkWorld [orders] 0)
  = (Ok 1%nat, w)
  /\ heap w !! 1%nat = Some d
  /\ NoDup (column_names d)
  /\ row ∈ rows d
  /\ (label row < 0 \/ Z.of_nat (len d) <= label row)
  /\ exists e, _where (H:=example_host) 1%nat [VStr "id > 0"] ∅ w = (Raise e, w).
Proof.
  cbv zeta. split; [vm_compute; reflexivity|]. split; [reflexivity|].
  assert (mkRow 2 [VInt 3; VStr "success"; VInt 200]
          ∈ rows (mkFrame (columns orders)
                    [mkRow 0 [VInt 1; VStr "success"; VInt 120];
                     mkRow 2 [VInt 3; VStr "success"; VInt 200]])) as Hrow.
  { apply list_elem_of_further, list_elem_of_here. }
  assert (NoDup (column_names orders)) as Hnd
    by (apply (bool_decide_unpack _); vm_compute; exact I).
  split; [exact Hnd|]. split; [exact Hrow|]. split; [right; by vm_compute|].
  eapply (where_needs_positional_labels (H:=example_host));
    [reflexivity|exact Hnd|exact Hrow|].
  right. by vm_compute.
Defined.

(** ** Queries from end to end: [take] and [count] *)

Lemma str_of_int_decimal z : all_chars decimal_char (str_of_int z) = true.
Proof.
  unfold str_of_int. destruct z as [|p|p]; [done|..];
    cbn [Z.to_int NilZero.string_of_int];
    (assert (NilZero.string_of_uint (Pos.to_uint p)
             = NilEmpty.string_of_uint (Pos.to_uint p)) as ->;
     [pose proof (DecimalPos.Unsigned.to_uint_nonnil p); by destruct (Pos.to_uint p)|]).
  - eapply all_chars_impl; [|apply string_of_uint_digits].
    intros c Hc. unfold decimal_char. by rewrite Hc.
  - cbn [all_chars]. apply andb_true_iff. split; [done|].
    eapply all_chars_impl; [|apply string_of_uint_digits].
    intros c Hc. unfold decimal_char. by rewrite Hc.
Qed.

Lemma str_of_int_nonempty z : str_of_int z <> "".
Proof.
  unfold str_of_int. destruct z as [|p|p]; [done| |done].
  cbn [Z.to_int NilZero.string_of_int].
  pose proof (DecimalPos.Unsigned.to_uint_nonnil p). by destruct (Pos.to_uint p).
Qed.

(** What a decimal character is not. *)
Lemma decimal_char_plain c :
  decimal_char c = true ->
  Py.isspace c = false /\ Ascii.eqb c "|" = false /\ Ascii.eqb c "," = false
  /\ Ascii.eqb c "=" = false /\ Ascii.eqb c newline = false
  /\ Ascii.eqb c "(" = false /\ Ascii.eqb c ")" = false.
Proof. destruct c as [[] [] [] [] [] [] [] []]; vm_compute; intros; by repeat split. Qed.

Lemma take_while_all_id p s : all_chars p s = true -> take_while p s = s.
Proof.
  induction s as [|x s IH]; [done|]. cbn [all_chars take_while].
  intros [-> Hs]%andb_true_iff. by rewrite IH.
Qed.

Lemma split_parts_solid c s :
  all_chars (fun x => negb (Ascii.eqb x c)) s = true -> split_parts c s = [s].
Proof.
  intros Hs. unfold split_parts.
  rewrite <- (str_app_nil_r s) at 1 2. rewrite (split_char_solid c s "" Hs).
  simpl. by rewrite str_app_nil_r.
Qed.

Lemma commas_nested_none s : forall d,
  all_chars (fun x => negb (Ascii.eqb x ",")) s = true -> commas_nested d s = true.
Proof.
  induction s as [|x s IH]; intros d; [done|]. cbn [all_chars commas_nested].
  intros [Hx Hs]%andb_true_iff. apply negb_true_iff in Hx. rewrite Hx. simpl.
  by apply IH.
Qed.

Lemma split1_none c s :
  all_chars (fun x => negb (Ascii.eqb x c)) s = true ->
  Py.split1 (String c "") s = (s, None).
Proof.
  intros Hs. unfold Py.split1.
  pose proof (contains_single c s) as Hc. rewrite Hs in Hc. unfold Py.contains in Hc.
  by destruct (Py.partition (String c "") s).
Qed.

Section EndToEnd.
Context `{Host}.

(** The arguments of a stage whose argument text is one integer. *)
Lemma parse_arguments_int z :
  count_digits z <= max_str_digits ->
  _parse_arguments (str_of_int z) = ([VInt z], ∅).
Proof.
  intros Hn. pose proof (str_of_int_decimal z) as Hd. pose proof (str_of_int_nonempty z) as Hne.
  assert (forall p, (forall c, decimal_char c = true -> p c = true) ->
                    all_chars p (str_of_int z) = true) as Hall.
  { intros p Hp. by eapply all_chars_impl. }
  unfold _parse_arguments.
  assert (String.eqb (str_of_int z) "" = false) as ->.
  { by destruct (str_of_int z). }
  assert (tokenize (str_of_int z) = [str_of_int z]) as ->.
  { unfold tokenize, tokenizer_finish.
    destruct (tokenizer_run_nested (str_of_int z) tokenizer_start) as [-> ->].
    { apply commas_nested_none, Hall. intros c Hc.
      destruct (decimal_char_plain c Hc) as (_ & _ & -> & _). done. }
    cbn [tokenizer_start tokens current_token String.append].
    rewrite strip_solid.
    - by destruct (str_of_int z).
    - apply Hall. intros c Hc. destruct (decimal_char_plain c Hc) as (-> & _). done. }
  cbn [foldl]. unfold classify_token.
  rewrite split1_none.
  - by rewrite parse_value_of_int.
  - apply Hall. intros c Hc.
    destruct (decimal_char_plain c Hc) as (_ & _ & _ & -> & _). done.
Qed.

Lemma parse_query_take z :
  count_digits z <= max_str_digits ->
  _parse_query ("take " +:+ str_of_int z) = [mkOperation "take" [VInt z] ∅].
Proof.
  intros Hn. pose proof (str_of_int_decimal z) as Hd. pose proof (str_of_int_nonempty z) as Hne.
  assert (forall p, (forall c, decimal_char c = true -> p c = true) ->
                    all_chars p (str_of_int z) = true) as Hall.
  { intros p Hp. by eapply all_chars_impl. }
  rewrite parse_query_parts, split_parts_solid.
  2:{ change ("take " +:+ str_of_int z) with ("take " +:+ str_of_int z).
      rewrite all_chars_app. apply andb_true_iff. split; [reflexivity|].
      apply Hall. intros c Hc.
      destruct (decimal_char_plain c Hc) as (_ & -> & _). done. }
  rewrite bind_cons. change ([] ≫= parse_part) with (@nil Operation).
  rewrite app_nil_r.
  change ("take " +:+ str_of_int z) with ("take" +:+ String " " (str_of_int z)).
  rewrite parse_part_word; [|done|reflexivity|reflexivity].
  assert (all_chars (fun c => negb (Py.isspace c)) (str_of_int z) = true) as Hsolid.
  { apply Hall. intros c Hc. destruct (decimal_char_plain c Hc) as (-> & _). done. }
  assert (Py.rstrip (String " " (str_of_int z)) = String " " (str_of_int z)) as ->.
  { rewrite rstrip_cons, (rstrip_solid _ Hsolid). by destruct (str_of_int z). }
  assert (drop_while Py.isspace (String " " (str_of_int z)) = str_of_int z) as ->.
  { cbn [drop_while]. change (Py.isspace " ") with true. cbn iota.
    destruct (str_of_int z) as [|c r]; [done|]. cbn [all_chars] in Hsolid.
    apply andb_true_iff in Hsolid as [Hc%negb_true_iff _].
    cbn [drop_while]. by rewrite Hc. }
  rewrite take_while_all_id.
  2:{ apply Hall. intros c Hc.
      destruct (decimal_char_plain c Hc) as (_ & _ & _ & _ & -> & _). done. }
  by rewrite (strip_solid _ Hsolid), parse_arguments_int.
Qed.

(** X14.  The query [take n], [n] written in decimal with no more digits
    than [int] accepts (4300), returns the first [n] rows of the
    engine's table (all of them when there are fewer), in their order and
    with all columns; for a negative [n], all rows but the last [-n]. *)
Theorem query_take (self : KQLEngine) (w : World) (d : DataFrame) (n : Z) :
  heap w !! self_df self = Some d ->
  count_digits n <= max_str_digits ->
  exists out,
    execute_query self ("take " +:+ str_of_int n) w
    = (Ok (S (length (heap w))), mkWorld (heap w ++ [d; out]) (rng w))
    /\ columns out = columns d
    /\ rows out = take (if 0 <=? n then Z.to_nat n
                        else (len d - Z.to_nat (- n))%nat) (rows d).
Proof.
  intros Hd Hn. exists (head n d). split; [|done].
  unfold execute_query, try_except. rewrite parse_query_take by done.
  unfold mbind at 1. unfold df_copy, mbind at 1, deref, new_frame. rewrite Hd.
  cbn [run_operations op_function op_args op_kwargs].
  change (lookup_function "take" _initialize_functions) with (Some _take).
  unfold mbind, call. rewrite !lookup_empty. unfold _take, mbind, lift, deref, new_frame.
  cbn [py_int heap rng]. rewrite lookup_app_r, Nat.sub_diag by done.
  cbn [lookup list_lookup mret heap rng]. rewrite length_app. cbn [length].
  rewrite Nat.add_1_r, <- app_assoc. done.
Qed.

(** X15.  When a query succeeds, the same query followed by [| count]
    returns a new table of one row and one column, [count], that holds
    the number of rows of the table the query returns. *)
Theorem query_then_count (self : KQLEngine) (query : string) (w w1 : World)
    (r1 : loc) (out : DataFrame) :
  execute_query self query w = (Ok r1, w1) ->
  heap w1 !! r1 = Some out ->
  execute_query self (query +:+ "| count") w
  = (Ok (length (heap w1)),
     mkWorld (heap w1 ++ [mkFrame [("count", Int64)]
                                  [mkRow 0 [VInt (Z.of_nat (len out))]]])
             (rng w1)).
Proof.
  intros Hq Hout.
  change (query +:+ "| count") with (query +:+ "|" +:+ " count").
  rewrite execute_query_concat, Hq.
  assert (_parse_query " count" = [mkOperation "count" [] ∅]) as ->
    by (vm_compute; reflexivity).
  unfold try_except. cbn [run_operations op_function op_args op_kwargs].
  change (lookup_function "count" _initialize_functions) with (Some _count).
  unfold mbind, call. rewrite !lookup_empty. unfold _count, mbind, deref, new_frame.
  by rewrite Hout.
Qed.

End EndToEnd.

Lemma query_take_witness :
  let self := mkEngine 0%nat "Data" in
  let w := mkWorld [orders] 0 in
  heap w !! self_df self = Some orders
  /\ count_digits 2 <= max_str_digits
  /\ execute_query (H:=example_host) self "take 2" w
     = (Ok 2%nat, mkWorld [orders; orders; head 2 orders] 0)
  /\ exists out,
       execute_query (H:=example_host) self ("take " +:+ str_of_int 2) w
       = (Ok (S (length (heap w))), mkWorld (heap w ++ [orders; out]) (rng w))
       /\ columns out = columns orders
       /\ rows out = take (if 0 <=? 2 then Z.to_nat 2
                           else (len orders - Z.to_nat (- 2))%nat) (rows orders).
Proof.
  cbv zeta. split; [reflexivity|]. split; [vm_compute; discriminate|].
  split; [vm_compute; reflexivity|].
  apply (query_take (H:=example_host) (mkEngine 0%nat "Data")
           (mkWorld [orders] 0) orders 2); [reflexivity|vm_compute; discriminate].
Defined.

Lemma query_then_count_witness :
  let self := mkEngine 0%nat "Data" in
  let w := mkWorld [orders] 0 in
  let out := mkFrame (columns orders)
               [mkRow 0 [VInt 1; VStr "success"; VInt 120];
                mkRow 2 [VInt 3; VStr "success"; VInt 200]] in
  let w1 := mkWorld [orders; orders; out] 0 in
  execute_query (H:=example_host) self "where value > 100" w = (Ok 2%nat, w1)
  /\ heap w1 !! 2%nat = Some out
  /\ execute_query (H:=example_host) self "where value > 100| count" w
     = (Ok 3%nat,
        mkWorld [orders; orders; out;
                 mkFrame [("count", Int64)] [mkRow 0 [VInt 2]]] 0).
Proof.
  cbv zeta. split; [vm_compute; reflexivity|]. split; [reflexivity|].
  apply (query_then_count (H:=example_host) (mkEngine 0%nat "Data")
           "where value > 100" (mkWorld [orders] 0)
           (mkWorld [orders; orders;
                     mkFrame (columns orders)
                       [mkRow 0 [VInt 1; VStr "success"; VInt 120];
                        mkRow 2 [VInt 3; VStr "success"; VInt 200]]] 0)
           2%nat
           (mkFrame (columns orders)
              [mkRow 0 [VInt 1; VStr "success"; VInt 120];
               mkRow 2 [VInt 3; VStr "success"; VInt 200]]));
    [vm_compute|]; reflexivity.
Defined.

(** ** [project] *)

Lemma rmap_fmap_ok {A B} (f : A -> Result B) (g : A -> B) l :
  Forall (fun x => f x = Ok (g x)) l -> rmap f l = Ok (g <$> l).
Proof.
  induction 1 as [|x l Hx _ IH]; [done|]. cbn [rmap]. by rewrite Hx, IH.
Qed.

Lemma column_position_name name cols p :
  column_position name cols = Some p ->
  exists t, cols !! p = Some (name, t).
Proof.
  revert p. induction cols as [|[c t] cols IH]; intros p; [done|].
  cbn [column_position]. destruct (String.eqb_spec c name) as [->|Hne].
  - intros [= <-]. by exists t.
  - destruct (column_position name cols) as [q|]; [|done].
    intros [= <-]. by apply IH.
Qed.

Lemma flatten_args_strings names : flatten_args (VStr <$> names) = VStr <$> names.
Proof.
  unfold flatten_args. induction names as [|n names IH]; [done|].
  rewrite fmap_cons, bind_cons. by rewrite IH.
Qed.

Lemma filter_present (p : string -> bool) names :
  (List.filter snd ((fun n => (VStr n, p n)) <$> names)).*1
  = VStr <$> List.filter p names.
Proof.
  induction names as [|n names IH]; [done|]. rewrite fmap_cons.
  cbn [List.filter snd]. destruct (p n); rewrite ?fmap_cons; cbn [fst]; by rewrite <- IH.
Qed.

Section Project.
Context `{Host}.

Lemma in_columns_names d names :
  rmap (fun col => b <-r in_columns d col;; Ok (col, b)) (VStr <$> names)
  = Ok ((fun n => (VStr n, has_column d n)) <$> names).
Proof.
  induction names as [|n names IH]; [done|]. rewrite !fmap_cons.
  cbn [rmap in_columns rbind]. by rewrite IH.
Qed.

(** The positions of names the table has. *)
Lemma as_label_names d names :
  Forall (fun n => has_column d n = true) names ->
  rmap (as_label d) (VStr <$> names)
  = Ok ((fun n => default 0%nat (column_position n (columns d))) <$> names).
Proof.
  induction 1 as [|n names Hc _ IH]; [done|]. rewrite !fmap_cons.
  cbn [rmap as_label]. rewrite IH. unfold has_column in Hc.
  by destruct (column_position n (columns d)).
Qed.

Lemma project_run (w : World) (df : loc) (d : DataFrame) (names : list string)
    (kwargs : gmap string Value) :
  heap w !! df = Some d ->
  _project df (VStr <$> names) kwargs w =
  match List.filter (has_column d) names with
  | [] => (Ok df, w)
  | existing =>
      (Ok (length (heap w)),
       mkWorld (heap w ++
                [select_columns d
                   ((fun n => default 0%nat (column_position n (columns d)))
                      <$> existing)])
               (rng w))
  end.
Proof.
  intros Hd. unfold _project.
  destruct names as [|n0 names0]; [done|].
  rewrite fmap_cons. cbv beta iota zeta. rewrite <- fmap_cons.
  rewrite flatten_args_strings. unfold mbind at 1. unfold deref. rewrite Hd.
  unfold mbind at 1. unfold lift at 1. rewrite in_columns_names, filter_present.
  destruct (List.filter (has_column d) (n0 :: names0)) as [|e existing] eqn:Ee;
    [done|].
  rewrite fmap_cons. cbv beta iota zeta. rewrite <- fmap_cons.
  unfold mbind, lift. rewrite as_label_names; [done|].
  rewrite <- Ee. apply Forall_forall. intros n Hn.
  apply list_elem_of_In, filter_In in Hn. tauto.
Qed.

(** X16.  On a table with distinct column names, [project] on column
    names keeps the named columns the table has, in the order they are
    named, and leaves out the others without an error; the rows keep
    their labels and their number.  When the table has none of the named
    columns, [project] hands on the table it was given. *)
Theorem project_named_columns (w : World) (df : loc) (d : DataFrame)
    (names : list string) (kwargs : gmap string Value) :
  heap w !! df = Some d ->
  NoDup (column_names d) ->
  let existing := List.filter (has_column d) names in
  (existing = [] -> _project df (VStr <$> names) kwargs w = (Ok df, w))
  /\ (existing <> [] ->
      exists out,
        _project df (VStr <$> names) kwargs w
        = (Ok (length (heap w)), mkWorld (heap w ++ [out]) (rng w))
        /\ column_names out = existing
        /\ index out = index d
        /\ forall i j row name p,
             rows d !! i = Some row -> existing !! j = Some name ->
             column_position name (columns d) = Some p ->
             exists row', rows out !! i = Some row'
                          /\ cells row' !! j = Some (cell p row)).
Proof.
  intros Hd _ existing. rewrite (project_run w df d names kwargs Hd).
  fold existing. split; [by intros ->|]. intros Hne.
  destruct existing as [|e ex] eqn:Ee; [done|]. rewrite <- Ee in *.
  eexists. split; [reflexivity|]. split; [|split].
  - unfold column_names, select_columns. cbn [columns].
    rewrite <- !list_fmap_compose. rewrite <- (list_fmap_id existing) at 2.
    apply Forall_fmap_ext, Forall_forall. intros n Hn.
    assert (has_column d n = true) as Hc.
    { subst existing. apply list_elem_of_In, filter_In in Hn. tauto. }
    cbn [compose]. unfold has_column in Hc.
    destruct (column_position n (columns d)) as [p|] eqn:Ep; [|done].
    apply column_position_name in Ep as [t Ep]. cbn [default id].
    unfold column_at. by rewrite (nth_lookup_Some _ _ _ _ Ep).
  - unfold index, select_columns. cbn [rows]. by rewrite <- list_fmap_compose.
  - intros i j row name p Hi Hj Hp. unfold select_columns. cbn [rows].
    rewrite list_lookup_fmap, Hi. eexists. split; [reflexivity|].
    cbn [cells]. rewrite <- list_fmap_compose, list_lookup_fmap, Hj.
    cbn [fmap option_fmap option_map compose]. by rewrite Hp.
Qed.

End Project.

Lemma project_named_columns_witness :
  let w := mkWorld [orders] 0 in
  let names := ["value"; "nosuch"; "id"] in
  heap w !! 0%nat = Some orders
  /\ NoDup (column_names orders)
  /\ _project (H:=example_host) 0%nat (VStr <$> names) ∅ w
     = (Ok 1%nat,
        mkWorld [orders;
                 mkFrame [("value", Int64); ("id", Int64)]
                   [mkRow 0 [VInt 120; VInt 1]; mkRow 1 [VInt 80; VInt 2];
                    mkRow 2 [VInt 200; VInt 3]]] 0)
  /\ let existing := List.filter (has_column orders) names in
     (existing = [] -> _project (H:=example_host) 0%nat (VStr <$> names) ∅ w = (Ok 0%nat, w))
     /\ (existing <> [] ->
         exists out,
           _project (H:=example_host) 0%nat (VStr <$> names) ∅ w
           = (Ok (length (heap w)), mkWorld (heap w ++ [out]) (rng w))
           /\ column_names out = existing
           /\ index out = index orders
           /\ forall i j row name p,
                rows orders !! i = Some row -> existing !! j = Some name ->
                column_position name (columns orders) = Some p ->
                exists row', rows out !! i = Some row'
                             /\ cells row' !! j = Some (cell p row)).
Proof.
  cbv zeta. split; [reflexivity|].
  assert (NoDup (column_names orders)) as Hnd
    by (apply (bool_decide_unpack _); vm_compute; exact I).
  split; [exact Hnd|]. split; [vm_compute; reflexivity|].
  apply (project_named_columns (H:=example_host) (mkWorld [orders] 0) 0%nat orders
           ["value"; "nosuch"; "id"] ∅); [reflexivity|exact Hnd].
Defined.

(** ** [distinct] *)

Lemma existsb_app_false {A} (f : A -> bool) l x :
  existsb f (l ++ [x]) = false -> existsb f l = false /\ f x = false.
Proof.
  rewrite existsb_app. cbn [existsb]. rewrite orb_false_r.
  by intros [??]%orb_false_elim.
Qed.

Section DropDuplicates.
Variable same : Value -> Value -> bool.
Variable ps : list nat.

Lemma drop_duplicate_rows_sublist rs : forall seen,
  drop_duplicate_rows same ps seen rs `sublist_of` rs.
Proof.
  induction rs as [|r rs IH]; intros seen; [done|]. cbn [drop_duplicate_rows].
  destruct (existsb _ seen); [by apply sublist_cons|by apply sublist_skip].
Qed.

(** A row that is kept is the same as no key seen before it. *)
Lemma drop_duplicate_rows_unseen rs : forall seen row,
  row ∈ drop_duplicate_rows same ps seen rs ->
  existsb (same_key same (key_of ps row)) seen = false.
Proof.
  induction rs as [|r rs IH]; intros seen row; [by intros ?%elem_of_nil|].
  cbn [drop_duplicate_rows].
  destruct (existsb (same_key same (key_of ps r)) seen) eqn:E; [by apply IH|].
  intros [->|Hin]%elem_of_cons; [done|].
  by apply IH, existsb_app_false in Hin as [? _].
Qed.

Lemma drop_duplicate_rows_distinct rs : forall seen i j r1 r2,
  (i < j)%nat ->
  drop_duplicate_rows same ps seen rs !! i = Some r1 ->
  drop_duplicate_rows same ps seen rs !! j = Some r2 ->
  same_key same (key_of ps r2) (key_of ps r1) = false.
Proof.
  induction rs as [|r rs IH]; intros seen i j r1 r2 Hij; [done|].
  cbn [drop_duplicate_rows].
  destruct (existsb (same_key same (key_of ps r)) seen); [by apply IH|].
  destruct j as [|j]; [lia|]. destruct i as [|i]; cbn [lookup list_lookup].
  - intros [= <-] H2. apply list_elem_of_lookup_2, drop_duplicate_rows_unseen in H2.
    by apply existsb_app_false in H2 as [_ H2].
  - apply IH. lia.
Qed.

(** A row of the input is kept, or is the same as a key seen before it,
    or as a row that is kept. *)
Lemma drop_duplicate_rows_cover rs : forall seen row,
  row ∈ rs ->
  existsb (same_key same (key_of ps row)) seen = true
  \/ row ∈ drop_duplicate_rows same ps seen rs
  \/ exists row', row' ∈ drop_duplicate_rows same ps seen rs
                  /\ same_key same (key_of ps row) (key_of ps row') = true.
Proof.
  induction rs as [|r rs IH]; intros seen row; [by intros ?%elem_of_nil|].
  cbn [drop_duplicate_rows]. intros Hin.
  destruct (existsb (same_key same (key_of ps r)) seen) eqn:E.
  - apply elem_of_cons in Hin as [->|Hin]; [by left|by apply IH].
  - apply elem_of_cons in Hin as [->|Hin].
    + right. left. apply list_elem_of_here.
    + destruct (IH (seen ++ [key_of ps r]) row Hin) as [Hs|[Hr|(row' & Hr & Hk)]].
      * rewrite existsb_app in Hs. cbn [existsb] in Hs. rewrite orb_false_r in Hs.
        apply orb_true_iff in Hs as [Hs|Hs]; [by left|].
        right. right. exists r. split; [apply list_elem_of_here|done].
      * right. left. by apply list_elem_of_further.
      * right. right. exists row'. split; [by apply list_elem_of_further|done].
Qed.

End DropDuplicates.

Section Distinct.
Context `{Host}.

Lemma distinct_drop_duplicates df d args kwargs w r w' :
  heap w !! df = Some d ->
  _distinct df args kwargs w = (Ok r, w') ->
  exists out,
    drop_duplicates d (match args with
                       | [] => None
                       | _ :: _ => Some (flatten_args args)
                       end) = Ok out
    /\ heap w' !! r = Some out.
Proof.
  intros Hd Hrun. unfold _distinct in Hrun.
  unfold mbind at 1 in Hrun. unfold deref in Hrun. rewrite Hd in Hrun.
  destruct args as [|a args]; unfold mbind, lift, new_frame in Hrun;
    destruct (drop_duplicates d _) as [out|] eqn:Eo; try done;
    injection Hrun as <- <-; exists out; (split; [done|]); simpl;
    by rewrite lookup_app_r, Nat.sub_diag.
Qed.

(** X17.  When [distinct] succeeds, its output has the columns of the
    input and holds rows of the input in their order.  On a table with a
    column, no row of the output is, on the columns compared (the listed
    columns, or all columns when none is listed), the same as a row
    before it, and every row of the input is in the output or is, on
    those columns, the same as a row of the output.  A table without
    columns is returned as it is.  Two cells are the same as
    [distinct_same] says: equal, or both NaN, when one column is compared
    and the column names are unique (a [None] and a NaN then differ, and
    lists are compared item by item); equal, or both missing,
    otherwise. *)
Theorem distinct_rows (w : World) (df : loc) (d : DataFrame) (args : list Value)
    (kwargs : gmap string Value) (r : loc) (w' : World) :
  heap w !! df = Some d ->
  _distinct df args kwargs w = (Ok r, w') ->
  exists out,
    heap w' !! r = Some out
    /\ columns out = columns d
    /\ rows out `sublist_of` rows d
    /\ (columns d = [] -> rows out = rows d)
    /\ (columns d <> [] ->
        (forall i j r1 r2,
           (i < j)%nat -> rows out !! i = Some r1 -> rows out !! j = Some r2 ->
           same_key (distinct_same d args)
                    (key_of (distinct_positions d args) r2)
                    (key_of (distinct_positions d args) r1) = false)
        /\ (forall row, row ∈ rows d ->
              row ∈ rows out
              \/ exists row', row' ∈ rows out
                   /\ same_key (distinct_same d args)
                               (key_of (distinct_positions d args) row)
                               (key_of (distinct_positions d args) row') = true)).
Proof.
  intros Hd Hrun.
  destruct (distinct_drop_duplicates _ _ _ _ _ _ _ Hd Hrun) as (out & Hout & Hr).
  exists out. split; [done|]. clear Hrun Hr.
  unfold drop_duplicates in Hout.
  assert (default (VStr <$> column_names d)
                  (match args with
                   | [] => None
                   | _ :: _ => Some (flatten_args args)
                   end) = distinct_subset d args) as Hsub by by destruct args.
  rewrite Hsub in Hout. clear Hsub.
  destruct (len d =? 0)%nat eqn:El.
  { injection Hout as Ho. subst out. apply Nat.eqb_eq in El. unfold len in El.
    destruct (rows d) eqn:Er; [|done].
    split; [done|]. split; [done|]. split; [done|]. intros _.
    split; [done|]. by intros row ?%elem_of_nil. }
  destruct (length (columns d) =? 0)%nat eqn:Ec.
  { injection Hout as Ho. subst out. apply Nat.eqb_eq in Ec.
    destruct (columns d) eqn:Ecols; [|done]. by repeat split. }
  cbn [orb] in Hout.
  destruct (existsb is_list _); [done|].
  destruct (List.filter _ (distinct_subset d args)); [|done].
  fold (distinct_positions d args) in Hout.
  assert (exists same,
            distinct_same d args = same
            /\ out = mkFrame (columns d)
                 (drop_duplicate_rows same (distinct_positions d args) [] (rows d)))
    as (same & Hsame & ->).
  { unfold distinct_same.
    destruct ((length _ =? 1)%nat && _).
    { injection Hout as <-. exists same_object. split; reflexivity. }
    destruct (length (distinct_subset d args) =? 0)%nat; [done|].
    destruct (existsb _ (rows d)); [done|]. injection Hout as <-.
    exists same_code. split; reflexivity. }
  rewrite Hsame. cbn [columns rows]. split; [done|].
  split; [apply drop_duplicate_rows_sublist|]. split.
  { intros E. by rewrite E in Ec. }
  intros _. split.
  - intros i j r1 r2. apply drop_duplicate_rows_distinct.
  - intros row Hrow.
    destruct (drop_duplicate_rows_cover same (distinct_positions d args)
                (rows d) [] row Hrow) as [?|[?|?]]; [done|by left|by right].
Qed.

End Distinct.

Lemma distinct_rows_witness :
  let w := mkWorld [orders] 0 in
  let out := mkFrame (columns orders)
               [mkRow 0 [VInt 1; VStr "success"; VInt 120];
                mkRow 1 [VInt 2; VStr "fail"; VInt 80]] in
  let w' := mkWorld [orders; out] 0 in
  let args := [VStr "status"] in
  heap w !! 0%nat = Some orders
  /\ _distinct (H:=example_host) 0%nat args ∅ w = (Ok 1%nat, w')
  /\ distinct_positions orders args = [1%nat]
  /\ exists out',
       heap w' !! 1%nat = Some out'
       /\ columns out' = columns orders
       /\ rows out' `sublist_of` rows orders
       /\ (columns orders = [] -> rows out' = rows orders)
       /\ (columns orders <> [] ->
           (forall i j r1 r2,
              (i < j)%nat -> rows out' !! i = Some r1 -> rows out' !! j = Some r2 ->
              same_key (distinct_same orders args)
                       (key_of (distinct_positions orders args) r2)
                       (key_of (distinct_positions orders args) r1) = false)
           /\ (forall row, row ∈ rows orders ->
                 row ∈ rows out'
                 \/ exists row', row' ∈ rows out'
                      /\ same_key (distinct_same orders args)
                                  (key_of (distinct_positions orders args) row)
                                  (key_of (distinct_positions orders args) row') = true)).
Proof.
  cbv zeta. split; [reflexivity|]. split; [vm_compute; reflexivity|].
  split; [reflexivity|].
  apply (distinct_rows (H:=example_host) (mkWorld [orders] 0) 0%nat orders
           [VStr "status"] ∅ 1%nat); [reflexivity|vm_compute; reflexivity].
Defined.

(** One compared column takes list cells, which it compares item by
    item, and tells [None] from NaN; two compared columns merge [None]
    and NaN and fail on a list. *)
Example distinct_cells :
  let d := mkFrame [("a", ObjectT); ("b", ObjectT)]
                   [mkRow 0 [VList [VInt 1]; VNone];
                    mkRow 1 [VList [VInt 1]; VNull];
                    mkRow 2 [VList [VInt 2]; VNull]] in
  drop_duplicates (H:=example_host) d (Some [VStr "a"])
  = Ok (mkFrame (columns d) [mkRow 0 [VList [VInt 1]; VNone];
                             mkRow 2 [VList [VInt 2]; VNull]])
  /\ drop_duplicates (H:=example_host) d (Some [VStr "b"])
     = Ok (mkFrame (columns d) [mkRow 0 [VList [VInt 1]; VNone];
                                mkRow 1 [VList [VInt 1]; VNull]])
  /\ drop_duplicates (H:=example_host) d None
     = Raise (mkExn TypeError "unhashable type: 'list'")
  /\ drop_duplicates (H:=example_host) d (Some [VStr "b"; VStr "b"])
     = Ok (mkFrame (columns d) [mkRow 0 [VList [VInt 1]; VNone]])
  /\ drop_duplicates (H:=example_host) d (Some [VStr "nosuch"])
     = Raise (mkExn KeyError "Index(['nosuch'], dtype='object')").
Proof. cbv zeta. repeat split; vm_compute; reflexivity. Qed.

(** ** [make_list] and [mv_expand] *)

Section MakeList.
Context `{Host}.

(** X18.  [mv_expand] on the column [make_list] has made gives the values
    of the listed column back, one row each and in their order, all under
    the label 0; for a table without rows it gives one row with a missing
    value. *)
Theorem make_list_then_mv_expand (w : World) (df : loc) (d : DataFrame)
    (column : string) (p : nat) (kwargs kwargs' : gmap string Value) :
  heap w !! df = Some d ->
  NoDup (column_names d) ->
  column_position column (columns d) = Some p ->
  let values := cell p <$> rows d in
  let made := mkFrame [(column +:+ "_list", ObjectT)] [mkRow 0 [VList values]] in
  let expanded :=
    mkFrame [(column +:+ "_list", ObjectT)]
            (match values with
             | [] => [mkRow 0 [VNull]]
             | _ :: _ => (fun v => mkRow 0 [v]) <$> values
             end) in
  _make_list df [VStr column] kwargs w
  = (Ok (length (heap w)), mkWorld (heap w ++ [made]) (rng w))
  /\ _mv_expand (length (heap w)) [VStr (column +:+ "_list")] kwargs'
       (mkWorld (heap w ++ [made]) (rng w))
     = (Ok (S (length (heap w))), mkWorld (heap w ++ [made; expanded]) (rng w)).
Proof.
  intros Hd _ Hp values made expanded. split.
  - unfold _make_list, mbind, deref, lift, new_frame. rewrite Hd.
    cbn [in_columns]. unfold has_column, column_of. rewrite Hp. done.
  - unfold _mv_expand, mbind, deref, lift, new_frame. cbn [heap rng].
    rewrite lookup_app_r, Nat.sub_diag by done. cbn [lookup list_lookup].
    cbn [in_columns]. unfold has_column, made. cbn [columns column_position].
    rewrite String.eqb_refl. cbn [as_label columns column_position].
    rewrite String.eqb_refl. cbn [rows existsb cell cells nth is_list orb].
    unfold explode. cbn [column_names columns fmap list_fmap fst].
    destruct (decide (NoDup [column +:+ "_list"])) as [_|Hn].
    2:{ exfalso. apply Hn. apply NoDup_singleton. }
    cbn [heap rng rows]. rewrite length_app. cbn [length].
    rewrite Nat.add_1_r, <- app_assoc. cbn [app]. do 5 f_equal.
    unfold expanded. rewrite bind_cons. change ([] ≫= _) with (@nil Row).
    rewrite app_nil_r. cbn [cell cells nth label]. reflexivity.
Qed.

End MakeList.

Lemma make_list_then_mv_expand_witness :
  let w := mkWorld [orders] 0 in
  let made := mkFrame [("status_list", ObjectT)]
                [mkRow 0 [VList [VStr "success"; VStr "fail"; VStr "success"]]] in
  let expanded := mkFrame [("status_list", ObjectT)]
                    [mkRow 0 [VStr "success"]; mkRow 0 [VStr "fail"];
                     mkRow 0 [VStr "success"]] in
  heap w !! 0%nat = Some orders
  /\ NoDup (column_names orders)
  /\ column_position "status" (columns orders) = Some 1%nat
  /\ _make_list 0%nat [VStr "status"] ∅ w
     = (Ok 1%nat, mkWorld [orders; made] 0)
  /\ _mv_expand (H:=example_host) 1%nat [VStr "status_list"] ∅
       (mkWorld [orders; made] 0)
     = (Ok 2%nat, mkWorld [orders; made; expanded] 0).
Proof.
  cbv zeta. split; [reflexivity|].
  assert (NoDup (column_names orders)) as Hnd
    by (apply (bool_decide_unpack _); vm_compute; exact I).
  split; [exact Hnd|]. split; [reflexivity|].
  apply (make_list_then_mv_expand (H:=example_host) (mkWorld [orders] 0) 0%nat orders
           "status" 1%nat ∅ ∅); [reflexivity|exact Hnd|reflexivity].
Defined.

(** ** What the argument parser hands to the stages *)

Lemma all_chars_lstrip p s :
  (forall x, Py.isspace x = true -> p x = true) ->
  all_chars p (Py.lstrip s) = all_chars p s.
Proof.
  intros Hp. induction s as [|x s IH]; [done|]. cbn [Py.lstrip all_chars].
  destruct (Py.isspace x) eqn:E; [|done]. by rewrite IH, (Hp x E).
Qed.

Lemma all_chars_rstrip p s :
  (forall x, Py.isspace x = true -> p x = true) ->
  all_chars p (Py.rstrip s) = all_chars p s.
Proof.
  intros Hp. induction s as [|x s IH]; [done|]. rewrite rstrip_cons.
  cbn [all_chars]. rewrite <- IH. destruct (Py.rstrip s) as [|y r]; [|done].
  destruct (Py.isspace x) eqn:E; cbn [all_chars]; [|by rewrite andb_true_r].
  by rewrite (Hp x E).
Qed.

(** Stripping neither brings in nor takes away a character that is no
    white space. *)
Lemma contains_strip c s :
  Py.isspace c = false ->
  Py.contains (String c "") (Py.strip s) = Py.contains (String c "") s.
Proof.
  intros Hc. rewrite !contains_single. unfold Py.strip. f_equal.
  assert (forall x, Py.isspace x = true -> negb (Ascii.eqb x c) = true) as Hp.
  { intros x Hx. destruct (Ascii.eqb_spec x c) as [->|]; [congruence|done]. }
  by rewrite all_chars_rstrip, all_chars_lstrip.
Qed.

Lemma split1_absent sep s : Py.contains sep s = false -> Py.split1 sep s = (s, None).
Proof.
  unfold Py.contains, Py.split1. by destruct (Py.partition sep s) as [[??]|].
Qed.

Lemma split1_present sep s :
  Py.contains sep s = true ->
  exists a b, Py.split1 sep s = (a, Some b).
Proof.
  unfold Py.contains, Py.split1. destruct (Py.partition sep s) as [[a b]|]; [|done].
  by exists a, b.
Qed.

Lemma all_chars_drop p n : forall s,
  all_chars p s = true -> all_chars p (Py.drop n s) = true.
Proof.
  induction n as [|n IH]; intros s; [done|]. destruct s as [|x s]; [done|].
  cbn [all_chars Py.drop]. intros [_ Hs]%andb_true_iff. by apply IH.
Qed.

Lemma all_chars_drop_last p s :
  all_chars p s = true -> all_chars p (Py.drop_last s) = true.
Proof.
  induction s as [|x s IH]; [done|]. cbn [all_chars Py.drop_last].
  intros [Hx Hs]%andb_true_iff. destruct s as [|y s]; [done|].
  cbn [all_chars] in *. by rewrite Hx, IH.
Qed.

Section ParsedArguments.
Context `{Host}.

(** A string the literal parser returns holds no character its text does
    not hold. *)
Lemma parse_value_string c fuel value s :
  Py.contains (String c "") value = false ->
  _parse_value_fuel fuel value = VStr s ->
  Py.contains (String c "") s = false.
Proof.
  rewrite !contains_single. intros Hv%negb_false_iff Hs. apply negb_false_iff.
  assert (all_chars (fun x => negb (Ascii.eqb x c)) (Py.slice_to_last 1 value) = true)
    as Hslice.
  { unfold Py.slice_to_last. by apply all_chars_drop_last, all_chars_drop. }
  destruct fuel; cbn [_parse_value_fuel] in Hs;
    repeat match type of Hs with
           | (if ?b then _ else _) = _ => destruct b
           | match ?o with Some _ => _ | None => _ end = _ => destruct o eqn:?
           end;
    try (injection Hs as <-; done); try done.
  all: match goal with
       | E : (if _ then _ else _) = Some _ |- _ =>
           destruct (Py.contains "." value);
           [destruct (float_of_str value)|destruct (int_of_str value)];
           simpl in E; congruence
       end.
Qed.

(** The positional arguments the parser makes are literals of tokens
    without [=]. *)
Lemma classify_tokens_args tokens : forall acc,
  Forall (fun v => exists token, Py.contains "=" token = false
                                 /\ v = _parse_value token) acc.1 ->
  Forall (fun v => exists token, Py.contains "=" token = false
                                 /\ v = _parse_value token)
         (foldl classify_token acc tokens).1.
Proof.
  induction tokens as [|token tokens IH]; intros [args kwargs] Hacc; [done|].
  cbn [foldl]. apply IH. unfold classify_token.
  destruct (Py.split1 "=" token) as [key [value|]] eqn:E; [done|].
  cbn [fst] in *. apply Forall_app. split; [done|]. constructor; [|done].
  exists token. split; [|done]. unfold Py.split1, Py.contains in *.
  by destruct (Py.partition "=" token) as [[??]|].
Qed.

Lemma parse_arguments_args arg_string :
  Forall (fun v => forall s, v = VStr s -> Py.contains "=" s = false)
         (_parse_arguments arg_string).1.
Proof.
  unfold _parse_arguments. destruct (String.eqb arg_string ""); [done|].
  eapply Forall_impl; [apply (classify_tokens_args _ ([], ∅)); done|].
  intros v (token & Ht & ->) s Hs. by eapply parse_value_string.
Qed.

Lemma parse_query_operations query operation :
  operation ∈ _parse_query query ->
  exists arg_string,
    (op_args operation, op_kwargs operation) = _parse_arguments arg_string.
Proof.
  unfold _parse_query. intros (part & Hop & _)%list_elem_of_bind.
  unfold parse_part in Hop. destruct (String.eqb _ ""); [by apply elem_of_nil in Hop|].
  destruct (match_stage _) as [[name rest]|]; [|by apply elem_of_nil in Hop].
  exists (Py.strip rest). destruct (_parse_arguments (Py.strip rest)) as [args kwargs].
  by apply list_elem_of_singleton in Hop as ->.
Qed.

Lemma extend_loop_skip_all df result args : forall w,
  Forall (fun v => forall s, v = VStr s -> Py.contains "=" s = false) args ->
  mfor args (extend_step df result) w = (Ok tt, w).
Proof.
  induction args as [|arg args IH]; intros w Hargs; [done|].
  inversion Hargs as [|? ? Harg Hrest]; subst. cbn [mfor]. unfold mbind.
  assert (extend_step df result arg w = (Ok tt, w)) as ->; [|by apply IH].
  unfold extend_step. destruct arg as [| | | | |s|]; try done.
  by rewrite (split1_absent "=" s (Harg s eq_refl)).
Qed.

(** X19.  In a query [extend] never adds a column: an argument text with
    an [=] is made a named argument, so no positional argument the parser
    hands to [_extend] is of the form [name=expression], and the stage,
    called with the arguments of the operation (none of them named [self]
    or [df]), returns a copy of its input as it is. *)
Theorem extend_in_a_query (query : string) (operation : Operation) (w : World)
    (df : loc) (d : DataFrame) :
  operation ∈ _parse_query query ->
  op_kwargs operation !! "self" = None ->
  op_kwargs operation !! "df" = None ->
  heap w !! df = Some d ->
  call _extend df (op_args operation) (op_kwargs operation) w
  = (Ok (length (heap w)), mkWorld (heap w ++ [d]) (rng w)).
Proof.
  intros Hop Hself Hdf Hd. unfold call. rewrite Hself, Hdf.
  apply parse_query_operations in Hop as [arg_string Hargs].
  pose proof (parse_arguments_args arg_string) as Hno. rewrite <- Hargs in Hno.
  cbn [fst] in Hno.
  unfold _extend, df_copy, mbind at 1 2, deref, new_frame. rewrite Hd.
  unfold mbind. by rewrite extend_loop_skip_all.
Qed.

(** X20.  A condition text with an [=] in it ([=], [==], [!=], [>=],
    [<=]) and no comma at depth 0 is made a named argument: [_where],
    called with what the parser made of the text (the name being neither
    [self] nor [df]), gets no condition and hands on the table it was
    given, unfiltered. *)
Theorem where_equals_is_named (arg_string : string) (w : World) (df : loc) :
  Py.contains "=" arg_string = true ->
  commas_nested 0 arg_string = true ->
  (_parse_arguments arg_string).2 !! "self" = None ->
  (_parse_arguments arg_string).2 !! "df" = None ->
  (_parse_arguments arg_string).1 = []
  /\ call _where df (_parse_arguments arg_string).1 (_parse_arguments arg_string).2 w
     = (Ok df, w).
Proof.
  intros Heq Hc Hself Hdf. unfold call. rewrite Hself, Hdf.
  assert ((_parse_arguments arg_string).1 = []) as Ha; [|by rewrite Ha].
  unfold _parse_arguments.
  assert (arg_string <> "") as Hne by by destruct arg_string.
  assert (String.eqb arg_string "" = false) as -> by by destruct arg_string.
  assert (tokenize arg_string = [Py.strip arg_string]) as ->.
  { unfold tokenize, tokenizer_finish.
    destruct (tokenizer_run_nested arg_string tokenizer_start Hc) as [-> ->].
    cbn [tokenizer_start tokens current_token String.append].
    by destruct arg_string. }
  cbn [foldl]. unfold classify_token.
  destruct (split1_present "=" (Py.strip arg_string)) as (a & b & ->); [|done].
  by rewrite contains_strip.
Qed.

End ParsedArguments.

Lemma extend_in_a_query_witness :
  let w := mkWorld [orders] 0 in
  let operation := mkOperation "extend" [] {[ "total" := VStr "id+value" ]} in
  _parse_query (H:=example_host) "extend total=id+value" = [operation]
  /\ operation ∈ _parse_query (H:=example_host) "extend total=id+value"
  /\ op_kwargs operation !! "self" = None
  /\ op_kwargs operation !! "df" = None
  /\ heap w !! 0%nat = Some orders
  /\ call (_extend (H:=example_host)) 0%nat (op_args operation) (op_kwargs operation) w
     = (Ok 1%nat, mkWorld [orders; orders] 0)
  /\ _extend (H:=example_host) 0%nat [VStr "total=id+value"] ∅ w
     = (Ok 1%nat,
        mkWorld [orders;
                 mkFrame [("id", Int64); ("status", ObjectT); ("value", Int64);
                          ("total", Int64)]
                   [mkRow 0 [VInt 1; VStr "success"; VInt 120; VInt 121];
                    mkRow 1 [VInt 2; VStr "fail"; VInt 80; VInt 82];
                    mkRow 2 [VInt 3; VStr "success"; VInt 200; VInt 203]]] 0).
Proof.
  cbv zeta. split; [vm_compute; reflexivity|].
  assert (mkOperation "extend" [] {[ "total" := VStr "id+value" ]}
          ∈ _parse_query (H:=example_host) "extend total=id+value") as Hop.
  { replace (_parse_query (H:=example_host) "extend total=id+value")
      with [mkOperation "extend" [] {[ "total" := VStr "id+value" ]}]
      by (vm_compute; reflexivity).
    apply list_elem_of_here. }
  split; [exact Hop|]. split; [reflexivity|]. split; [reflexivity|].
  split; [reflexivity|]. split; [|vm_compute; reflexivity].
  exact (extend_in_a_query (H:=example_host) "extend total=id+value" _
           (mkWorld [orders] 0) 0%nat orders Hop eq_refl eq_refl eq_refl).
Defined.

Lemma where_equals_is_named_witness :
  let w := mkWorld [orders] 0 in
  Py.contains "=" "status == 'fail'" = true
  /\ commas_nested 0 "status == 'fail'" = true
  /\ (_parse_arguments (H:=example_host) "status == 'fail'").2 !! "self" = None
  /\ (_parse_arguments (H:=example_host) "status == 'fail'").2 !! "df" = None
  /\ (_parse_arguments (H:=example_host) "status == 'fail'").1 = []
  /\ call (_where (H:=example_host)) 0%nat
       (_parse_arguments (H:=example_host) "status == 'fail'").1
       (_parse_arguments (H:=example_host) "status == 'fail'").2 w
     = (Ok 0%nat, w).
Proof.
  cbv zeta. split; [reflexivity|]. split; [reflexivity|].
  split; [vm_compute; reflexivity|]. split; [vm_compute; reflexivity|].
  apply (where_equals_is_named (H:=example_host) "status == 'fail'"
           (mkWorld [orders] 0) 0%nat); [reflexivity|reflexivity|..];
    vm_compute; reflexivity.
Defined.

(** ** [extend] on a sum or product none of whose parts is a column *)

Section ExtendConstant.
Context `{Host}.

Lemma operands_none d parts :
  Forall (fun part => has_column d (Py.strip part) = false) parts ->
  operands d parts = [].
Proof.
  unfold operands. induction 1 as [|part parts Hp _ IH]; [done|].
  rewrite fmap_cons. cbn [List.filter]. by rewrite Hp.
Qed.

Lemma extend_constant (w : World) (df : loc) (d : DataFrame) (arg col_name
    expression : string) (kwargs : gmap string Value) (z : Z) :
  heap w !! df = Some d ->
  Py.split1 "=" arg = (col_name, Some expression) ->
  eval_expression d (Py.strip expression)
  = Ok (Some (Int64, replicate (len d) (VInt z))) ->
  _extend df [VStr arg] kwargs w
  = (Ok (length (heap w)),
     mkWorld (heap w ++ [setitem (Py.strip col_name)
                           (Int64, replicate (len d) (VInt z)) d])
             (rng w)).
Proof.
  intros Hd Hs He. unfold _extend, df_copy, mbind at 1 2, deref, new_frame.
  rewrite Hd. cbn [mfor]. unfold mbind at 1 2. unfold extend_step. rewrite Hs.
  unfold try_except, mbind, deref, lift, update_frame. cbn [heap rng].
  unfold loc in *.
  rewrite lookup_app_l by by eapply lookup_lt_Some. rewrite Hd, He.
  cbv beta iota. cbn [heap rng].
  rewrite lookup_app_r, Nat.sub_diag by done. cbn [lookup list_lookup].
  rewrite insert_app_r_alt, Nat.sub_diag by done. done.
Qed.

(** X21.  When no part of a sum names a column of the table, [extend] does
    not leave the target column out: it adds it with 0 in every row, the
    value the sum starts from; for a product, with 1. *)
Theorem extend_without_operands (w : World) (df : loc) (d : DataFrame)
    (arg col_name expression sep : string) (z : Z)
    (kwargs : gmap string Value) :
  heap w !! df = Some d ->
  Py.split1 "=" arg = (col_name, Some expression) ->
  Py.startswith "tolower(" (Py.strip expression) = false ->
  Py.startswith "toupper(" (Py.strip expression) = false ->
  (sep = "+" /\ z = 0 /\ Py.contains "+" (Py.strip expression) = true)
  \/ (sep = "*" /\ z = 1 /\ Py.contains "+" (Py.strip expression) = false
      /\ Py.contains "*" (Py.strip expression) = true) ->
  Forall (fun part => has_column d (Py.strip part) = false)
         (Py.split sep (Py.strip expression)) ->
  _extend df [VStr arg] kwargs w
  = (Ok (length (heap w)),
     mkWorld (heap w ++ [setitem (Py.strip col_name)
                           (Int64, replicate (len d) (VInt z)) d])
             (rng w)).
Proof.
  intros Hd Hs Hl Hu Hsep Hparts.
  apply (extend_constant w df d arg col_name expression); try done.
  unfold eval_expression. rewrite Hl, Hu.
  destruct Hsep as [(-> & -> & Hplus)|(-> & -> & Hplus & Hstar)].
  - by rewrite Hplus, (operands_none _ _ Hparts).
  - by rewrite Hplus, Hstar, (operands_none _ _ Hparts).
Qed.

End ExtendConstant.

Lemma extend_without_operands_witness :
  let w := mkWorld [orders] 0 in
  heap w !! 0%nat = Some orders
  /\ Py.split1 "=" "total = price + tax" = ("total ", Some " price + tax")
  /\ Py.startswith "tolower(" (Py.strip " price + tax") = false
  /\ Py.startswith "toupper(" (Py.strip " price + tax") = false
  /\ Py.contains "+" (Py.strip " price + tax") = true
  /\ Forall (fun part => has_column orders (Py.strip part) = false)
            (Py.split "+" (Py.strip " price + tax"))
  /\ _extend (H:=example_host) 0%nat [VStr "total = price + tax"] ∅ w
     = (Ok (length (heap w)),
        mkWorld (heap w ++ [setitem (Py.strip "total ")
                              (Int64, replicate (len orders) (VInt 0)) orders])
                (rng w)).
Proof.
  cbv zeta. split; [reflexivity|]. split; [reflexivity|].
  split; [reflexivity|]. split; [reflexivity|]. split; [reflexivity|].
  assert (Forall (fun part => has_column orders (Py.strip part) = false)
                 (Py.split "+" (Py.strip " price + tax"))) as Hparts.
  { change (Py.split "+" (Py.strip " price + tax")) with ["price "; " tax"].
    by repeat constructor. }
  split; [exact Hparts|].
  apply (extend_without_operands (H:=example_host) (mkWorld [orders] 0) 0%nat orders
           "total = price + tax" "total " " price + tax" "+" 0 ∅);
    [reflexivity|reflexivity|reflexivity|reflexivity| |exact Hparts].
  left. by repeat split.
Defined.

Example extend_none_of_the_columns :
  _extend (H:=example_host) 0%nat [VStr "total = price + tax"] ∅ (mkWorld [orders] 0)
  = (Ok 1%nat,
     mkWorld [orders;
              mkFrame [("id", Int64); ("status", ObjectT); ("value", Int64);
                       ("total", Int64)]
                [mkRow 0 [VInt 1; VStr "success"; VInt 120; VInt 0];
                 mkRow 1 [VInt 2; VStr "fail"; VInt 80; VInt 0];
                 mkRow 2 [VInt 3; VStr "success"; VInt 200; VInt 0]]] 0).
Proof. vm_compute. reflexivity. Qed.

(** ** The queries of [get_query_examples] *)

Section QueryExamples.
Context `{Host}.

(** A query that starts with a word that is no stage keyword fails at its
    first operation. *)
Lemma first_word_unknown (self : KQLEngine) (name rest : string) (w : World)
    (d : DataFrame) :
  name <> "" -> all_chars Py.isword name = true ->
  take_while Py.isword rest = "" ->
  Py.lower name ∉ stage_keywords ->
  heap w !! self_df self = Some d ->
  execute_query self (name +:+ rest) w
  = (Raise (mkExn ValueError
              ("Query execution error: Unknown function: " +:+ Py.lower name)),
     mkWorld (heap w ++ [d]) (rng w)).
Proof.
  intros Hne Hw Hrest Hk Hd.
  assert (exists args kwargs operations,
            _parse_query (name +:+ rest)
            = mkOperation (Py.lower name) args kwargs :: operations)
    as (args & kwargs & operations & Hp).
  { rewrite parse_query_parts. unfold split_parts.
    rewrite split_char_solid.
    2:{ eapply all_chars_impl; [|exact Hw]. intros c Hc.
        by rewrite (word_not_pipe c Hc). }
    cbn [fst snd]. rewrite bind_cons.
    assert (take_while Py.isword (split_char "|" rest).1 = "") as Hh.
    { destruct rest as [|y rest]; [done|]. rewrite split_char_cons.
      cbn [take_while] in Hrest. destruct (Py.isword y) eqn:Ey; [done|].
      destruct (Ascii.eqb y "|"); cbn [fst take_while]; [done|]. by rewrite Ey. }
    rewrite parse_part_word by done.
    destruct (_parse_arguments _) as [args kwargs]. by eexists _, _, _. }
  unfold execute_query, try_except. rewrite Hp.
  unfold mbind, df_copy, mbind, deref, new_frame. rewrite Hd.
  cbn [run_operations op_function]. by rewrite (unrecognized _ Hk).
Qed.

(** X22.  Each query of [get_query_examples] starts with the table name,
    which the lexer reads as a stage keyword: for a table name made of
    word characters that is no stage keyword (as the default, [Data]),
    [execute_query] fails on every one of the seven with "Unknown
    function" and the name in lower case. *)
Theorem query_examples_fail (self : KQLEngine) (w : World) (d : DataFrame)
    (example : QueryExample) :
  heap w !! self_df self = Some d ->
  table_name self <> "" ->
  all_chars Py.isword (table_name self) = true ->
  Py.lower (table_name self) ∉ stage_keywords ->
  example ∈ get_query_examples self ->
  execute_query self (example_query example) w
  = (Raise (mkExn ValueError
              ("Query execution error: Unknown function: "
               +:+ Py.lower (table_name self))),
     mkWorld (heap w ++ [d]) (rng w)).
Proof.
  intros Hd Hne Hw Hk Hex. unfold get_query_examples in Hex.
  repeat (apply elem_of_cons in Hex as [->|Hex]);
    [..|by apply elem_of_nil in Hex];
    cbn [example_query]; by apply first_word_unknown.
Qed.

End QueryExamples.

Lemma query_examples_fail_witness :
  let self := mkEngine 0%nat "Data" in
  let w := mkWorld [orders] 0 in
  let example := mkQueryExample "Filter data" "Data | where column_name > 100"
                   "Filter rows where column_name is greater than 100" in
  heap w !! self_df self = Some orders
  /\ table_name self <> ""
  /\ all_chars Py.isword (table_name self) = true
  /\ (Py.lower (table_name self) ∉ stage_keywords)
  /\ example ∈ get_query_examples self
  /\ execute_query (H:=example_host) self (example_query example) w
     = (Raise (mkExn ValueError "Query execution error: Unknown function: data"),
        mkWorld [orders; orders] 0).
Proof.
  cbv zeta. split; [reflexivity|]. split; [done|]. split; [reflexivity|].
  assert (Py.lower "Data" ∉ stage_keywords) as Hk.
  { apply (bool_decide_unpack _). vm_compute. exact I. }
  split; [exact Hk|].
  assert (mkQueryExample "Filter data" "Data | where column_name > 100"
            "Filter rows where column_name is greater than 100"
          ∈ get_query_examples (mkEngine 0%nat "Data")) as Hex.
  { apply list_elem_of_here. }
  split; [exact Hex|].
  exact (query_examples_fail (H:=example_host) (mkEngine 0%nat "Data")
           (mkWorld [orders] 0) orders _ eq_refl ltac:(done) eq_refl Hk Hex).
Defined.

(** ** The documented forms [top N by column] and [sort by column] *)

Section DocumentedForms.
Context `{Host}.

Lemma parse_arguments_one arg_string :
  commas_nested 0 arg_string = true ->
  (length (_parse_arguments arg_string).1 <= 1)%nat.
Proof.
  intros Hc. unfold _parse_arguments.
  destruct (String.eqb_spec arg_string "") as [->|Hne]; [simpl; lia|].
  assert (tokenize arg_string = [Py.strip arg_string]) as ->.
  { unfold tokenize, tokenizer_finish.
    destruct (tokenizer_run_nested arg_string tokenizer_start Hc) as [-> ->].
    cbn [tokenizer_start tokens current_token String.append].
    by destruct arg_string. }
  cbn [foldl]. unfold classify_token.
  destruct (Py.split1 "=" (Py.strip arg_string)) as [key [value|]]; simpl; lia.
Qed.

(** X23.  An argument text without a comma at depth 0 gives [_top] one
    positional argument at most, so [top] written without a comma, as in
    [top 10 by value desc], takes neither the count nor the column from
    it: called with what the parser made of the text (no argument named
    [self] or [df]), it returns the first 10 rows of its input, in their
    order. *)
Theorem top_without_comma (arg_string : string) (w : World) (df : loc)
    (d : DataFrame) :
  commas_nested 0 arg_string = true ->
  (_parse_arguments arg_string).2 !! "self" = None ->
  (_parse_arguments arg_string).2 !! "df" = None ->
  heap w !! df = Some d ->
  call _top df (_parse_arguments arg_string).1 (_parse_arguments arg_string).2 w
  = (Ok (length (heap w)), mkWorld (heap w ++ [head 10 d]) (rng w)).
Proof.
  intros Hc Hself Hdf Hd. unfold call. rewrite Hself, Hdf.
  pose proof (parse_arguments_one arg_string Hc) as Hlen.
  unfold _top, mbind at 1, deref. rewrite Hd.
  destruct (_parse_arguments arg_string).1 as [|a [|column args]]; try done.
  simpl in Hlen. lia.
Qed.

(** The arguments of a stage whose argument text is one token without
    [=]. *)
Lemma parse_arguments_plain (s : string) :
  s <> "" -> Py.strip s = s ->
  all_chars (fun x => negb (Ascii.eqb x ",")) s = true ->
  all_chars (fun x => negb (Ascii.eqb x "=")) s = true ->
  _parse_arguments s = ([_parse_value s], ∅).
Proof.
  intros Hne Hstrip Hcomma Heq. unfold _parse_arguments.
  assert (String.eqb s "" = false) as -> by by destruct s.
  assert (tokenize s = [s]) as ->.
  { unfold tokenize, tokenizer_finish.
    destruct (tokenizer_run_nested s tokenizer_start) as [-> ->].
    { by apply commas_nested_none. }
    cbn [tokenizer_start tokens current_token String.append]. rewrite Hstrip.
    by destruct s. }
  cbn [foldl]. unfold classify_token. by rewrite split1_none.
Qed.

Lemma parse_arguments_by (column : string) :
  column <> "" -> all_chars Py.isword column = true ->
  _parse_arguments ("by " +:+ column) = ([VStr ("by " +:+ column)], ∅).
Proof.
  intros Hne Hw.
  assert (forall p, (forall c, Py.isword c = true -> p c = true) -> p "b"%char = true ->
                    p "y"%char = true -> p " "%char = true ->
                    all_chars p ("by " +:+ column) = true) as Hall.
  { intros p Hp Hb Hy Hs. rewrite all_chars_app. cbn [all_chars].
    rewrite Hb, Hy, Hs. simpl. by eapply all_chars_impl. }
  assert (Py.strip ("by " +:+ column) = "by " +:+ column) as Hstrip.
  { unfold Py.strip.
    change (Py.lstrip ("by " +:+ column)) with ("by " +:+ column).
    rewrite rstrip_app, (rstrip_solid _ (word_solid _ Hw)). by destruct column. }
  assert (Py.contains "." ("by " +:+ column) = false) as Hdot.
  { rewrite contains_single. apply negb_false_iff, Hall; try done. intros c Hc.
    destruct c as [[] [] [] [] [] [] [] []]; try done. }
  assert (int_of_str ("by " +:+ column) = None) as Hint.
  { reflexivity. }
  rewrite parse_arguments_plain; [|done|done|..].
  - do 2 f_equal. unfold _parse_value.
    change ("by " +:+ column) with (String "b" (String "y" (String " " column))) in *.
    cbn [String.length _parse_value_fuel].
    unfold Py.startswith, dquote, Py.dquote. rewrite !prefix_single, Hdot, Hint. done.
  - apply Hall; try done. intros c Hc.
    destruct c as [[] [] [] [] [] [] [] []]; try done.
  - apply Hall; try done. intros c Hc.
    destruct c as [[] [] [] [] [] [] [] []]; try done.
Qed.

(** X24.  After [sort], the words [by column] are one positional argument,
    the text [by column] itself: [_sort] looks for a column of that name
    and, the table having none, fails with a [KeyError] on it. *)
Theorem sort_by_is_one_name (column : string) (w : World) (df : loc)
    (d : DataFrame) :
  column <> "" -> all_chars Py.isword column = true ->
  heap w !! df = Some d ->
  has_column d ("by " +:+ column) = false ->
  _parse_arguments ("by " +:+ column) = ([VStr ("by " +:+ column)], ∅)
  /\ _sort df (_parse_arguments ("by " +:+ column)).1
       (_parse_arguments ("by " +:+ column)).2 w
     = (Raise (key_error ("by " +:+ column)), w).
Proof.
  intros Hne Hw Hd Hc. rewrite parse_arguments_by by done. split; [done|].
  cbn [fst snd]. unfold _sort.
  rewrite (run_frame_stage (fun d => sort_frame d [VStr ("by " +:+ column)] ∅) _ _ _ Hd).
  unfold sort_frame. rewrite lookup_empty. cbn [default].
  unfold sort_values, flatten_args. rewrite bind_cons.
  change ([] ≫= _) with (@nil Value). cbn [app rmap as_label].
  unfold has_column in Hc.
  by destruct (column_position ("by " +:+ column) (columns d)).
Qed.

(** X25.  A part of a query that does not start with a word, white space
    apart, is dropped without an error: the query reads as if the part
    and its pipe were not there. *)
Theorem parse_query_drops_part (q1 q2 : string) :
  take_while Py.isword (Py.lstrip q2) = "" ->
  Py.contains "|" q2 = false ->
  _parse_query (q1 +:+ "|" +:+ q2) = _parse_query q1.
Proof.
  intros Hw Hp. rewrite parse_query_concat.
  assert (_parse_query q2 = []) as ->; [|by rewrite app_nil_r].
  rewrite parse_query_parts, split_parts_solid.
  2:{ rewrite contains_single in Hp. by apply negb_false_iff in Hp. }
  rewrite bind_cons. change ([] ≫= parse_part) with (@nil Operation).
  rewrite app_nil_r. unfold parse_part.
  destruct (String.eqb (Py.strip q2) ""); [done|].
  unfold match_stage.
  assert (take_while Py.isword (Py.strip q2) = "") as ->; [|done].
  unfold Py.strip. destruct (Py.lstrip q2) as [|x r]; [done|].
  cbn [take_while] in Hw. destruct (Py.isword x) eqn:Ex; [done|].
  rewrite rstrip_cons. destruct (Py.rstrip r).
  - destruct (Py.isspace x); [done|]. cbn [take_while]. by rewrite Ex.
  - cbn [take_while]. by rewrite Ex.
Qed.

End DocumentedForms.

Lemma top_without_comma_witness :
  let w := mkWorld [orders] 0 in
  commas_nested 0 "2 by value desc" = true
  /\ (_parse_arguments (H:=example_host) "2 by value desc").2 !! "self" = None
  /\ (_parse_arguments (H:=example_host) "2 by value desc").2 !! "df" = None
  /\ heap w !! 0%nat = Some orders
  /\ _parse_arguments (H:=example_host) "2 by value desc"
     = ([VStr "2 by value desc"], ∅)
  /\ call (_top (H:=example_host)) 0%nat
       (_parse_arguments (H:=example_host) "2 by value desc").1
       (_parse_arguments (H:=example_host) "2 by value desc").2 w
     = (Ok (length (heap w)), mkWorld (heap w ++ [head 10 orders]) (rng w)).
Proof.
  cbv zeta. split; [reflexivity|]. split; [vm_compute; reflexivity|].
  split; [vm_compute; reflexivity|]. split; [reflexivity|].
  split; [vm_compute; reflexivity|].
  apply (top_without_comma (H:=example_host) "2 by value desc"
           (mkWorld [orders] 0) 0%nat orders);
    [reflexivity|vm_compute; reflexivity|vm_compute; reflexivity|reflexivity].
Defined.

Lemma sort_by_is_one_name_witness :
  let w := mkWorld [orders] 0 in
  "value" <> "" /\ all_chars Py.isword "value" = true
  /\ heap w !! 0%nat = Some orders
  /\ has_column orders "by value" = false
  /\ _parse_arguments (H:=example_host) "by value" = ([VStr "by value"], ∅)
  /\ _sort (H:=example_host) 0%nat
       (_parse_arguments (H:=example_host) "by value").1
       (_parse_arguments (H:=example_host) "by value").2 w
     = (Raise (key_error "by value"), w).
Proof.
  cbv zeta. split; [done|]. split; [reflexivity|]. split; [reflexivity|].
  split; [reflexivity|].
  apply (sort_by_is_one_name (H:=example_host) "value" (mkWorld [orders] 0)
           0%nat orders); [done|reflexivity..].
Defined.

Lemma parse_query_drops_part_witness :
  take_while Py.isword (Py.lstrip " > count") = ""
  /\ Py.contains "|" " > count" = false
  /\ _parse_query (H:=example_host) "take 2 | > count"
     = _parse_query (H:=example_host) "take 2 ".
Proof.
  split; [reflexivity|]. split; [reflexivity|].
  apply (parse_query_drops_part (H:=example_host) "take 2 " " > count"); reflexivity.
Defined.

(** ** [take] after [take] *)

Section TakeTake.
Context `{Host}.

Lemma run_take (r : loc) (d : DataFrame) (z : Z) (w : World) :
  heap w !! r = Some d ->
  count_digits z <= max_str_digits ->
  run_operations (_parse_query ("take " +:+ str_of_int z)) r w
  = (Ok (length (heap w)), mkWorld (heap w ++ [head z d]) (rng w)).
Proof.
  intros Hd Hz. rewrite parse_query_take by done.
  cbn [run_operations op_function op_args op_kwargs].
  change (lookup_function "take" _initialize_functions) with (Some _take).
  unfold mbind, call. rewrite !lookup_empty. unfold _take, mbind, lift, deref, new_frame.
  cbn [py_int]. by rewrite Hd.
Qed.

(** X26.  [take n | take m], for counts that are not negative and have no
    more digits than [int] accepts (4300), returns the first [min n m]
    rows of the engine's table. *)
Theorem query_take_take (self : KQLEngine) (w : World) (d : DataFrame) (n m : Z) :
  heap w !! self_df self = Some d ->
  0 <= n -> 0 <= m ->
  count_digits n <= max_str_digits -> count_digits m <= max_str_digits ->
  exists out,
    execute_query self ("take " +:+ str_of_int n +:+ "|" +:+ "take " +:+ str_of_int m) w
    = (Ok (S (S (length (heap w)))),
       mkWorld (heap w ++ [d; head n d; out]) (rng w))
    /\ columns out = columns d
    /\ rows out = take (Z.to_nat (Z.min n m)) (rows d).
Proof.
  intros Hd Hn Hm Hdn Hdm. exists (head m (head n d)). split; [|split; [done|]].
  - change ("take " +:+ str_of_int n +:+ "|" +:+ "take " +:+ str_of_int m)
      with (("take " +:+ str_of_int n) +:+ "|" +:+ ("take " +:+ str_of_int m)).
    rewrite execute_query_concat.
    assert (execute_query self ("take " +:+ str_of_int n) w
            = (Ok (S (length (heap w))), mkWorld (heap w ++ [d; head n d]) (rng w)))
      as ->.
    { unfold execute_query, try_except, mbind at 1, df_copy, mbind at 1, deref, new_frame.
      rewrite Hd. rewrite (run_take _ d); [|cbn [heap]|done].
      - cbn [heap rng]. rewrite length_app. cbn [length].
        by rewrite Nat.add_1_r, <- app_assoc.
      - by rewrite lookup_app_r, Nat.sub_diag. }
    unfold try_except. rewrite (run_take _ (head n d)); [|cbn [heap]|done].
    + cbn [heap rng]. rewrite !length_app. cbn [length].
      rewrite Nat.add_comm. cbn [Nat.add]. by rewrite <- app_assoc.
    + rewrite lookup_app_r by lia.
      by replace (S (length (heap w)) - length (heap w))%nat with 1%nat by lia.
  - unfold head. cbn [rows len columns].
    destruct (Z.leb_spec 0 n); [|lia]. destruct (Z.leb_spec 0 m); [|lia].
    rewrite take_take. f_equal. lia.
Qed.

End TakeTake.

Lemma query_take_take_witness :
  let self := mkEngine 0%nat "Data" in
  let w := mkWorld [orders] 0 in
  heap w !! self_df self = Some orders /\ 0 <= 2 /\ 0 <= 1
  /\ count_digits 2 <= max_str_digits /\ count_digits 1 <= max_str_digits
  /\ execute_query (H:=example_host) self "take 2|take 1" w
     = (Ok 3%nat, mkWorld [orders; orders; head 2 orders; head 1 orders] 0)
  /\ exists out,
       execute_query (H:=example_host) self
         ("take " +:+ str_of_int 2 +:+ "|" +:+ "take " +:+ str_of_int 1) w
       = (Ok (S (S (length (heap w)))),
          mkWorld (heap w ++ [orders; head 2 orders; out]) (rng w))
       /\ columns out = columns orders
       /\ rows out = take (Z.to_nat (Z.min 2 1)) (rows orders).
Proof.
  cbv zeta. split; [reflexivity|]. split; [done|]. split; [done|].
  split; [vm_compute; discriminate|]. split; [vm_compute; discriminate|].
  split; [vm_compute; reflexivity|].
  apply (query_take_take (H:=example_host) (mkEngine 0%nat "Data")
           (mkWorld [orders] 0) orders 2 1);
    [reflexivity|done|done|vm_compute; discriminate..].
Defined.

(** ** [take] with a count that is no number *)

Lemma scan_digits_count s : forall prev acc count z count' rest,
  scan_digits prev acc count s = Some (z, count', rest) ->
  count' <= count + Z.of_nat (String.length s).
Proof.
  induction s as [|c s IH]; intros prev acc count z count' rest; cbn [scan_digits].
  - destruct prev; [done|]. intros [= _ <- _]. simpl. lia.
  - cbn [String.length]. destruct (Py.isdigit c).
    { intros Hs%IH. lia. }
    destruct (c =? "_")%char.
    { destruct prev; [done|]. intros Hs%IH. lia. }
    destruct prev; [done|]. intros [= _ <- _]. lia.
Qed.

Lemma lstrip_by_length p s :
  (String.length (Py.lstrip_by p s) <= String.length s)%nat.
Proof.
  induction s as [|c s IH]; [done|]. cbn [Py.lstrip_by].
  destruct (p c); cbn [String.length]; lia.
Qed.

(** [int] finds too many digits only in a text that long. *)
Lemma read_int_too_long text count :
  read_int text = IntTooLong count ->
  max_str_digits < Z.of_nat (String.length text).
Proof.
  unfold read_int. pose proof (lstrip_by_length Py.isspace_int text) as Hl.
  set (s := Py.lstrip_by Py.isspace_int text) in *.
  assert (exists negative s',
            match s with
            | String "+" r => (false, r)
            | String "-" r => (true, r)
            | _ => (false, s)
            end = (negative, s')
            /\ (String.length s' <= String.length s)%nat) as (negative & s' & -> & Hs).
  { destruct s as [|[[] [] [] [] [] [] [] []] r]; eexists _, _;
      (split; [reflexivity|]); cbn [String.length]; lia. }
  destruct (scan_digits true 0 0 s') as [[[z n] rest]|] eqn:E; [|done].
  apply scan_digits_count in E.
  destruct (Z.ltb_spec max_str_digits n); [|by destruct (String.eqb _ _)].
  intros _. lia.
Qed.

Lemma first_chars_all n : forall s,
  (String.length s <= n)%nat -> Py.first_chars n s = s.
Proof.
  induction n as [|n IH]; intros [|c s]; cbn [String.length Py.first_chars];
    try done; [lia|]. intros Hs. rewrite IH; [done|lia].
Qed.

Lemma repr_char_word c :
  Py.isword c = true -> Py.repr_char "'" c = String c "".
Proof. destruct c as [[] [] [] [] [] [] [] []]; vm_compute; congruence. Qed.

Lemma repr_chars_word s :
  all_chars Py.isword s = true -> Py.repr_chars "'" s = s.
Proof.
  induction s as [|c s IH]; [done|]. cbn [all_chars Py.repr_chars].
  intros [Hc Hs]%andb_true_iff. by rewrite (repr_char_word c Hc), (IH Hs).
Qed.

(** [repr] of a text of word characters: the text between single
    quotes. *)
Lemma repr_word s :
  all_chars Py.isword s = true -> Py.repr s = "'" +:+ s +:+ "'".
Proof.
  intros Hw. unfold Py.repr.
  assert (Py.contains "'" s = false) as ->.
  { rewrite contains_single. apply negb_false_iff.
    eapply all_chars_impl; [|exact Hw]. intros c Hc.
    destruct (word_not_quote c Hc) as (Hq & _).
    by destruct (Ascii.eqb_spec c "'"). }
  cbn [andb]. by rewrite (repr_chars_word s Hw).
Qed.

Section TakeCount.
Context `{Host}.

(** X27.  [take] turns its first argument into an integer before it looks
    at the table: for a bare word of at most 198 characters that is no
    integer literal, [true] and [false] apart, it fails with the
    [ValueError] of [int], whose message shows the word between
    quotes. *)
Theorem take_count_not_a_number (w : World) (df : loc) (value : string)
    (rest : list Value) (kwargs : gmap string Value) :
  all_chars Py.isword value = true ->
  (String.length value <= 198)%nat ->
  int_of_str value = None ->
  Py.lower value <> "true" -> Py.lower value <> "false" ->
  _take df (_parse_value value :: rest) kwargs w
  = (Raise (mkExn ValueError
              ("invalid literal for int() with base 10: '" +:+ value +:+ "'")),
     w).
Proof.
  intros Hw Hl Hi Ht Hf. rewrite parse_value_bare by done.
  destruct (String.eqb_spec (Py.lower value) "true"); [done|].
  destruct (String.eqb_spec (Py.lower value) "false"); [done|].
  unfold _take, mbind, lift. cbn [py_int]. rewrite Hi. unfold int_error.
  destruct (read_int value) as [z| |count] eqn:Er.
  - unfold int_of_str in Hi. by rewrite Er in Hi.
  - rewrite (repr_word value Hw), first_chars_all; [done|].
    rewrite !str_length_app. cbn [String.length]. lia.
  - apply read_int_too_long in Er. unfold max_str_digits in Er. lia.
Qed.

End TakeCount.

Lemma take_count_not_a_number_witness :
  let w := mkWorld [orders] 0 in
  all_chars Py.isword "ten" = true /\ (String.length "ten" <= 198)%nat
  /\ int_of_str "ten" = None
  /\ Py.lower "ten" <> "true" /\ Py.lower "ten" <> "false"
  /\ _take 0%nat [_parse_value (H:=example_host) "ten"] ∅ w
     = (Raise (mkExn ValueError "invalid literal for int() with base 10: 'ten'"), w).
Proof.
  cbv zeta. split; [reflexivity|]. split; [simpl; lia|]. split; [reflexivity|].
  split; [done|]. split; [done|].
  apply (take_count_not_a_number (H:=example_host) (mkWorld [orders] 0) 0%nat "ten"
           [] ∅); [reflexivity|simpl; lia|reflexivity|done|done].
Defined.

(** Beyond 4300 digits [int] gives another message, and it gives it
    before it looks at what follows the digits. *)
Example take_count_too_long :
  let value := String.concat "" (repeat "7" 4301) +:+ "x" in
  all_chars Py.isword value = true
  /\ int_of_str value = None
  /\ py_int (VStr value)
     = Raise (mkExn ValueError
                "Exceeds the limit (4300 digits) for integer string conversion: value has 4301 digits; use sys.set_int_max_str_digits() to increase the limit").
Proof. cbv zeta. repeat split; vm_compute; reflexivity. Qed.

(** [int] of a boolean is 1 or 0: [take true] returns one row. *)
Example take_true :
  execute_query (H:=example_host) (mkEngine 0%nat "Data") "take true"
    (mkWorld [orders] 0)
  = (Ok 2%nat, mkWorld [orders; orders; head 1 orders] 0).
Proof. vm_compute. reflexivity. Qed.

(** A named argument called [df] collides with the parameter of the
    method. *)
Example take_named_df :
  (execute_query (H:=example_host) (mkEngine 0%nat "Data") "take 1, df=2"
     (mkWorld [orders] 0)).1
  = Raise (mkExn ValueError
             "Query execution error: KQLEngine._take() got multiple values for argument 'df'").
Proof. vm_compute. reflexivity. Qed.

(** ** [where] with a condition in which no operator is found *)

Lemma filter_all_true {A} (l : list A) :
  (List.filter snd (zip l ((fun _ => true) <$> l))).*1 = l.
Proof.
  induction l as [|x l IH]; [done|]. rewrite fmap_cons.
  cbn [zip zip_with List.filter snd]. rewrite fmap_cons. cbn [fst].
  f_equal. exact IH.
Qed.

Section WhereNoOperator.
Context `{Host}.

Lemma where_loop_no_predicate d mask conditions :
  omap (fun cond => parse_predicate (Py.strip cond)) conditions = [] ->
  where_loop d mask conditions = Ok mask.
Proof.
  induction conditions as [|cond conditions IH]; [done|].
  cbn [omap list_omap where_loop]. unfold where_step.
  destruct (parse_predicate (Py.strip cond)); [done|]. exact IH.
Qed.

(** X28.  A condition in which [_where] finds no operator filters
    nothing: on a table with rows and the default index, the stage
    succeeds and returns a new table equal to its input. *)
Theorem where_without_operator (w : World) (df : loc) (d : DataFrame)
    (condition : string) (rest : list Value) (kwargs : gmap string Value) :
  heap w !! df = Some d ->
  rows d <> [] ->
  index d = range_index (len d) ->
  where_predicates condition = [] ->
  _where df (VStr condition :: rest) kwargs w
  = (Ok (length (heap w)), mkWorld (heap w ++ [d]) (rng w)).
Proof.
  intros Hd Hrows Hindex Hpred. unfold _where.
  rewrite (run_frame_stage (fun d => where_frame d condition) _ _ _ Hd).
  assert (where_frame d condition = Ok d) as ->; [|done].
  unfold where_frame. rewrite (where_loop_no_predicate _ _ _ Hpred).
  cbn [rbind]. unfold getitem_bool.
  assert (mask_is_bool (all_true (len d)) = true) as ->.
  { cbn [all_true mask_is_bool]. unfold len. by destruct (rows d). }
  match goal with |- context [rmap ?f (rows d)] =>
    assert (rmap f (rows d) = Ok ((fun _ => true) <$> rows d)) as ->
  end.
  { apply rmap_fmap_ok, Forall_forall. intros row Hrow.
    apply list_elem_of_lookup in Hrow as [i Hi].
    assert (label row = Z.of_nat i /\ (i < len d)%nat) as [-> Hlt].
    { assert (index d !! i = Some (label row)) as Hl
        by (unfold index; by rewrite list_lookup_fmap, Hi).
      rewrite Hindex in Hl. unfold range_index in Hl.
      rewrite list_lookup_fmap in Hl.
      destruct (seq 0 (len d) !! i) as [j|] eqn:Ej; [|done].
      apply lookup_seq in Ej as [-> ?]. simpl in Hl. by injection Hl as <-. }
    destruct (Z.leb_spec 0 (Z.of_nat i)); [|lia].
    rewrite Nat2Z.id. cbn [all_true mask_values].
    by rewrite lookup_replicate_2. }
  cbn [rbind]. rewrite filter_all_true. by destruct d.
Qed.

End WhereNoOperator.

Lemma where_without_operator_witness :
  let w := mkWorld [orders] 0 in
  heap w !! 0%nat = Some orders
  /\ rows orders <> []
  /\ index orders = range_index (len orders)
  /\ where_predicates (H:=example_host) "status is fail" = []
  /\ _where (H:=example_host) 0%nat [VStr "status is fail"] ∅ w
     = (Ok (length (heap w)), mkWorld (heap w ++ [orders]) (rng w)).
Proof.
  cbv zeta. split; [reflexivity|]. split; [done|]. split; [reflexivity|].
  split; [reflexivity|].
  apply (where_without_operator (H:=example_host) (mkWorld [orders] 0) 0%nat orders
           "status is fail" [] ∅); [reflexivity|done|reflexivity|reflexivity].
Defined.
